(** * Paracord: the per-target deletion engine

    A shallow embedding of [paracord.py]: the three network operations
    ([search_messages], [delete_message], [edit_message]), the pagination
    loop and action executor of [process_target], the batch runner with its
    progress file ([run_batch], [save_progress]), and the start of a run
    ([load_token], [validate_token], [main]).

    The remote service is an oracle [env]: the reply to the [n]-th outbound
    call, given the request that was sent.  Every outbound call and every
    [time.sleep] is appended to a log, so that statements such as "no delete
    call is issued" or "the engine sleeps [2 * w] before the next call" are
    statements about that log. *)

From Stdlib Require Import ZArith List String Bool Lia Arith.
Import ListNotations.
Open Scope string_scope.
Open Scope list_scope.
Open Scope Z_scope.

Set Implicit Arguments.

(** ** Data model *)

Definition MEOW_TEXT : string := "Meow Meow Meow Meow".

(** [MEOW_MODES = ("off", "edit_and_delete", "edit_only")] *)
Inductive meow_mode_t := off | edit_and_delete | edit_only.

(** A message of a search page: the keys [process_target] reads.
    [id] is [int(msg['id'])]; [author_id] is [msg.get('author', {}).get('id')]. *)
Record message := mkMessage {
  id : Z;
  hit : bool;
  author_id : option string;
  pinned : bool;
  content : option string
}.

(** [config['settings']] *)
Record settings := mkSettings {
  search_delay : Z;
  delete_delay : Z;
  skip_pinned : bool;
  skip_meowed : bool;
  max_retries : nat;
  meow_mode : meow_mode_t
}.

Inductive target_type := guild | dm | group_dm | unknown_type.

Record target := mkTarget {
  ttype : target_type;
  guild_id : string;
  channel_id : string;
  enabled : bool
}.

(** [self.stats], the counters ([start_time] and [end_time] are wall-clock
    stamps and are left out). *)
Record stats_t := mkStats {
  deleted : Z;
  edited : Z;
  failed : Z;
  skipped : Z;
  rate_limited : Z;
  ghosts : Z
}.

Definition zero_stats : stats_t := mkStats 0 0 0 0 0 0.

(** The progress file written by [save_progress]. *)
Record checkpoint := mkCheckpoint {
  cp_current_target_index : option nat;
  cp_stats : stats_t
}.

(** ** The remote service and the log *)

(** Outbound calls and the other effects that are observed. *)
Inductive event :=
| ESearch (guild channel : string) (offset : Z) (max_id : option Z)
| EDelete (channel : string) (message_id : Z)
| EEdit (channel : string) (message_id : Z) (new_content : string)
| ESleep (seconds : Z)
| ESave (index : nat).

(** A decoded HTTP response: status code and the keys of the JSON body that
    are read ([retry_after], [code], [messages]). *)
Record response := mkResponse {
  status_code : Z;
  retry_after : option Z;
  code : option Z;
  messages : list (list message)
}.

(** What a call through [self.session] gives: a response, or a
    [requests.exceptions.RequestException]. *)
Inductive reply :=
| Response (r : response)
| RequestException.

(** The reply to the [n]-th outbound call of the process, given the request. *)
Definition env_t := nat -> event -> reply.

(** The [Paracord] object together with the outside world it acts on. *)
Record state := mkState {
  stats : stats_t;
  current_target_index : nat;
  should_stop : bool;
  progress_data : option checkpoint;
  progress_file : option checkpoint;
  ncalls : nat;
  log : list event
}.

(** [Paracord.__init__] *)
Definition init (file : option checkpoint) : state :=
  mkState zero_stats 0 false None file 0 [].

(** ** A state monad for the engine *)

Definition M (A : Type) : Type := state -> A * state.

Definition ret {A} (a : A) : M A := fun st => (a, st).

Definition bind {A B} (m : M A) (k : A -> M B) : M B :=
  fun st => let (a, st') := m st in k a st'.

Declare Scope engine_scope.
Delimit Scope engine_scope with engine.
Notation "x <- m ;; k" := (bind m (fun x => k))
  (at level 100, m at next level, right associativity) : engine_scope.
Notation "m ;; k" := (bind m (fun _ => k))
  (at level 100, right associativity) : engine_scope.
Open Scope engine_scope.

Definition emit (e : event) : M unit :=
  fun st => (tt, mkState (stats st) (current_target_index st) (should_stop st)
                         (progress_data st) (progress_file st) (ncalls st)
                         (log st ++ [e])).

(** [time.sleep(seconds)] *)
Definition sleep (seconds : Z) : M unit := emit (ESleep seconds).

(** One call through [self.session]: log the request, take the oracle's reply. *)
Definition http (env : env_t) (req : event) : M reply :=
  fun st => (env (ncalls st) req,
             mkState (stats st) (current_target_index st) (should_stop st)
                     (progress_data st) (progress_file st) (S (ncalls st))
                     (log st ++ [req])).

Definition update_stats (f : stats_t -> stats_t) : M unit :=
  fun st => (tt, mkState (f (stats st)) (current_target_index st) (should_stop st)
                         (progress_data st) (progress_file st) (ncalls st) (log st)).

Definition inc_deleted (s : stats_t) : stats_t :=
  mkStats (deleted s + 1) (edited s) (failed s) (skipped s) (rate_limited s) (ghosts s).
Definition inc_edited (s : stats_t) : stats_t :=
  mkStats (deleted s) (edited s + 1) (failed s) (skipped s) (rate_limited s) (ghosts s).
Definition inc_failed (s : stats_t) : stats_t :=
  mkStats (deleted s) (edited s) (failed s + 1) (skipped s) (rate_limited s) (ghosts s).
Definition inc_skipped (s : stats_t) : stats_t :=
  mkStats (deleted s) (edited s) (failed s) (skipped s + 1) (rate_limited s) (ghosts s).
Definition inc_rate_limited (s : stats_t) : stats_t :=
  mkStats (deleted s) (edited s) (failed s) (skipped s) (rate_limited s + 1) (ghosts s).
Definition inc_ghosts (s : stats_t) : stats_t :=
  mkStats (deleted s) (edited s) (failed s) (skipped s) (rate_limited s) (ghosts s + 1).

Definition get_should_stop : M bool := fun st => (should_stop st, st).

(** [body.get('retry_after', default)] *)
Definition get_retry_after (r : response) (default : Z) : Z :=
  match retry_after r with Some w => w | None => default end.

(** ** The three network operations *)

Inductive search_outcome :=
| Page (groups : list (list message))
| SearchRaised
| SearchOutOfFuel.

(** [search_messages].  A 429 or a 202 makes the function call itself again
    with the same arguments; [fuel] bounds the depth of that recursion. *)
Fixpoint search_messages (fuel : nat) (env : env_t) (guild_id channel_id : string)
    (offset : Z) (max_id : option Z) : M search_outcome :=
  match fuel with
  | O => ret SearchOutOfFuel
  | S fuel' =>
    rep <- http env (ESearch guild_id channel_id offset max_id) ;;
    match rep with
    | RequestException => ret SearchRaised
    | Response r =>
      if status_code r =? 429 then
        let wait_time := get_retry_after r 40 * 2 in
        update_stats inc_rate_limited ;;
        sleep wait_time ;;
        search_messages fuel' env guild_id channel_id offset max_id
      else if status_code r =? 202 then
        sleep (get_retry_after r 5) ;;
        search_messages fuel' env guild_id channel_id offset max_id
      else if (400 <=? status_code r) && (status_code r <? 600) then
        ret SearchRaised
      else ret (Page (messages r))
    end
  end.

(** The string result codes of [delete_message] and [edit_message]. *)
Inductive result_code := OK | GHOST | SKIP | RETRY | FAILED.

(** The branches shared by [delete_message] and [edit_message]: everything
    but the success status. *)
Definition action_result (ok_status : Z) (attempt : nat) (rep : reply) : M result_code :=
  match rep with
  | RequestException => ret (if (attempt <? 3)%nat then RETRY else FAILED)
  | Response r =>
    if status_code r =? ok_status then ret OK
    else if status_code r =? 429 then
      let wait_time := get_retry_after r 3 * 2 in
      update_stats inc_rate_limited ;;
      sleep wait_time ;;
      ret RETRY
    else if status_code r =? 404 then ret GHOST
    else if status_code r =? 400 then
      ret (match code r with
           | Some c => if c =? 50083 then SKIP else FAILED
           | None => FAILED
           end)
    else if status_code r =? 403 then ret SKIP
    else ret FAILED
  end.

Definition delete_message (env : env_t) (channel_id : string) (message_id : Z)
    (attempt : nat) : M result_code :=
  rep <- http env (EDelete channel_id message_id) ;;
  action_result 204 attempt rep.

Definition edit_message (env : env_t) (channel_id : string) (message_id : Z)
    (new_content : string) (attempt : nat) : M result_code :=
  rep <- http env (EEdit channel_id message_id new_content) ;;
  action_result 200 attempt rep.

(** ** The action executor of [process_target] *)

(** [deleted_in_batch], [edited_in_batch], [skipped_in_batch] *)
Record batch_counts := mkBatch {
  deleted_in_batch : Z;
  edited_in_batch : Z;
  skipped_in_batch : Z
}.

Definition batch_deleted (b : batch_counts) : batch_counts :=
  mkBatch (deleted_in_batch b + 1) (edited_in_batch b) (skipped_in_batch b).
Definition batch_edited (b : batch_counts) : batch_counts :=
  mkBatch (deleted_in_batch b) (edited_in_batch b + 1) (skipped_in_batch b).
Definition batch_skipped (b : batch_counts) : batch_counts :=
  mkBatch (deleted_in_batch b) (edited_in_batch b) (skipped_in_batch b + 1).

(** [msg.get('content') == MEOW_TEXT] *)
Definition content_is_meow (msg : message) : bool :=
  match content msg with
  | Some c => String.eqb c MEOW_TEXT
  | None => false
  end.

Section Executor.

Variable env : env_t.
Variable cfg : settings.
Variable channel : string.

(** [for attempt in range(1, max_retries + 1)] around [edit_message];
    [remaining] counts the iterations that are left.  The result is
    [(edit_success, was_ghost, counts)]. *)
Fixpoint edit_attempts (remaining attempt : nat) (message_id : Z) (b : batch_counts)
    : M (bool * bool * batch_counts) :=
  match remaining with
  | O => ret (false, false, b)
  | S remaining' =>
    edit_result <- edit_message env channel message_id MEOW_TEXT attempt ;;
    match edit_result with
    | OK => update_stats inc_edited ;; ret (true, false, batch_edited b)
    | GHOST => update_stats inc_ghosts ;; ret (false, true, batch_deleted b)
    | SKIP | FAILED => ret (false, false, b)
    | RETRY =>
      if (attempt <? max_retries cfg)%nat then
        sleep 1 ;; edit_attempts remaining' (S attempt) message_id b
      else ret (false, false, b)
    end
  end.

(** [for attempt in range(1, max_retries + 1)] around [delete_message].
    The result is [(was_ghost, counts)]. *)
Fixpoint delete_attempts (remaining attempt : nat) (message_id : Z) (was_ghost : bool)
    (b : batch_counts) : M (bool * batch_counts) :=
  match remaining with
  | O => ret (was_ghost, b)
  | S remaining' =>
    result <- delete_message env channel message_id attempt ;;
    match result with
    | OK => update_stats inc_deleted ;; ret (was_ghost, batch_deleted b)
    | GHOST => update_stats inc_ghosts ;; ret (true, batch_deleted b)
    | SKIP => update_stats inc_skipped ;; ret (was_ghost, batch_skipped b)
    | FAILED => update_stats inc_failed ;; ret (was_ghost, batch_skipped b)
    | RETRY =>
      if (attempt <? max_retries cfg)%nat then
        sleep 1 ;; delete_attempts remaining' (S attempt) message_id was_ghost b
      else update_stats inc_failed ;; ret (was_ghost, batch_skipped b)
    end
  end.

(** The part of the loop body after the meow block: the [edit_only] exit,
    else the deletion with its retries and the delay. *)
Definition delete_stage (msg : message) (was_ghost : bool) (b : batch_counts)
    : M batch_counts :=
  match meow_mode cfg with
  | edit_only =>
    (if negb was_ghost then sleep (delete_delay cfg) else ret tt) ;;
    ret b
  | _ =>
    r <- delete_attempts (max_retries cfg) 1 (id msg) was_ghost b ;;
    let (was_ghost', b') := r in
    (if negb was_ghost' then sleep (delete_delay cfg) else ret tt) ;;
    ret b'
  end.

(** The body of [for i, msg in enumerate(messages)], after the stop check
    and the update of [oldest_processed_id]. *)
Definition process_message (msg : message) (b : batch_counts) : M batch_counts :=
  match meow_mode cfg with
  | off => delete_stage msg false b
  | _ =>
    if negb (content_is_meow msg) then
      r <- edit_attempts (max_retries cfg) 1 (id msg) b ;;
      let '(edit_success, was_ghost, b') := r in
      if was_ghost then ret b'
      else
        (if edit_success then sleep (delete_delay cfg) else ret tt) ;;
        delete_stage msg was_ghost b'
    else delete_stage msg false b
  end.

(** [if oldest_processed_id is None or msg_id_int < oldest_processed_id] *)
Definition track_oldest (oldest_processed_id : option Z) (msg_id_int : Z) : option Z :=
  match oldest_processed_id with
  | None => Some msg_id_int
  | Some o => if msg_id_int <? o then Some msg_id_int else Some o
  end.

(** [for i, msg in enumerate(messages)] *)
Fixpoint process_messages (msgs : list message) (oldest_processed_id : option Z)
    (b : batch_counts) : M (option Z * batch_counts) :=
  match msgs with
  | [] => ret (oldest_processed_id, b)
  | msg :: rest =>
    stop <- get_should_stop ;;
    if stop then ret (oldest_processed_id, b)
    else
      let oldest := track_oldest oldest_processed_id (id msg) in
      b' <- process_message msg b ;;
      process_messages rest oldest b'
  end.

End Executor.

(** ** The pagination loop of [process_target] *)

(** The cursor variables of [process_target]. *)
Record cursor_state := mkCursor {
  max_id_cursor : option Z;
  offset : Z;
  messages_found : Z;
  empty_pages : nat
}.

Definition MAX_EMPTY_PAGES : nat := 3.

(** [msg.get('hit') and msg.get('author', {}).get('id') == self.author_id] *)
Definition is_own_hit (author : string) (msg : message) : bool :=
  hit msg &&
  match author_id msg with
  | Some a => String.eqb a author
  | None => false
  end.

(** [all_hit_messages]: the hits of the page written by the current user. *)
Definition all_hit_messages (author : string) (message_groups : list (list message))
    : list message :=
  filter (is_own_hit author) (List.concat message_groups).

(** The two [continue]s that keep a hit out of [messages]. *)
Definition is_filtered (cfg : settings) (msg : message) : bool :=
  (skip_pinned cfg && pinned msg) || (skip_meowed cfg && content_is_meow msg).

(** [messages]: the hits that are handed to the executor. *)
Definition eligible (cfg : settings) (author : string)
    (message_groups : list (list message)) : list message :=
  filter (fun msg => negb (is_filtered cfg msg)) (all_hit_messages author message_groups).

(** The scan for [oldest_id] over every hit of the page, when none is ours. *)
Definition oldest_hit_id (message_groups : list (list message)) : option Z :=
  fold_left
    (fun oldest_id msg =>
       if hit msg then
         match oldest_id with
         | None => Some (id msg)
         | Some o => if id msg <? o then Some (id msg) else oldest_id
         end
       else oldest_id)
    (List.concat message_groups) None.

(** [min(int(msg['id']) for msg in msgs)] on a list that is not empty. *)
Definition min_id (first : message) (others : list message) : Z :=
  fold_left Z.min (map id others) (id first).

Inductive loop_step :=
| Break
| Continue (cs : cursor_state)
| StepOutOfFuel.

Section Target.

Variable env : env_t.
Variable cfg : settings.
Variable author : string.
Variable dry_run : bool.
Variable guild channel : string.

(** What the loop body does with the page of a search that returned. *)
Definition handle_page (cs : cursor_state) (message_groups : list (list message))
    : M loop_step :=
  match message_groups with
  | [] =>
    let empty := S (empty_pages cs) in
    if (MAX_EMPTY_PAGES <=? empty)%nat then ret Break
    else
      sleep (search_delay cfg) ;;
      ret (Continue (mkCursor (max_id_cursor cs) (offset cs) (messages_found cs) empty))
  | _ =>
    match eligible cfg author message_groups, all_hit_messages author message_groups with
    | [], [] =>
      let cs' :=
        match oldest_hit_id message_groups with
        | Some oldest_id =>
          if oldest_id =? 0
          then mkCursor (max_id_cursor cs)
                        (offset cs + Z.of_nat (List.length message_groups))
                        (messages_found cs) 0
          else mkCursor (Some (oldest_id - 1)) 0 (messages_found cs) 0
        | None => mkCursor (max_id_cursor cs)
                           (offset cs + Z.of_nat (List.length message_groups))
                           (messages_found cs) 0
        end in
      sleep (search_delay cfg) ;;
      ret (Continue cs')
    | [], first :: others =>
      let oldest_id := min_id first others in
      sleep (search_delay cfg) ;;
      ret (Continue (mkCursor (Some (oldest_id - 1)) 0 (messages_found cs) 0))
    | first :: others, _ =>
      let found := messages_found cs + Z.of_nat (List.length (first :: others)) in
      if dry_run then
        let oldest_id := min_id first others in
        sleep (search_delay cfg) ;;
        ret (Continue (mkCursor (Some (oldest_id - 1)) 0 found 0))
      else
        r <- process_messages env cfg channel (first :: others) None (mkBatch 0 0 0) ;;
        let cs' :=
          match fst r with
          | Some oldest_processed_id =>
            mkCursor (Some (oldest_processed_id - 1)) 0 found 0
          | None => mkCursor (max_id_cursor cs) (offset cs) found 0
          end in
        sleep (search_delay cfg) ;;
        ret (Continue cs')
    end
  end.

(** One iteration of [while not self.should_stop], after the test. *)
Definition loop_body (fuel : nat) (cs : cursor_state) : M loop_step :=
  result <- search_messages fuel env guild channel (offset cs) (max_id_cursor cs) ;;
  match result with
  | SearchOutOfFuel => ret StepOutOfFuel
  | SearchRaised => ret Break
  | Page message_groups => handle_page cs message_groups
  end.

Inductive run_status := Finished | OutOfFuel.

(** [while not self.should_stop]; [fuel] bounds the number of iterations. *)
Fixpoint process_target_loop (fuel : nat) (cs : cursor_state) : M run_status :=
  match fuel with
  | O => ret OutOfFuel
  | S fuel' =>
    stop <- get_should_stop ;;
    if stop then ret Finished
    else
      step <- loop_body fuel' cs ;;
      match step with
      | Break => ret Finished
      | Continue cs' => process_target_loop fuel' cs'
      | StepOutOfFuel => ret OutOfFuel
      end
  end.

End Target.

Definition initial_cursor : cursor_state := mkCursor None 0 0 0.

(** [process_target] *)
Definition process_target (env : env_t) (cfg : settings) (author : string)
    (fuel : nat) (t : target) (dry_run : bool) : M run_status :=
  let guild :=
    match ttype t with
    | dm | group_dm => "@me"
    | _ => guild_id t
    end in
  process_target_loop env cfg author dry_run guild (channel_id t) fuel initial_cursor.

(** ** The batch runner and the progress file *)

Record config := mkConfig {
  targets : list target;
  cfg_settings : settings
}.

Definition set_current_target_index (i : nat) : M unit :=
  fun st => (tt, mkState (stats st) i (should_stop st) (progress_data st)
                         (progress_file st) (ncalls st) (log st)).

(** [save_progress]: the file is replaced by the current index and counters. *)
Definition save_progress : M unit :=
  fun st => (tt, mkState (stats st) (current_target_index st) (should_stop st)
                         (progress_data st)
                         (Some (mkCheckpoint (Some (current_target_index st)) (stats st)))
                         (ncalls st)
                         (log st ++ [ESave (current_target_index st)])).

(** [signal_handler]: raise the stop flag, save the progress and leave the
    process at once; the result is the status given to [sys.exit].  It runs
    when the signal arrives, wherever the main flow is. *)
Definition signal_handler : M Z :=
  fun st =>
    let raised := mkState (stats st) (current_target_index st) true (progress_data st)
                          (progress_file st) (ncalls st) (log st) in
    (0, snd (save_progress raised)).

(** [if resume and Path(PROGRESS_FILE).exists()]: the file is read into
    [self.progress_data], and [current_target_index] is taken from it. *)
Definition load_progress (resume : bool) : M unit :=
  fun st =>
    match resume, progress_file st with
    | true, Some saved =>
      (tt, mkState (stats st)
                   (match cp_current_target_index saved with Some k => k | None => O end)
                   (should_stop st) (Some saved) (progress_file st) (ncalls st) (log st))
    | _, _ => (tt, st)
    end.

Section Batch.

Variable env : env_t.
Variable cfg : settings.
Variable author : string.
Variable dry_run : bool.
Variable fuel : nat.

(** [for i in range(self.current_target_index, len(targets))], on the
    targets from index [i] on. *)
Fixpoint run_targets (i : nat) (remaining : list target) : M run_status :=
  match remaining with
  | [] => ret Finished
  | t :: rest =>
    stop <- get_should_stop ;;
    if stop then ret Finished
    else
      r <- process_target env cfg author fuel t dry_run ;;
      match r with
      | OutOfFuel => ret OutOfFuel
      | Finished =>
        set_current_target_index (S i) ;;
        save_progress ;;
        run_targets (S i) rest
      end
  end.

End Batch.

Inductive batch_status :=
| Summary            (* the loop over the targets ended: [print_summary] *)
| NoEnabledTargets   (* [sys.exit(1)] *)
| BatchOutOfFuel.

(** The command-line overrides of [run_batch]: [--meow] and [--skip-meowed]. *)
Definition apply_overrides (s : settings) (meow : option meow_mode_t)
    (skip : option bool) : settings :=
  mkSettings (search_delay s) (delete_delay s) (skip_pinned s)
             (match skip with Some b => b | None => skip_meowed s end)
             (max_retries s)
             (match meow with Some m => m | None => meow_mode s end).

(** [run_batch], for a token that validated to the user [author] and a
    confirmation that was given or skipped. *)
Definition run_batch (env : env_t) (fuel : nat) (c : config) (author : string)
    (dry_run resume : bool) (meow : option meow_mode_t) (skip : option bool)
    : M batch_status :=
  let s := apply_overrides (cfg_settings c) meow skip in
  load_progress resume ;;
  let enabled_targets := filter enabled (targets c) in
  match enabled_targets with
  | [] => ret NoEnabledTargets
  | _ =>
    fun st =>
      let k := current_target_index st in
      let (r, st') := run_targets env s author dry_run fuel k (skipn k enabled_targets) st in
      (match r with Finished => Summary | OutOfFuel => BatchOutOfFuel end, st')
  end.

(** * Vocabulary of the statements *)

(** ** Classes of events and relations on counters *)

(** The kinds of outbound calls. *)
Definition is_delete_call (e : event) : bool :=
  match e with EDelete _ _ => true | _ => false end.

Definition is_edit_call (e : event) : bool :=
  match e with EEdit _ _ _ => true | _ => false end.

Definition is_search_call (e : event) : bool :=
  match e with ESearch _ _ _ _ => true | _ => false end.

Definition is_action_call (e : event) : bool :=
  is_delete_call e || is_edit_call e.

(** [acts_on ok e]: if [e] is an edit or a delete call, the id of the
    message it is sent for satisfies [ok]. *)
Definition acts_on (ok : Z -> Prop) (e : event) : Prop :=
  match e with
  | EDelete _ i => ok i
  | EEdit _ i _ => ok i
  | _ => True
  end.

(** The counters that count messages: all but [rate_limited]. *)
Definition same_message_counters (s s' : stats_t) : Prop :=
  deleted s' = deleted s /\ edited s' = edited s /\ failed s' = failed s /\
  skipped s' = skipped s /\ ghosts s' = ghosts s.

(** No constraint on the counters. *)
Definition any_counters (s s' : stats_t) : Prop := True.

(** Only [rate_limited] moved, upwards. *)
Definition only_rate_limited (s s' : stats_t) : Prop :=
  same_message_counters s s' /\ rate_limited s <= rate_limited s'.

(** Exactly one of [deleted], [ghosts], [skipped] and [failed] went up, by
    one; [edited] kept its value and [rate_limited] did not go down. *)
Definition counted_once (s s' : stats_t) : Prop :=
  edited s' = edited s /\ rate_limited s <= rate_limited s' /\
  deleted s <= deleted s' /\ ghosts s <= ghosts s' /\
  skipped s <= skipped s' /\ failed s <= failed s' /\
  (deleted s' - deleted s) + (ghosts s' - ghosts s) +
  (skipped s' - skipped s) + (failed s' - failed s) = 1.

(** ** How a computation moves the state *)

(** [evolves P R st st']: from [st] to [st'] the log was extended by events
    that all satisfy [P], the counters moved along [R], and the stop flag
    was not written. *)
Definition evolves (P : event -> Prop) (R : stats_t -> stats_t -> Prop)
    (st st' : state) : Prop :=
  (exists evs, log st' = log st ++ evs /\ Forall P evs) /\
  R (stats st) (stats st') /\
  should_stop st' = should_stop st.

(** A computation all of whose runs stay within a relation on states. *)
Definition preserves {A} (I : state -> state -> Prop) (m : M A) : Prop :=
  forall st, I st (snd (m st)).

(** The state after one outbound call. *)
Definition called (req : event) (st : state) : state :=
  mkState (stats st) (current_target_index st) (should_stop st) (progress_data st)
          (progress_file st) (S (ncalls st)) (log st ++ [req]).

(** The state after a call was answered by a backoff signal and the engine
    slept [wait]: the request and the sleep are logged, in this order, one
    more call was made, and when [counted] the rate-limit counter is higher
    by one, every other counter being as it was. *)
Definition after_backoff (req : event) (wait : Z) (counted : bool) (st : state) : state :=
  mkState (if counted
           then mkStats (deleted (stats st)) (edited (stats st)) (failed (stats st))
                        (skipped (stats st)) (rate_limited (stats st) + 1)
                        (ghosts (stats st))
           else stats st)
          (current_target_index st) (should_stop st) (progress_data st)
          (progress_file st) (S (ncalls st)) (log st ++ [req; ESleep wait]).

(** The log without the writes of the progress file. *)
Definition outbound (l : list event) : list event :=
  filter (fun e => match e with ESave _ => false | _ => true end) l.

(** Two states that the engine cannot tell apart while it processes
    targets: same counters, same position in the conversation with the
    server, same stop flag, and the same calls and sleeps so far. *)
Definition same_run (a b : state) : Prop :=
  stats a = stats b /\ ncalls a = ncalls b /\ should_stop a = should_stop b /\
  outbound (log a) = outbound (log b).

(** Two computations that give the same result and keep the states
    indistinguishable when started from indistinguishable states. *)
Definition respects {A} (m1 m2 : M A) : Prop :=
  forall a b, same_run a b ->
    fst (m1 a) = fst (m2 b) /\ same_run (snd (m1 a)) (snd (m2 b)).

(** The index a resumed run starts from. *)
Definition resume_index (file : option checkpoint) : nat :=
  match file with
  | Some saved =>
    match cp_current_target_index saved with Some k => k | None => O end
  | None => O
  end.

(** ** The cursors of a walk *)

(** [cursor_ge a b]: the cursor [b] is not above the cursor [a]; [None]
    (start from the newest message) is above every id. *)
Definition cursor_ge (a b : option Z) : Prop :=
  match a, b with
  | None, _ => True
  | Some p, Some q => q <= p
  | Some _, None => False
  end.

(** The [max_id] arguments of the search calls of a log, in order. *)
Fixpoint search_cursors (evs : list event) : list (option Z) :=
  match evs with
  | [] => []
  | ESearch _ _ _ m :: rest => m :: search_cursors rest
  | _ :: rest => search_cursors rest
  end.

(** Starting below [bound], each cursor is not above the one before it. *)
Fixpoint descending (bound : option Z) (cursors : list (option Z)) : Prop :=
  match cursors with
  | [] => True
  | m :: rest => cursor_ge bound m /\ descending m rest
  end.

(** [below i m]: the cursor [m] is set, and is under the id [i]. *)
Definition below (i : Z) (m : option Z) : Prop :=
  exists c, m = Some c /\ c < i.

(** Every search that follows an edit or a delete call for the id [i] has
    its cursor under [i]: a server that honours [max_id] does not return
    that message again. *)
Fixpoint not_reconsidered (evs : list event) : Prop :=
  match evs with
  | [] => True
  | e :: rest =>
    acts_on (fun i => Forall (below i) (search_cursors rest)) e /\ not_reconsidered rest
  end.

(** The batch a cursor advance is computed from: the eligible messages when
    there are some, else the hits of the current user, else every hit. *)
Definition advancing_batch (cfg : settings) (author : string)
    (groups : list (list message)) : list message :=
  match eligible cfg author groups, all_hit_messages author groups with
  | [], [] => filter hit (List.concat groups)
  | [], hits => hits
  | batch, _ => batch
  end.

(** [advanced cfg author groups cs' evs]: the turn moved the cursor to
    [c], one below the least id of the batch of the page, with the offset
    back at 0, and all its edit and delete calls were for ids above [c]. *)
Definition advanced (cfg : settings) (author : string) (groups : list (list message))
    (cs' : cursor_state) (evs : list event) : Prop :=
  exists c,
    max_id_cursor cs' = Some c /\ offset cs' = 0 /\
    In (c + 1) (map id (advancing_batch cfg author groups)) /\
    (forall m, In m (advancing_batch cfg author groups) -> c < id m) /\
    Forall (acts_on (fun i => c < i)) evs.

(** [stalled groups cs cs']: the turn left the cursor where it was, either
    because the page was empty (the empty-page count went up, below the
    threshold) or because the page held no hit to move the cursor by. *)
Definition stalled (groups : list (list message)) (cs cs' : cursor_state) : Prop :=
  (groups = [] /\ empty_pages cs' = S (empty_pages cs) /\
   (S (empty_pages cs) < MAX_EMPTY_PAGES)%nat /\ offset cs' = offset cs) \/
  (groups <> [] /\ empty_pages cs' = 0%nat /\
   (oldest_hit_id groups = None \/ oldest_hit_id groups = Some 0)).

(** The events of a search: the request, again and again, and sleeps. *)
Definition search_phase (g c : string) (o : Z) (m : option Z) (e : event) : Prop :=
  e = ESearch g c o m \/ exists s, e = ESleep s.

(** The events of the page phase of a turn: no search, and edit or delete
    calls only outside a dry run and only for eligible messages. *)
Definition page_phase (cfg : settings) (author : string) (dry_run : bool)
    (groups : list (list message)) (e : event) : Prop :=
  is_search_call e = false /\
  acts_on (fun i => dry_run = false /\
                    exists m, In m (eligible cfg author groups) /\ id m = i) e.

(** ** Assumptions on the server *)

(** The server returns only hits that are older than the [max_id] sent. *)
Definition honours_bound (env : env_t) : Prop :=
  forall n g ch o c r m,
    env n (ESearch g ch o (Some c)) = Response r ->
    In m (List.concat (messages r)) -> hit m = true -> id m < c.

(** A reply that makes a search wait and try again: a rate limit (429) or
    an index that is not ready (202). *)
Definition backoff_signal (rep : reply) : Prop :=
  exists r, rep = Response r /\ (status_code r = 429 \/ status_code r = 202).

(** Whenever a search is sent, and sent again after each backoff signal, at
    most [b] signals go by before the server answers it otherwise. *)
Definition answers_within (b : nat) (env : env_t) : Prop :=
  forall n g c o m,
    exists j, (j <= b)%nat /\
      (forall i, (i < j)%nat -> backoff_signal (env (n + i)%nat (ESearch g c o m))) /\
      ~ backoff_signal (env (n + j)%nat (ESearch g c o m)).

(** Every page that has groups holds a hit, and hits have positive ids. *)
Definition pages_hold_hits (env : env_t) : Prop :=
  forall n g c o m r,
    env n (ESearch g c o m) = Response r ->
    messages r <> [] ->
    (exists x, In x (List.concat (messages r)) /\ hit x = true) /\
    (forall x, In x (List.concat (messages r)) -> hit x = true -> 0 < id x).

(** ** Concrete servers and inputs *)

(** The settings [main] starts from, with a mode. *)
Definition default_settings (mode : meow_mode_t) : settings :=
  mkSettings 10 1 true false 3 mode.

(** A hit written by the current user, ["me"]. *)
Definition own_message (i : Z) (text : string) : message :=
  mkMessage i true (Some "me") false (Some text).

(** A response with a status and an empty body. *)
Definition plain (status : Z) : reply :=
  Response (mkResponse status None None []).

(** One page of three eligible messages, newest first. *)
Definition three_messages : list message :=
  [own_message 300 "a"; own_message 200 "b"; own_message 100 "c"].

(** A channel of a guild, enabled. *)
Definition first_target : target := mkTarget guild "g" "c" true.

(** Five enabled targets with the default settings. *)
Definition five_targets : config :=
  let t := mkTarget guild "g" "c" true in
  mkConfig [t; t; t; t; t] (default_settings off).

(** A server with nothing to return: every search gives an empty page. *)
Definition nothing_left : env_t := fun _ _ => plain 200.

(** A server that refuses every edit (403) and accepts every delete. *)
Definition forbidden_edits : env_t :=
  fun _ req =>
    match req with
    | EEdit _ _ _ => plain 403
    | EDelete _ _ => plain 204
    | _ => plain 200
    end.

(** A server that answers the first call with a rate limit of 5 seconds. *)
Definition rate_limited_once : env_t :=
  fun n _ =>
    match n with
    | O => Response (mkResponse 429 (Some 5) None [])
    | _ => plain 204
    end.

(** A server whose index is not ready at the first call. *)
Definition indexing_once : env_t :=
  fun n _ =>
    match n with
    | O => Response (mkResponse 202 (Some 5) None [])
    | _ => plain 200
    end.

(** A server that answers the first call with a rate limit and then
    behaves as [env]. *)
Definition limited_first (env : env_t) : env_t :=
  fun n req =>
    match n with
    | O => Response (mkResponse 429 (Some 1) None [])
    | S _ => env n req
    end.

(** A server that holds [store] and honours [max_id]: a search returns the
    stored messages below the cursor, one group each; deletes and edits
    succeed. *)
Definition archive (store : list message) : env_t :=
  fun _ req =>
    match req with
    | ESearch _ _ _ max_id =>
      Response (mkResponse 200 None None
        (map (fun m => [m])
             (filter (fun m => match max_id with Some c => id m <? c | None => true end)
                     store)))
    | EDelete _ _ => plain 204
    | _ => plain 200
    end.

(** * The start of a run: [load_token], [validate_token], [main]

    Printing and logging are left out.  Text is modelled over the code
    points below 256, one character of a [string] each. *)

(** ** Text operations *)

(** [c.isspace()] *)
Definition isspace (c : Ascii.ascii) : bool :=
  let n := Ascii.nat_of_ascii c in
  (((9 <=? n) && (n <=? 13)) || ((28 <=? n) && (n <=? 32)) ||
   (n =? 133) || (n =? 160))%nat.

(** The characters of the argument of the second [strip] of [load_token]:
    the double quote (34) and the single quote (39). *)
Definition is_quote (c : Ascii.ascii) : bool :=
  let n := Ascii.nat_of_ascii c in
  ((n =? 34) || (n =? 39))%nat.

(** [c.lower()] *)
Definition lower_char (c : Ascii.ascii) : Ascii.ascii :=
  let n := Ascii.nat_of_ascii c in
  if (((65 <=? n) && (n <=? 90)) ||
      ((192 <=? n) && (n <=? 222) && negb (n =? 215)))%nat
  then Ascii.ascii_of_nat (n + 32)
  else c.

(** [s.lower()] *)
Fixpoint lower (s : string) : string :=
  match s with
  | EmptyString => EmptyString
  | String c s' => String (lower_char c) (lower s')
  end.

(** [s.lstrip()], for the characters that satisfy [p]. *)
Fixpoint lstrip (p : Ascii.ascii -> bool) (s : string) : string :=
  match s with
  | EmptyString => EmptyString
  | String c s' => if p c then lstrip p s' else s
  end.

(** [s.rstrip()], for the characters that satisfy [p]. *)
Fixpoint rstrip (p : Ascii.ascii -> bool) (s : string) : string :=
  match s with
  | EmptyString => EmptyString
  | String c s' =>
    match rstrip p s' with
    | EmptyString => if p c then EmptyString else String c EmptyString
    | r => String c r
    end
  end.

Definition strip_with (p : Ascii.ascii -> bool) (s : string) : string :=
  rstrip p (lstrip p s).

(** [s.strip()] *)
Definition strip (s : string) : string := strip_with isspace s.

(** [s.split(sep, 1)[1]]: what follows the first [sep]; [None] (an
    IndexError) when [s] holds no [sep]. *)
Fixpoint after_first (sep : Ascii.ascii) (s : string) : option string :=
  match s with
  | EmptyString => None
  | String c s' => if Ascii.eqb c sep then Some s' else after_first sep s'
  end.

(** ** [load_token] *)

(** [for line in f] over the lines of [.env]: the first line that, once
    stripped, starts with [DISCORD_TOKEN=] gives the token.  [None] when the
    loop ends without a [return]. *)
Fixpoint token_of_lines (lines : list string) : option string :=
  match lines with
  | [] => None
  | line :: rest =>
    let line := strip line in
    if String.prefix "DISCORD_TOKEN=" line then
      match after_first (Ascii.ascii_of_nat 61) line with
      | Some v => Some (strip_with is_quote (strip v))
      | None => None
      end
    else token_of_lines rest
  end.

(** [load_token(token_arg)].  [environ] is the value of [DISCORD_TOKEN] in
    [os.environ] if it is set, [dotenv] the lines of [.env] if the file
    exists.  The result is [None] when the function ends in [sys.exit(1)]. *)
Definition load_token (token_arg : option string) (environ : option string)
    (dotenv : option (list string)) : option string :=
  let from_environment :=
    match environ with
    | Some v => Some v
    | None =>
      match dotenv with
      | Some lines => token_of_lines lines
      | None => None
      end
    end in
  match token_arg with
  | Some t => if String.eqb t "" then from_environment else Some t
  | None => from_environment
  end.

(** ** [validate_token] *)

(** The answer to [GET /users/@me]: a response with its status code and the
    [id] of the user object in its body, or a [RequestException]. *)
Inductive auth_reply :=
| AuthResponse (status : Z) (user_id : string)
| AuthRaised.

(** [validate_token]: [Some user_id] for [(True, user_id)], [None] for
    [(False, None)]. *)
Definition validate_token (rep : auth_reply) : option string :=
  match rep with
  | AuthResponse status user_id => if status =? 200 then Some user_id else None
  | AuthRaised => None
  end.

(** ** [main] and the start of [run_batch] *)

(** The parsed command line. *)
Record args := mkArgs {
  arg_token : option string;
  arg_config : option string;
  arg_discover : bool;
  arg_dry_run : bool;
  arg_resume : bool;
  arg_verify_auth : bool;
  arg_yes : bool;
  arg_meow : option meow_mode_t;
  arg_skip_meowed : option bool
}.

(** What the process finds outside: the environment variable, the [.env]
    file, the answer to the [n]-th [GET /users/@me] for the [Authorization]
    header that is sent, the configuration read from a path ([None] when
    [open] or [json.load] raises), the line typed at the prompt, the progress
    file, and the server of the engine. *)
Record world := mkWorld {
  environ : option string;
  dotenv : option (list string);
  users_me : nat -> string -> auth_reply;
  config_file : string -> option config;
  answer : string;
  saved_progress : option checkpoint;
  server : env_t
}.

(** How a run ends, or where control goes. *)
Inductive outcome :=
| Exit (status : Z)          (* [sys.exit(status)] before the loop over the targets *)
| Uncaught                   (* an exception that nothing catches *)
| Discovery (token author : string)   (* [discover_servers] is called *)
| Help                       (* [parser.print_help()] *)
| Batch (token author : string) (r : batch_status) (st : state).
                             (* the loop over the targets ran, the session
                                being authorised by [token] *)

(** [run_batch] from its first line: the configuration, the token, its
    validation, the enabled targets and the confirmation, then the loop. *)
Definition start_batch (w : world) (fuel : nat) (path : string)
    (dry_run resume skip_confirm : bool) (meow : option meow_mode_t)
    (skip : option bool) : outcome :=
  match config_file w path with
  | None => Uncaught
  | Some c =>
    match load_token None (environ w) (dotenv w) with
    | None => Exit 1
    | Some token =>
      match validate_token (users_me w 1 token) with
      | None => Exit 1
      | Some author =>
        match filter enabled (targets c) with
        | [] => Exit 1
        | _ =>
          if negb dry_run && negb skip_confirm &&
             negb (String.eqb (strip (lower (answer w))) "yes")
          then Exit 0
          else
            let (r, st) := run_batch (server w) fuel c author dry_run resume meow skip
                                     (init (saved_progress w)) in
            Batch token author r st
        end
      end
    end
  end.

(** [main], after the command line is parsed. *)
Definition main (w : world) (fuel : nat) (a : args) : outcome :=
  match load_token (arg_token a) (environ w) (dotenv w) with
  | None => Exit 1
  | Some token =>
    match validate_token (users_me w 0 token) with
    | None => Exit 1
    | Some author =>
      if arg_verify_auth a then Exit 0
      else if arg_discover a then Discovery token author
      else
        match arg_config a with
        | Some path =>
          if String.eqb path "" then Help
          else start_batch w fuel path (arg_dry_run a) (arg_resume a) (arg_yes a)
                           (arg_meow a) (arg_skip_meowed a)
        | None => Help
        end
    end
  end.

(** * Vocabulary of the further properties *)

(** ** Progress and counters *)

(** The part of the state that only the batch runner and the interrupt
    handler write: the index of the target in progress, the progress file,
    the data loaded from it, and the stop flag. *)
Definition same_progress (a b : state) : Prop :=
  current_target_index b = current_target_index a /\
  progress_file b = progress_file a /\
  progress_data b = progress_data a /\
  should_stop b = should_stop a.

(** No counter went down. *)
Definition counters_grow (s s' : stats_t) : Prop :=
  deleted s <= deleted s' /\ edited s <= edited s' /\ failed s <= failed s' /\
  skipped s <= skipped s' /\ rate_limited s <= rate_limited s' /\ ghosts s <= ghosts s'.

(** The guild that [process_target] searches in: [@me] for direct messages. *)
Definition guild_of (t : target) : string :=
  match ttype t with
  | dm | group_dm => "@me"
  | _ => guild_id t
  end.

(** [sent_to ts e]: if [e] is a call, it is addressed to the channel of one
    of the targets [ts] (and, for a search, to its guild). *)
Definition sent_to (ts : list target) (e : event) : Prop :=
  match e with
  | ESearch g c _ _ => exists t, In t ts /\ c = channel_id t /\ g = guild_of t
  | EDelete c _ => exists t, In t ts /\ c = channel_id t
  | EEdit c _ _ => exists t, In t ts /\ c = channel_id t
  | _ => True
  end.

(** The number of events of a log that satisfy [f]. *)
Definition count_events (f : event -> bool) (evs : list event) : nat :=
  List.length (filter f evs).

(** ** The executor *)

(** [deleted + ghosts + skipped + failed]: the counters that tell how the
    handling of a message ended. *)
Definition terminal_sum (s : stats_t) : Z :=
  deleted s + ghosts s + skipped s + failed s.

(** An event that is a [time.sleep]. *)
Definition is_sleep (e : event) : Prop := exists s, e = ESleep s.

(** A hit written by [author] that passes the filters of the settings. *)
Definition own_unfiltered (cfg : settings) (author : string) (m : message) : Prop :=
  hit m = true /\ author_id m = Some author /\
  (skip_pinned cfg = true -> pinned m = false) /\
  (skip_meowed cfg = true -> content m <> Some MEOW_TEXT).

(** ** Replaying a log against the server *)

(** An outbound call: a search, an edit or a delete. *)
Definition is_call (e : event) : bool := is_search_call e || is_action_call e.

(** The page that the reply to a search hands to the loop: the messages of
    the body, unless the reply is a backoff signal (429, 202), an error
    status (400 to 599) or an exception, in which cases no page arrives. *)
Definition page_of (rep : reply) : list message :=
  match rep with
  | RequestException => []
  | Response r =>
    if (status_code r =? 429) || (status_code r =? 202) ||
       ((400 <=? status_code r) && (status_code r <? 600))
    then []
    else List.concat (messages r)
  end.

(** The number of the next call after the event [e], [n] being the number
    of the call that [e] is if it is one. *)
Definition step_call (n : nat) (e : event) : nat := if is_call e then S n else n.

(** The page in hand after the event [e]: a search, sent as call number
    [n], replaces it by the page of the reply it got. *)
Definition step_page (env : env_t) (n : nat) (page : list message) (e : event)
    : list message :=
  match e with
  | ESearch _ _ _ _ => page_of (env n e)
  | _ => page
  end.

(** [replayed env ok n page evs]: the events [evs] are followed one by one,
    from call number [n] and with [page] in hand, the replies being those of
    [env] at the numbers the calls have; each event satisfies [ok] for the
    page that is in hand when it is sent. *)
Fixpoint replayed (env : env_t) (ok : list message -> event -> Prop) (n : nat)
    (page : list message) (evs : list event) : Prop :=
  match evs with
  | [] => True
  | e :: rest =>
    ok page e /\ replayed env ok (step_call n e) (step_page env n page e) rest
  end.

(** The call number and the page in hand at the end of [evs]. *)
Fixpoint replay_end (env : env_t) (n : nat) (page : list message) (evs : list event)
    : nat * list message :=
  match evs with
  | [] => (n, page)
  | e :: rest => replay_end env (step_call n e) (step_page env n page e) rest
  end.

(** From [st] with [page] in hand to [st'] with [page'] in hand, by events
    that replay. *)
Definition sees (env : env_t) (ok : list message -> event -> Prop)
    (page : list message) (st : state) (page' : list message) (st' : state) : Prop :=
  exists evs,
    log st' = log st ++ evs /\
    replayed env ok (ncalls st) page evs /\
    replay_end env (ncalls st) page evs = (ncalls st', page').

(** The call counter follows the calls of the log. *)
Definition calls_counted (a b : state) : Prop :=
  exists evs, log b = log a ++ evs /\ ncalls b = (ncalls a + count_events is_call evs)%nat.

(** What a call of the walk over a target may be, with [page] in hand: a
    search of the target; an edit or a delete in the channel of the target,
    for a message of the page that is a hit of [author] and passes the
    filters. *)
Definition touches_own (cfg : settings) (author guild channel : string)
    (page : list message) (e : event) : Prop :=
  match e with
  | ESearch g c _ _ => g = guild /\ c = channel
  | EDelete c i =>
    c = channel /\ exists m, In m page /\ id m = i /\ own_unfiltered cfg author m
  | EEdit c i _ =>
    c = channel /\ exists m, In m page /\ id m = i /\ own_unfiltered cfg author m
  | _ => True
  end.

(** What an edit call may be, with [page] in hand: it writes the marker
    text, the mode is a meow mode, and it is sent for a message of the page
    whose content there is not the marker text. *)
Definition marks_unmarked (cfg : settings) (page : list message) (e : event) : Prop :=
  match e with
  | EEdit _ i t =>
    t = MEOW_TEXT /\ meow_mode cfg <> off /\
    exists m, In m page /\ id m = i /\ content m <> Some MEOW_TEXT
  | _ => True
  end.

(** The calls of a batch in which every delete succeeds at once: for each
    message, in order, the delete call and the delay. *)
Definition deletes_in_order (cfg : settings) (ch : string) (msgs : list message)
    : list event :=
  flat_map (fun m => [EDelete ch (id m); ESleep (delete_delay cfg)]) msgs.

(** A server that cannot be reached: every call raises. *)
Definition unreachable : env_t := fun _ _ => RequestException.

(** ** The start of a run *)

(** Every character of [s] satisfies [p]. *)
Fixpoint all_chars (p : Ascii.ascii -> bool) (s : string) : bool :=
  match s with
  | EmptyString => true
  | String c s' => p c && all_chars p s'
  end.

(** A world in which the token is in the environment only, every token is
    valid for the user ["me"], and every path holds the five targets. *)
Definition token_in_environment : world :=
  mkWorld (Some "tok") None (fun _ _ => AuthResponse 200 "me")
          (fun _ => Some five_targets) "yes" None nothing_left.

(** The same world without the environment variable. *)
Definition no_token_outside : world :=
  mkWorld None None (fun _ _ => AuthResponse 200 "me")
          (fun _ => Some five_targets) "yes" None nothing_left.

(** * Properties *)

(** ** Frame lemmas *)

Section Evolution.

Variable P : event -> Prop.
Variable R : stats_t -> stats_t -> Prop.
Hypothesis R_refl : forall s, R s s.
Hypothesis R_trans : forall a b c, R a b -> R b c -> R a c.

Lemma evolves_refl : forall st, evolves P R st st.
Proof.
  intros st. split; [exists []; rewrite app_nil_r; auto | auto].
Qed.

Lemma evolves_trans : forall a b c,
  evolves P R a b -> evolves P R b c -> evolves P R a c.
Proof.
  intros a b c [[e1 [L1 F1]] [S1 T1]] [[e2 [L2 F2]] [S2 T2]].
  split; [| split].
  - exists (e1 ++ e2). rewrite L2, L1, app_assoc. split; auto.
    apply Forall_app; auto.
  - eauto.
  - congruence.
Qed.

Lemma preserves_ret : forall A (a : A), preserves (evolves P R) (ret a).
Proof. intros A a st. apply evolves_refl. Qed.

Lemma preserves_bind : forall A B (m : M A) (k : A -> M B),
  preserves (evolves P R) m ->
  (forall a, preserves (evolves P R) (k a)) ->
  preserves (evolves P R) (bind m k).
Proof.
  intros A B m k Hm Hk st. unfold bind.
  specialize (Hm st). destruct (m st) as [a st1]. simpl in Hm.
  eapply evolves_trans; [exact Hm | apply Hk].
Qed.

Lemma preserves_emit : forall e, P e -> preserves (evolves P R) (emit e).
Proof.
  intros e He st. split; [| split]; simpl; auto.
  exists [e]. auto.
Qed.

Lemma preserves_http : forall env req, P req -> preserves (evolves P R) (http env req).
Proof.
  intros env req He st. split; [| split]; simpl; auto.
  exists [req]. auto.
Qed.

Lemma preserves_update_stats : forall f,
  (forall s, R s (f s)) -> preserves (evolves P R) (update_stats f).
Proof.
  intros f Hf st. split; [| split]; simpl; auto.
  exists []. rewrite app_nil_r. auto.
Qed.

Lemma preserves_get_should_stop : preserves (evolves P R) get_should_stop.
Proof. intros st. apply evolves_refl. Qed.

Lemma preserves_if : forall A (c : bool) (m1 m2 : M A),
  preserves (evolves P R) m1 -> preserves (evolves P R) m2 ->
  preserves (evolves P R) (if c then m1 else m2).
Proof. intros A [] m1 m2 H1 H2; assumption. Qed.

(** Sleeping is always allowed below. *)
Hypothesis P_sleep : forall s, P (ESleep s).
Hypothesis R_rate_limited : forall s, R s (inc_rate_limited s).

Lemma preserves_sleep : forall s, preserves (evolves P R) (sleep s).
Proof. intros s. apply preserves_emit, P_sleep. Qed.

Lemma preserves_action_result : forall ok_status attempt rep,
  preserves (evolves P R) (action_result ok_status attempt rep).
Proof.
  intros ok_status attempt rep. unfold action_result.
  destruct rep as [r |]; [| apply preserves_ret].
  repeat (apply preserves_if; try apply preserves_ret).
  apply preserves_bind; [apply preserves_update_stats, R_rate_limited |].
  intros _. apply preserves_bind; [apply preserves_sleep |].
  intros _. apply preserves_ret.
Qed.

Lemma preserves_search_messages : forall env g c o m,
  P (ESearch g c o m) ->
  forall fuel, preserves (evolves P R) (search_messages fuel env g c o m).
Proof.
  intros env g c o m P_search.
  induction fuel as [| fuel IH]; simpl.
  - apply preserves_ret.
  - apply preserves_bind; [apply preserves_http, P_search |].
    intros [r |]; [| apply preserves_ret].
    repeat (apply preserves_if; try apply preserves_ret).
    + apply preserves_bind; [apply preserves_update_stats, R_rate_limited |].
      intros _. apply preserves_bind; [apply preserves_sleep |].
      intros _. apply IH.
    + apply preserves_bind; [apply preserves_sleep |].
      intros _. apply IH.
Qed.

(** The executor: each lemma asks for the calls of the message at hand to
    be in the class, and for the counters that may be incremented. *)
Hypothesis R_deleted : forall s, R s (inc_deleted s).
Hypothesis R_edited : forall s, R s (inc_edited s).
Hypothesis R_failed : forall s, R s (inc_failed s).
Hypothesis R_skipped : forall s, R s (inc_skipped s).
Hypothesis R_ghosts : forall s, R s (inc_ghosts s).

Lemma preserves_edit_attempts : forall env cfg ch i,
  P (EEdit ch i MEOW_TEXT) ->
  forall remaining attempt b,
  preserves (evolves P R) (edit_attempts env cfg ch remaining attempt i b).
Proof.
  intros env cfg ch i P_edit.
  induction remaining as [| remaining IH]; intros attempt b; simpl.
  - apply preserves_ret.
  - unfold edit_message.
    apply preserves_bind.
    + apply preserves_bind; [apply preserves_http, P_edit |].
      intros rep. apply preserves_action_result.
    + intros []; try apply preserves_ret.
      * apply preserves_bind; [apply preserves_update_stats, R_edited |].
        intros _. apply preserves_ret.
      * apply preserves_bind; [apply preserves_update_stats, R_ghosts |].
        intros _. apply preserves_ret.
      * apply preserves_if; [| apply preserves_ret].
        apply preserves_bind; [apply preserves_sleep |].
        intros _. apply IH.
Qed.

Lemma preserves_delete_attempts : forall env cfg ch i,
  P (EDelete ch i) ->
  forall remaining attempt g b,
  preserves (evolves P R) (delete_attempts env cfg ch remaining attempt i g b).
Proof.
  intros env cfg ch i P_delete.
  induction remaining as [| remaining IH]; intros attempt g b; simpl.
  - apply preserves_ret.
  - unfold delete_message.
    apply preserves_bind.
    + apply preserves_bind; [apply preserves_http, P_delete |].
      intros rep. apply preserves_action_result.
    + intros [].
      * apply preserves_bind; [apply preserves_update_stats, R_deleted |].
        intros _. apply preserves_ret.
      * apply preserves_bind; [apply preserves_update_stats, R_ghosts |].
        intros _. apply preserves_ret.
      * apply preserves_bind; [apply preserves_update_stats, R_skipped |].
        intros _. apply preserves_ret.
      * apply preserves_if.
        -- apply preserves_bind; [apply preserves_sleep |].
           intros _. apply IH.
        -- apply preserves_bind; [apply preserves_update_stats, R_failed |].
           intros _. apply preserves_ret.
      * apply preserves_bind; [apply preserves_update_stats, R_failed |].
        intros _. apply preserves_ret.
Qed.

(** With an attempt left, the deletion starts by sending the delete call. *)
Lemma delete_attempts_first_call : forall env cfg ch i,
  P (EDelete ch i) ->
  forall remaining attempt g b st,
  exists evs,
    log (snd (delete_attempts env cfg ch (S remaining) attempt i g b st)) =
      log st ++ EDelete ch i :: evs /\
    Forall P evs.
Proof.
  intros env cfg ch i P_delete remaining attempt g b st.
  assert (HK : preserves (evolves P R)
    (result <- action_result 204 attempt (env (ncalls st) (EDelete ch i)) ;;
     match result with
     | OK => update_stats inc_deleted ;; ret (g, batch_deleted b)
     | GHOST => update_stats inc_ghosts ;; ret (true, batch_deleted b)
     | SKIP => update_stats inc_skipped ;; ret (g, batch_skipped b)
     | FAILED => update_stats inc_failed ;; ret (g, batch_skipped b)
     | RETRY =>
       if (attempt <? max_retries cfg)%nat then
         sleep 1 ;; delete_attempts env cfg ch remaining (S attempt) i g b
       else update_stats inc_failed ;; ret (g, batch_skipped b)
     end)).
  { apply preserves_bind; [apply preserves_action_result |].
    intros [].
    - apply preserves_bind; [apply preserves_update_stats, R_deleted |].
      intros _. apply preserves_ret.
    - apply preserves_bind; [apply preserves_update_stats, R_ghosts |].
      intros _. apply preserves_ret.
    - apply preserves_bind; [apply preserves_update_stats, R_skipped |].
      intros _. apply preserves_ret.
    - apply preserves_if.
      + apply preserves_bind; [apply preserves_sleep |].
        intros _. apply preserves_delete_attempts, P_delete.
      + apply preserves_bind; [apply preserves_update_stats, R_failed |].
        intros _. apply preserves_ret.
    - apply preserves_bind; [apply preserves_update_stats, R_failed |].
      intros _. apply preserves_ret. }
  destruct (HK (mkState (stats st) (current_target_index st) (should_stop st)
                        (progress_data st) (progress_file st) (S (ncalls st))
                        (log st ++ [EDelete ch i]))) as [[evs [L F]] _].
  exists evs. split; [| exact F].
  match type of L with log (snd ?t) = _ =>
    change (log (snd (delete_attempts env cfg ch (S remaining) attempt i g b st)))
      with (log (snd t)) end.
  rewrite L. simpl. rewrite <- app_assoc. reflexivity.
Qed.

(** The deletion stage issues delete calls unless the mode is [edit_only]. *)
Lemma preserves_delete_stage : forall env cfg ch msg,
  meow_mode cfg = edit_only \/ P (EDelete ch (id msg)) ->
  forall g b,
  preserves (evolves P R) (delete_stage env cfg ch msg g b).
Proof.
  intros env cfg ch msg Hmode g b. unfold delete_stage.
  assert (Hdel : P (EDelete ch (id msg)) ->
    preserves (evolves P R)
      (r <- delete_attempts env cfg ch (max_retries cfg) 1 (id msg) g b ;;
       let (was_ghost', b') := r in
       (if negb was_ghost' then sleep (delete_delay cfg) else ret tt) ;; ret b')).
  { intros P_delete. apply preserves_bind.
    - apply preserves_delete_attempts, P_delete.
    - intros [g' b']. apply preserves_bind.
      + apply preserves_if; [apply preserves_sleep | apply preserves_ret].
      + intros _. apply preserves_ret. }
  destruct (meow_mode cfg) eqn:E.
  - destruct Hmode as [H | H]; [discriminate | auto].
  - destruct Hmode as [H | H]; [discriminate | auto].
  - apply preserves_bind.
    + apply preserves_if; [apply preserves_sleep | apply preserves_ret].
    + intros _. apply preserves_ret.
Qed.

Lemma preserves_process_message : forall env cfg ch msg,
  meow_mode cfg = off \/ P (EEdit ch (id msg) MEOW_TEXT) ->
  meow_mode cfg = edit_only \/ P (EDelete ch (id msg)) ->
  forall b,
  preserves (evolves P R) (process_message env cfg ch msg b).
Proof.
  intros env cfg ch msg Hedit Hmode b. unfold process_message.
  assert (Hmeow : P (EEdit ch (id msg) MEOW_TEXT) ->
    preserves (evolves P R)
    (if negb (content_is_meow msg)
     then r <- edit_attempts env cfg ch (max_retries cfg) 1 (id msg) b ;;
          let '(edit_success, was_ghost, b') := r in
          if was_ghost then ret b'
          else (if edit_success then sleep (delete_delay cfg) else ret tt) ;;
               delete_stage env cfg ch msg was_ghost b'
     else delete_stage env cfg ch msg false b)).
  { intros P_edit.
    apply preserves_if; [| apply preserves_delete_stage, Hmode].
    apply preserves_bind; [apply preserves_edit_attempts, P_edit |].
    intros [[s g] b']. apply preserves_if; [apply preserves_ret |].
    apply preserves_bind.
    - apply preserves_if; [apply preserves_sleep | apply preserves_ret].
    - intros _. apply preserves_delete_stage, Hmode. }
  destruct (meow_mode cfg) eqn:E.
  - apply preserves_delete_stage. right.
    destruct Hmode as [H | H]; [congruence | exact H].
  - destruct Hedit as [H | H]; [congruence | auto].
  - destruct Hedit as [H | H]; [congruence | auto].
Qed.

Lemma preserves_process_messages : forall env cfg ch msgs,
  (forall msg, In msg msgs ->
     (meow_mode cfg = off \/ P (EEdit ch (id msg) MEOW_TEXT)) /\
     (meow_mode cfg = edit_only \/ P (EDelete ch (id msg)))) ->
  forall oldest b,
  preserves (evolves P R) (process_messages env cfg ch msgs oldest b).
Proof.
  intros env cfg ch.
  induction msgs as [| msg rest IH]; intros Hmsgs oldest b; simpl.
  - apply preserves_ret.
  - apply preserves_bind; [apply preserves_get_should_stop |].
    intros stop. apply preserves_if; [apply preserves_ret |].
    apply preserves_bind.
    + apply preserves_process_message; apply Hmsgs; left; reflexivity.
    + intros b'. apply IH. intros m Hm. apply Hmsgs. right. exact Hm.
Qed.

End Evolution.

(** The pagination loop stays within [evolves P R] as soon as the searches
    and the sleeps do, and the executor does whenever it is reached. *)
Section LoopEvolution.

Variable P : event -> Prop.
Variable R : stats_t -> stats_t -> Prop.
Hypothesis R_refl : forall s, R s s.
Hypothesis R_trans : forall a b c, R a b -> R b c -> R a c.
Hypothesis P_sleep : forall s, P (ESleep s).
Hypothesis P_search : forall g c o m, P (ESearch g c o m).
Hypothesis R_rate_limited : forall s, R s (inc_rate_limited s).

Variable env : env_t.
Variable cfg : settings.
Variable author : string.
Variable dry_run : bool.
Variable guild channel : string.

Hypothesis executor :
  dry_run = true \/
  forall msgs oldest b,
    preserves (evolves P R) (process_messages env cfg channel msgs oldest b).

Lemma preserves_handle_page : forall cs groups,
  dry_run = true \/
  preserves (evolves P R)
    (process_messages env cfg channel (eligible cfg author groups) None (mkBatch 0 0 0)) ->
  preserves (evolves P R) (handle_page env cfg author dry_run channel cs groups).
Proof.
  intros cs groups Hexec. unfold handle_page.
  destruct groups as [| g groups].
  { apply preserves_if; auto; [apply preserves_ret; auto |].
    apply preserves_bind; auto; [apply preserves_sleep; auto |].
    intros _. apply preserves_ret; auto. }
  destruct (eligible cfg author (g :: groups)) as [| first others].
  - destruct (all_hit_messages author (g :: groups)).
    + apply preserves_bind; auto; [apply preserves_sleep; auto |].
      intros _. apply preserves_ret; auto.
    + apply preserves_bind; auto; [apply preserves_sleep; auto |].
      intros _. apply preserves_ret; auto.
  - destruct Hexec as [Hdry | Hexec].
    + rewrite Hdry.
      apply preserves_bind; auto; [apply preserves_sleep; auto |].
      intros _. apply preserves_ret; auto.
    + apply preserves_if; auto.
      * apply preserves_bind; auto; [apply preserves_sleep; auto |].
        intros _. apply preserves_ret; auto.
      * apply preserves_bind; auto.
        intros r. apply preserves_bind; auto; [apply preserves_sleep; auto |].
        intros _. apply preserves_ret; auto.
Qed.

Lemma preserves_loop_body : forall fuel cs,
  preserves (evolves P R) (loop_body env cfg author dry_run guild channel fuel cs).
Proof.
  intros fuel cs. unfold loop_body.
  apply preserves_bind; auto.
  { apply preserves_search_messages; auto. }
  intros [groups | |]; try (apply preserves_ret; auto).
  apply preserves_handle_page.
  destruct executor as [Hdry | Hexec]; [left; exact Hdry | right; apply Hexec].
Qed.

Lemma preserves_process_target_loop : forall fuel cs,
  preserves (evolves P R)
    (process_target_loop env cfg author dry_run guild channel fuel cs).
Proof.
  induction fuel as [| fuel IH]; intros cs; simpl.
  - apply preserves_ret; auto.
  - apply preserves_bind; auto; [apply preserves_get_should_stop; auto |].
    intros stop. apply preserves_if; auto; [apply preserves_ret; auto |].
    apply preserves_bind; auto; [apply preserves_loop_body |].
    intros [| cs' |]; auto; apply preserves_ret; auto.
Qed.

End LoopEvolution.

(** ** Backoff *)

Lemma app_two : forall (l : list event) a b, (l ++ [a]) ++ [b] = l ++ [a; b].
Proof. intros. rewrite <- app_assoc. reflexivity. Qed.

Lemma search_messages_429 : forall env fuel g c o m st r,
  env (ncalls st) (ESearch g c o m) = Response r ->
  status_code r = 429 ->
  search_messages (S fuel) env g c o m st =
  search_messages fuel env g c o m
    (after_backoff (ESearch g c o m) (get_retry_after r 40 * 2) true st).
Proof.
  intros env fuel g c o m st r Henv Hs.
  simpl. unfold bind, http. rewrite Henv, Hs. simpl.
  unfold after_backoff. simpl. rewrite app_two. reflexivity.
Qed.

Lemma search_messages_202 : forall env fuel g c o m st r,
  env (ncalls st) (ESearch g c o m) = Response r ->
  status_code r = 202 ->
  search_messages (S fuel) env g c o m st =
  search_messages fuel env g c o m
    (after_backoff (ESearch g c o m) (get_retry_after r 5) false st).
Proof.
  intros env fuel g c o m st r Henv Hs.
  simpl. unfold bind, http. rewrite Henv, Hs. simpl.
  unfold after_backoff. simpl. rewrite app_two. reflexivity.
Qed.

Lemma search_messages_log_grows : forall fuel env g c o m st,
  exists evs, log (snd (search_messages fuel env g c o m st)) = log st ++ evs.
Proof.
  intros fuel env g c o m st.
  destruct (@preserves_search_messages (fun _ => True) any_counters
              (fun _ => I) (fun _ _ _ _ _ => I) (fun _ => I) (fun _ => I)
              env g c o m I fuel st) as [[evs [L _]] _].
  exists evs. exact L.
Qed.

(** A search with fuel left starts by sending its request. *)
Lemma search_messages_first_call : forall env fuel g c o m st,
  exists evs,
    log (snd (search_messages (S fuel) env g c o m st)) =
    log st ++ ESearch g c o m :: evs.
Proof.
  intros env fuel g c o m st.
  simpl. unfold bind at 1. unfold http at 1.
  destruct (env (ncalls st) (ESearch g c o m)) as [r |];
    [| exists []; reflexivity].
  destruct (status_code r =? 429).
  - unfold bind, update_stats, sleep, emit. simpl.
    match goal with |- context [search_messages fuel env g c o m ?s] =>
      destruct (search_messages_log_grows fuel env g c o m s) as [evs L] end.
    rewrite L. simpl. rewrite <- !app_assoc. simpl. eexists. reflexivity.
  - destruct (status_code r =? 202).
    + unfold bind, sleep, emit. simpl.
      match goal with |- context [search_messages fuel env g c o m ?s] =>
        destruct (search_messages_log_grows fuel env g c o m s) as [evs L] end.
      rewrite L. simpl. rewrite <- !app_assoc. simpl. eexists. reflexivity.
    + destruct ((400 <=? status_code r) && (status_code r <? 600));
        exists []; reflexivity.
Qed.

(** C5, as the code has it.  A rate-limit response (429) that suggests a
    wait [w] makes the engine sleep [2 * w] right after the call, before
    anything else is sent, and adds exactly one to the rate-limit counter, no
    other counter moving; this holds for the search, the delete and the edit
    call.  An index-not-ready response (202) to a search that suggests [w]
    makes the engine sleep exactly [w] and leaves every counter as it was;
    the search is then issued again with the same arguments, and the next
    event of the log is that same request.  A delete or an edit call has no
    such case: answered 202, it ends in [FAILED] at once, with no sleep and
    no retry of its own. *)
Theorem backoff_policy : forall env st r w,
  retry_after r = Some w ->
  (forall g c o m, env (ncalls st) (ESearch g c o m) = Response r ->
     status_code r = 429 ->
     forall fuel,
       search_messages (S fuel) env g c o m st =
       search_messages fuel env g c o m
         (after_backoff (ESearch g c o m) (2 * w) true st)) /\
  (forall c i attempt, env (ncalls st) (EDelete c i) = Response r ->
     status_code r = 429 ->
     delete_message env c i attempt st =
     (RETRY, after_backoff (EDelete c i) (2 * w) true st)) /\
  (forall c i t attempt, env (ncalls st) (EEdit c i t) = Response r ->
     status_code r = 429 ->
     edit_message env c i t attempt st =
     (RETRY, after_backoff (EEdit c i t) (2 * w) true st)) /\
  (forall g c o m, env (ncalls st) (ESearch g c o m) = Response r ->
     status_code r = 202 ->
     forall fuel,
       search_messages (S fuel) env g c o m st =
       search_messages fuel env g c o m
         (after_backoff (ESearch g c o m) w false st) /\
       exists evs,
         log (snd (search_messages (S (S fuel)) env g c o m st)) =
         log st ++ [ESearch g c o m; ESleep w; ESearch g c o m] ++ evs) /\
  (forall c i attempt, env (ncalls st) (EDelete c i) = Response r ->
     status_code r = 202 ->
     delete_message env c i attempt st = (FAILED, called (EDelete c i) st)) /\
  (forall c i t attempt, env (ncalls st) (EEdit c i t) = Response r ->
     status_code r = 202 ->
     edit_message env c i t attempt st = (FAILED, called (EEdit c i t) st)).
Proof.
  intros env st r w Hw.
  assert (H40 : get_retry_after r 40 * 2 = 2 * w)
    by (unfold get_retry_after; rewrite Hw; lia).
  assert (H3 : get_retry_after r 3 * 2 = 2 * w)
    by (unfold get_retry_after; rewrite Hw; lia).
  assert (H5 : get_retry_after r 5 = w)
    by (unfold get_retry_after; rewrite Hw; reflexivity).
  split; [| split; [| split; [| split; [| split]]]].
  - intros g c o m Henv Hs fuel.
    rewrite (search_messages_429 _ _ _ _ _ _ _ Henv Hs), H40. reflexivity.
  - intros c i attempt Henv Hs.
    unfold delete_message, bind, http. rewrite Henv. simpl. rewrite Hs. simpl.
    unfold bind, update_stats, sleep, emit, ret, after_backoff. simpl.
    rewrite H3, app_two. reflexivity.
  - intros c i t attempt Henv Hs.
    unfold edit_message, bind, http. rewrite Henv. simpl. rewrite Hs. simpl.
    unfold bind, update_stats, sleep, emit, ret, after_backoff. simpl.
    rewrite H3, app_two. reflexivity.
  - intros g c o m Henv Hs fuel. split.
    + rewrite (search_messages_202 _ _ _ _ _ _ _ Henv Hs), H5. reflexivity.
    + rewrite (search_messages_202 _ _ _ _ _ _ _ Henv Hs), H5.
      destruct (search_messages_first_call env fuel g c o m
                  (after_backoff (ESearch g c o m) w false st)) as [evs L].
      exists evs. rewrite L. unfold after_backoff. simpl.
      rewrite <- app_assoc. reflexivity.
  - intros c i attempt Henv Hs.
    unfold delete_message, bind, http. rewrite Henv. simpl. rewrite Hs. reflexivity.
  - intros c i t attempt Henv Hs.
    unfold edit_message, bind, http. rewrite Henv. simpl. rewrite Hs. reflexivity.
Qed.

(** C5 as stated fails for a delete call: answered with an
    index-not-ready response that suggests 5 seconds, the call is not
    followed by a sleep of 5 seconds and is not sent again; the message is
    counted as failed and the engine goes on after the usual delay. *)
Lemma not_ready_delete_is_not_retried :
  process_message indexing_once (default_settings off) "c" (own_message 7 "hi")
                  (mkBatch 0 0 0) (init None) =
    (mkBatch 0 0 1,
     mkState (mkStats 0 0 1 0 0 0) 0 false None None 1 [EDelete "c" 7; ESleep 1]) /\
  ~ (forall env st c i attempt r w,
       env (ncalls st) (EDelete c i) = Response r ->
       status_code r = 202 ->
       retry_after r = Some w ->
       exists evs,
         log (snd (delete_message env c i attempt st)) =
           log st ++ [EDelete c i; ESleep w] ++ evs).
Proof.
  split; [reflexivity |].
  intros H.
  destruct (H indexing_once (init None) "c" 7 1%nat (mkResponse 202 (Some 5) None []) 5
              eq_refl eq_refl eq_refl) as [evs L].
  vm_compute in L. discriminate L.
Qed.

(** ** Empty pages *)

Lemma search_messages_200 : forall env fuel g c o m st r,
  env (ncalls st) (ESearch g c o m) = Response r ->
  status_code r = 200 ->
  search_messages (S fuel) env g c o m st =
  (Page (messages r), called (ESearch g c o m) st).
Proof.
  intros env fuel g c o m st r Henv Hs.
  simpl. unfold bind, http. rewrite Henv, Hs. reflexivity.
Qed.

Lemma loop_body_empty_page : forall env cfg author dry_run guild channel fuel cs st st1,
  search_messages fuel env guild channel (offset cs) (max_id_cursor cs) st =
    (Page [], st1) ->
  loop_body env cfg author dry_run guild channel fuel cs st =
  if (MAX_EMPTY_PAGES <=? S (empty_pages cs))%nat then (Break, st1)
  else (Continue (mkCursor (max_id_cursor cs) (offset cs) (messages_found cs)
                           (S (empty_pages cs))),
        snd (sleep (search_delay cfg) st1)).
Proof.
  intros env cfg author dry_run guild channel fuel cs st st1 H.
  unfold loop_body, bind at 1. rewrite H. unfold handle_page.
  destruct (MAX_EMPTY_PAGES <=? S (empty_pages cs))%nat; reflexivity.
Qed.

(** Every way through the loop body on a page that has groups continues the
    loop with the empty-page counter at 0. *)
Lemma loop_body_nonempty_page : forall env cfg author dry_run guild channel fuel cs st st1 groups,
  search_messages fuel env guild channel (offset cs) (max_id_cursor cs) st =
    (Page groups, st1) ->
  groups <> [] ->
  exists cs', fst (loop_body env cfg author dry_run guild channel fuel cs st) = Continue cs' /\
              empty_pages cs' = 0%nat.
Proof.
  intros env cfg author dry_run guild channel fuel cs st st1 groups H Hne.
  unfold loop_body, bind at 1. rewrite H. unfold handle_page.
  destruct groups as [| g groups]; [congruence |].
  destruct (eligible cfg author (g :: groups)) as [| first others].
  - destruct (all_hit_messages author (g :: groups)); unfold bind, sleep, emit, ret; simpl.
    + destruct (oldest_hit_id (g :: groups)) as [o |];
        [destruct (o =? 0) |]; eexists; split; reflexivity.
    + eexists; split; reflexivity.
  - destruct dry_run.
    + unfold bind, sleep, emit, ret; simpl. eexists; split; reflexivity.
    + unfold bind at 1.
      destruct (process_messages env cfg channel (first :: others) None (mkBatch 0 0 0) st1)
        as [[oldest b] st2].
      unfold bind, sleep, emit, ret; simpl.
      destruct oldest; eexists; split; reflexivity.
Qed.

Lemma process_target_loop_step : forall env cfg author dry_run guild channel fuel cs st,
  should_stop st = false ->
  process_target_loop env cfg author dry_run guild channel (S fuel) cs st =
  let (step, st1) := loop_body env cfg author dry_run guild channel fuel cs st in
  match step with
  | Break => (Finished, st1)
  | Continue cs' => process_target_loop env cfg author dry_run guild channel fuel cs' st1
  | StepOutOfFuel => (OutOfFuel, st1)
  end.
Proof.
  intros env cfg author dry_run guild channel fuel cs st Hstop.
  cbn [process_target_loop]. unfold bind at 1, get_should_stop at 1.
  rewrite Hstop. unfold bind at 1.
  destruct (loop_body env cfg author dry_run guild channel fuel cs st) as [[| cs' |] st1];
    reflexivity.
Qed.

(** One turn of the loop on an empty page, below the threshold and at it. *)
Lemma loop_turn_empty_retry : forall env cfg author dry_run guild channel fuel cs st,
  should_stop st = false ->
  env (ncalls st) (ESearch guild channel (offset cs) (max_id_cursor cs)) =
    Response (mkResponse 200 None None []) ->
  (S (empty_pages cs) < 3)%nat ->
  process_target_loop env cfg author dry_run guild channel (S (S fuel)) cs st =
  process_target_loop env cfg author dry_run guild channel (S fuel)
    (mkCursor (max_id_cursor cs) (offset cs) (messages_found cs) (S (empty_pages cs)))
    (snd (sleep (search_delay cfg)
            (called (ESearch guild channel (offset cs) (max_id_cursor cs)) st))).
Proof.
  intros env cfg author dry_run guild channel fuel cs st Hstop Henv Hlt.
  rewrite process_target_loop_step by assumption.
  erewrite loop_body_empty_page
    by (apply search_messages_200 with (r := mkResponse 200 None None []);
        [exact Henv | reflexivity]).
  unfold MAX_EMPTY_PAGES.
  destruct (Nat.leb_spec 3 (S (empty_pages cs))); [lia | reflexivity].
Qed.

Lemma loop_turn_empty_last : forall env cfg author dry_run guild channel fuel cs st,
  should_stop st = false ->
  env (ncalls st) (ESearch guild channel (offset cs) (max_id_cursor cs)) =
    Response (mkResponse 200 None None []) ->
  (3 <= S (empty_pages cs))%nat ->
  process_target_loop env cfg author dry_run guild channel (S (S fuel)) cs st =
  (Finished, called (ESearch guild channel (offset cs) (max_id_cursor cs)) st).
Proof.
  intros env cfg author dry_run guild channel fuel cs st Hstop Henv Hge.
  rewrite process_target_loop_step by assumption.
  erewrite loop_body_empty_page
    by (apply search_messages_200 with (r := mkResponse 200 None None []);
        [exact Henv | reflexivity]).
  unfold MAX_EMPTY_PAGES.
  destruct (Nat.leb_spec 3 (S (empty_pages cs))); [reflexivity | lia].
Qed.

(** C7. A page with zero message groups adds one to the count of
    consecutive empty pages; when the count reaches 3 the loop over the
    target ends (no error is raised, nothing is sent), and below 3 the engine
    sleeps [search_delay] and searches again with the same cursor and offset.
    A page that has groups sets the count back to 0.  Three empty pages in a
    row end the processing of the target after exactly three searches, with
    no edit or delete call and no counter changed. *)
Theorem empty_pages_policy : forall env cfg author dry_run guild channel,
  (forall fuel cs st st1,
     search_messages fuel env guild channel (offset cs) (max_id_cursor cs) st =
       (Page [], st1) ->
     loop_body env cfg author dry_run guild channel fuel cs st =
     if (3 <=? S (empty_pages cs))%nat then (Break, st1)
     else (Continue (mkCursor (max_id_cursor cs) (offset cs) (messages_found cs)
                              (S (empty_pages cs))),
           snd (sleep (search_delay cfg) st1))) /\
  (forall fuel cs st st1 groups,
     search_messages fuel env guild channel (offset cs) (max_id_cursor cs) st =
       (Page groups, st1) ->
     groups <> [] ->
     exists cs',
       fst (loop_body env cfg author dry_run guild channel fuel cs st) = Continue cs' /\
       empty_pages cs' = 0%nat) /\
  (forall fuel st,
     should_stop st = false ->
     (forall k req, (k < 3)%nat ->
        env (ncalls st + k)%nat req = Response (mkResponse 200 None None [])) ->
     exists st',
       process_target_loop env cfg author dry_run guild channel (4 + fuel) initial_cursor st =
         (Finished, st') /\
       log st' = log st ++ [ESearch guild channel 0 None; ESleep (search_delay cfg);
                            ESearch guild channel 0 None; ESleep (search_delay cfg);
                            ESearch guild channel 0 None] /\
       stats st' = stats st).
Proof.
  intros env cfg author dry_run guild channel. split; [| split].
  - intros. apply loop_body_empty_page. assumption.
  - intros. eapply loop_body_nonempty_page; eassumption.
  - intros fuel st Hstop Henv.
    assert (E0 := Henv 0%nat (ESearch guild channel 0 None) ltac:(lia)).
    assert (E1 := Henv 1%nat (ESearch guild channel 0 None) ltac:(lia)).
    assert (E2 := Henv 2%nat (ESearch guild channel 0 None) ltac:(lia)).
    rewrite Nat.add_0_r in E0.
    replace (ncalls st + 1)%nat with (S (ncalls st)) in E1 by lia.
    replace (ncalls st + 2)%nat with (S (S (ncalls st))) in E2 by lia.
    eexists. split; [| split].
    + change (4 + fuel)%nat with (S (S (S (S fuel)))).
      rewrite loop_turn_empty_retry; [| assumption | exact E0 | simpl; lia].
      rewrite loop_turn_empty_retry; [| assumption | exact E1 | simpl; lia].
      rewrite loop_turn_empty_last; [| assumption | exact E2 | simpl; lia].
      reflexivity.
    + cbn. rewrite <- !app_assoc. reflexivity.
    + reflexivity.
Qed.

(** ** The oldest id of a batch *)

Lemma fold_min_le_init : forall l a, fold_left Z.min l a <= a.
Proof.
  induction l as [| x l IH]; intros a; simpl; [lia |].
  specialize (IH (Z.min a x)). lia.
Qed.

Lemma fold_min_le_all : forall l a x, In x l -> fold_left Z.min l a <= x.
Proof.
  induction l as [| y l IH]; intros a x Hin; simpl; [contradiction |].
  destruct Hin as [-> | Hin].
  - pose proof (fold_min_le_init l (Z.min a x)). lia.
  - apply IH, Hin.
Qed.

Lemma fold_min_in : forall l a, fold_left Z.min l a = a \/ In (fold_left Z.min l a) l.
Proof.
  induction l as [| y l IH]; intros a; simpl; [left; reflexivity |].
  destruct (IH (Z.min a y)) as [E | Hin]; [| right; right; exact Hin].
  rewrite E. destruct (Z.min_spec a y) as [[_ ->] | [_ ->]]; auto.
Qed.

Lemma min_id_le : forall first others m,
  In m (first :: others) -> min_id first others <= id m.
Proof.
  intros first others m [<- | Hin]; unfold min_id.
  - apply fold_min_le_init.
  - apply fold_min_le_all, in_map, Hin.
Qed.

Lemma min_id_in : forall first others,
  In (min_id first others) (map id (first :: others)).
Proof.
  intros first others. unfold min_id. simpl.
  destruct (fold_min_in (map id others) (id first)) as [-> | Hin]; auto.
Qed.

(** ** Modes that issue no delete call *)

Lemma not_delete_sleep : forall s, is_delete_call (ESleep s) = false.
Proof. reflexivity. Qed.

Lemma not_delete_search : forall g c o m, is_delete_call (ESearch g c o m) = false.
Proof. reflexivity. Qed.

Lemma not_delete_edit : forall c i t, is_delete_call (EEdit c i t) = false.
Proof. reflexivity. Qed.

Lemma any_counters_refl : forall s, any_counters s s.
Proof. intros; exact I. Qed.

Lemma any_counters_trans : forall a b c,
  any_counters a b -> any_counters b c -> any_counters a c.
Proof. intros; exact I. Qed.

Lemma any_counters_inc : forall (f : stats_t -> stats_t) s, any_counters s (f s).
Proof. intros; exact I. Qed.

Create HintDb engine.

#[local] Hint Resolve not_delete_sleep not_delete_search not_delete_edit
  any_counters_refl any_counters_trans any_counters_inc : engine.

(** C9. In [edit_only] mode the processing of a target issues no delete
    call: whatever the server answers, whatever the target and however long
    the run is followed, every event that [process_target] adds to the log is
    something else than a delete call. *)
Theorem edit_only_never_deletes : forall env cfg author fuel t dry_run st,
  meow_mode cfg = edit_only ->
  exists evs,
    log (snd (process_target env cfg author fuel t dry_run st)) = log st ++ evs /\
    Forall (fun e => is_delete_call e = false) evs.
Proof.
  intros env cfg author fuel t dry_run st Hmode.
  unfold process_target.
  match goal with |- context [process_target_loop _ _ _ _ ?g ?c _ _ _] =>
    destruct (@preserves_process_target_loop
                (fun e => is_delete_call e = false) any_counters
                any_counters_refl any_counters_trans
                not_delete_sleep not_delete_search (any_counters_inc inc_rate_limited)
                env cfg author dry_run g c) with (fuel := fuel) (cs := initial_cursor) (st := st)
      as [H _] end.
  - right. intros msgs oldest b.
    apply preserves_process_messages; auto with engine.
  - exact H.
Qed.

(** ** Dry run *)

Lemma same_message_counters_refl : forall s, same_message_counters s s.
Proof. intros s. unfold same_message_counters. auto. Qed.

Lemma same_message_counters_trans : forall a b c,
  same_message_counters a b -> same_message_counters b c -> same_message_counters a c.
Proof. unfold same_message_counters. intros a b c H1 H2. intuition congruence. Qed.

Lemma same_message_counters_rate_limited : forall s,
  same_message_counters s (inc_rate_limited s).
Proof. intros s. unfold same_message_counters. simpl. auto. Qed.

Lemma loop_body_dry_run : forall env cfg author guild channel fuel cs st st1 groups first others,
  search_messages fuel env guild channel (offset cs) (max_id_cursor cs) st =
    (Page groups, st1) ->
  eligible cfg author groups = first :: others ->
  loop_body env cfg author true guild channel fuel cs st =
  (Continue (mkCursor (Some (min_id first others - 1)) 0
                      (messages_found cs + Z.of_nat (List.length (first :: others))) 0),
   snd (sleep (search_delay cfg) st1)).
Proof.
  intros env cfg author guild channel fuel cs st st1 groups first others H He.
  unfold loop_body, bind at 1. rewrite H. unfold handle_page.
  destruct groups as [| g groups]; [discriminate He |].
  rewrite He. reflexivity.
Qed.

(** C10. With [dry_run] set, processing a target sends no edit and no
    delete call, whatever the server answers and however long the run is
    followed, and the counters [deleted], [edited], [skipped], [failed] and
    [ghosts] keep their values.  On a page with eligible messages the loop
    only moves the cursor: [max_id] becomes the least id of the eligible
    messages minus 1 and [offset] becomes 0, and the only effect is the
    sleep of [search_delay]. *)
Theorem dry_run_previews_only : forall env cfg author,
  (forall fuel t st,
     let st' := snd (process_target env cfg author fuel t true st) in
     (exists evs, log st' = log st ++ evs /\
                  Forall (fun e => is_action_call e = false) evs) /\
     same_message_counters (stats st) (stats st')) /\
  (forall guild channel fuel cs st st1 groups first others,
     search_messages fuel env guild channel (offset cs) (max_id_cursor cs) st =
       (Page groups, st1) ->
     eligible cfg author groups = first :: others ->
     exists oldest_id,
       loop_body env cfg author true guild channel fuel cs st =
         (Continue (mkCursor (Some (oldest_id - 1)) 0
                      (messages_found cs + Z.of_nat (List.length (first :: others))) 0),
          snd (sleep (search_delay cfg) st1)) /\
       In oldest_id (map id (eligible cfg author groups)) /\
       (forall m, In m (eligible cfg author groups) -> oldest_id <= id m)).
Proof.
  intros env cfg author. split.
  - intros fuel t st. unfold process_target.
    match goal with |- context [process_target_loop _ _ _ _ ?g ?c _ _ _] =>
      destruct (@preserves_process_target_loop
                  (fun e => is_action_call e = false) same_message_counters
                  same_message_counters_refl same_message_counters_trans
                  (fun _ => eq_refl) (fun _ _ _ _ => eq_refl)
                  same_message_counters_rate_limited
                  env cfg author true g c (or_introl eq_refl) fuel initial_cursor st)
        as [H [HR _]] end.
    split; assumption.
  - intros guild channel fuel cs st st1 groups first others H He.
    exists (min_id first others). split; [| split].
    + eapply loop_body_dry_run; eassumption.
    + rewrite He. apply min_id_in.
    + rewrite He. apply min_id_le.
Qed.

(** ** The message filter *)

Lemma content_is_meow_iff : forall m,
  content_is_meow m = true <-> content m = Some MEOW_TEXT.
Proof.
  intros m. unfold content_is_meow. destruct (content m) as [c |].
  - rewrite String.eqb_eq. split; congruence.
  - split; discriminate.
Qed.

Lemma eligible_iff : forall cfg author groups m,
  In m (eligible cfg author groups) <->
  In m (all_hit_messages author groups) /\ is_filtered cfg m = false.
Proof.
  intros cfg author groups m. unfold eligible. rewrite filter_In.
  rewrite negb_true_iff. reflexivity.
Qed.

Lemma all_hit_messages_iff : forall author groups m,
  In m (all_hit_messages author groups) <->
  In m (List.concat groups) /\ is_own_hit author m = true.
Proof. intros. unfold all_hit_messages. apply filter_In. Qed.

(** The calls of one turn of the loop are sent for eligible messages only. *)
Lemma handle_page_acts_on_eligible : forall env cfg author dry_run channel cs groups st,
  exists evs,
    log (snd (handle_page env cfg author dry_run channel cs groups st)) = log st ++ evs /\
    Forall (acts_on (fun i => exists m, In m (eligible cfg author groups) /\ id m = i)) evs.
Proof.
  intros env cfg author dry_run channel cs groups st.
  destruct (@preserves_handle_page
              (acts_on (fun i => exists m, In m (eligible cfg author groups) /\ id m = i))
              any_counters any_counters_refl any_counters_trans
              (fun _ => I) env cfg author dry_run channel cs groups) with (st := st)
    as [H _]; [| exact H].
  right. apply preserves_process_messages; auto with engine.
  - intros. exact I.
  - intros msg Hin. split; right; simpl; eauto.
Qed.

(** ** A skipped edit *)

Lemma edit_attempts_skip : forall env cfg ch remaining attempt i b st st1,
  edit_message env ch i MEOW_TEXT attempt st = (SKIP, st1) ->
  edit_attempts env cfg ch (S remaining) attempt i b st = ((false, false, b), st1).
Proof.
  intros env cfg ch remaining attempt i b st st1 H.
  simpl. unfold bind at 1. rewrite H. reflexivity.
Qed.

(** What [process_message] does once the edit attempts ended without an
    edit and without a ghost. *)
Lemma process_message_after_failed_edit : forall env cfg ch msg b st st1 b',
  content_is_meow msg = false ->
  edit_attempts env cfg ch (max_retries cfg) 1 (id msg) b st = ((false, false, b'), st1) ->
  process_message env cfg ch msg b st =
  match meow_mode cfg with
  | off => delete_stage env cfg ch msg false b st
  | edit_and_delete => delete_stage env cfg ch msg false b' st1
  | edit_only => (b', snd (sleep (delete_delay cfg) st1))
  end.
Proof.
  intros env cfg ch msg b st st1 b' Hc He.
  unfold process_message. rewrite Hc. cbn [negb].
  destruct (meow_mode cfg) eqn:E; [reflexivity | |].
  - unfold bind at 1. rewrite He. reflexivity.
  - unfold bind at 1. rewrite He. unfold delete_stage. rewrite E. reflexivity.
Qed.

(** C2, as the code has it.  An edit attempt that yields [SKIP], whichever
    attempt it is, ends the edit retries at once: no further edit call is
    sent and no counter is changed.  Once the edit stage has ended in this
    way, without an edit and without a ghost, the processing of the message
    ends there in [edit_only] mode, after the delay between messages; in
    [edit_and_delete] mode the deletion stage follows: the next call is the
    delete call for the same message, and no edit call comes after it. *)
Theorem skipped_edit_outcome : forall env cfg ch msg b,
  content_is_meow msg = false ->
  (forall remaining attempt st st1,
     edit_message env ch (id msg) MEOW_TEXT attempt st = (SKIP, st1) ->
     edit_attempts env cfg ch (S remaining) attempt (id msg) b st =
       ((false, false, b), st1)) /\
  (forall st st1 b',
     edit_attempts env cfg ch (max_retries cfg) 1 (id msg) b st =
       ((false, false, b'), st1) ->
     (meow_mode cfg = edit_only ->
        process_message env cfg ch msg b st = (b', snd (sleep (delete_delay cfg) st1))) /\
     (meow_mode cfg = edit_and_delete ->
        process_message env cfg ch msg b st = delete_stage env cfg ch msg false b' st1 /\
        (max_retries cfg <> 0%nat ->
         exists evs,
           log (snd (process_message env cfg ch msg b st)) =
             log st1 ++ EDelete ch (id msg) :: evs /\
           Forall (fun e => is_edit_call e = false) evs))).
Proof.
  intros env cfg ch msg b Hc. split.
  { intros remaining attempt st st1 Hskip. apply edit_attempts_skip. exact Hskip. }
  intros st st1 b' He.
  assert (Hp := @process_message_after_failed_edit env cfg ch msg b st st1 b' Hc He).
  split; intros Hmode; rewrite Hmode in Hp.
  - exact Hp.
  - split; [exact Hp |]. intros Hr.
    destruct (max_retries cfg) as [| n] eqn:En; [congruence |].
    rewrite Hp. unfold delete_stage. rewrite Hmode, En.
    destruct (@delete_attempts_first_call (fun e => is_edit_call e = false) any_counters
                any_counters_refl any_counters_trans (fun _ => eq_refl)
                (any_counters_inc inc_rate_limited) (any_counters_inc inc_deleted)
                (any_counters_inc inc_failed) (any_counters_inc inc_skipped)
                (any_counters_inc inc_ghosts)
                env cfg ch (id msg) eq_refl n 1%nat false b' st1) as [evs [L F]].
    unfold bind at 1.
    destruct (delete_attempts env cfg ch (S n) 1 (id msg) false b' st1) as [[g' b''] st2].
    simpl in L.
    destruct g'; simpl.
    + exists evs. split; assumption.
    + exists (evs ++ [ESleep (delete_delay cfg)]). split.
      * rewrite L. rewrite <- app_assoc. reflexivity.
      * apply Forall_app. split; [exact F | repeat constructor].
Qed.

(** C2 as stated fails: in [edit_and_delete] mode a message whose edit was
    refused with 403 is sent a delete call all the same. *)
Lemma skipped_edit_still_deleted :
  ~ (forall env cfg ch msg b st st1,
       meow_mode cfg <> off ->
       content_is_meow msg = false ->
       max_retries cfg <> 0%nat ->
       edit_message env ch (id msg) MEOW_TEXT 1 st = (SKIP, st1) ->
       exists evs,
         log (snd (process_message env cfg ch msg b st)) = log st1 ++ evs /\
         Forall (fun e => is_action_call e = false) evs).
Proof.
  intros H.
  destruct (H forbidden_edits (default_settings edit_and_delete) "c"
              (own_message 5 "hi") (mkBatch 0 0 0) (init None)
              (called (EEdit "c" 5 MEOW_TEXT) (init None)))
    as [evs [L F]]; try discriminate; try reflexivity.
  vm_compute in L. injection L as <-.
  inversion F as [| e l Hd _]. discriminate Hd.
Qed.

(** ** Counters of the edit stage *)

(** C6.  In [edit_only] mode a message whose edit is refused (403, the
    [SKIP] outcome) is finished with every counter unchanged: the terminal
    outcome is counted nowhere, whereas the same outcome of a delete call
    adds one to [skipped]. *)
Theorem skipped_edit_is_not_counted :
  edit_message forbidden_edits "c" 5 MEOW_TEXT 1 (init None) =
    (SKIP, called (EEdit "c" 5 MEOW_TEXT) (init None)) /\
  process_message forbidden_edits (default_settings edit_only) "c"
                  (own_message 5 "hi") (mkBatch 0 0 0) (init None) =
    (mkBatch 0 0 0,
     mkState zero_stats 0 false None None 1
             [EEdit "c" 5 MEOW_TEXT; ESleep 1]).
Proof. split; reflexivity. Qed.

(** The delete stage, for comparison: with an attempt allowed, the deletion
    of a message ends with exactly one of [deleted], [ghosts], [skipped] and
    [failed] incremented, whatever the server answers. *)
Lemma only_rate_limited_refl : forall s, only_rate_limited s s.
Proof. intros s. split; [apply same_message_counters_refl | lia]. Qed.

Lemma only_rate_limited_trans : forall a b c,
  only_rate_limited a b -> only_rate_limited b c -> only_rate_limited a c.
Proof.
  intros a b c [H1 L1] [H2 L2].
  split; [eapply same_message_counters_trans; eassumption | lia].
Qed.

Lemma only_rate_limited_inc : forall s, only_rate_limited s (inc_rate_limited s).
Proof.
  intros s. split; [apply same_message_counters_rate_limited | simpl; lia].
Qed.

Lemma delete_message_counters : forall env ch i attempt st,
  only_rate_limited (stats st) (stats (snd (delete_message env ch i attempt st))).
Proof.
  intros env ch i attempt st. unfold delete_message.
  assert (H : preserves (evolves (fun _ => True) only_rate_limited)
                (rep <- http env (EDelete ch i) ;; action_result 204 attempt rep)).
  { apply preserves_bind.
    - exact only_rate_limited_trans.
    - apply preserves_http; [exact only_rate_limited_refl | exact I].
    - intros rep. apply preserves_action_result.
      + exact only_rate_limited_refl.
      + exact only_rate_limited_trans.
      + intros; exact I.
      + exact only_rate_limited_inc. }
  apply (H st).
Qed.

Lemma delete_attempts_counted_once : forall env cfg ch i remaining attempt g b st,
  (attempt + remaining = max_retries cfg + 1)%nat ->
  (1 <= remaining)%nat ->
  counted_once (stats st)
    (stats (snd (delete_attempts env cfg ch remaining attempt i g b st))).
Proof.
  intros env cfg ch i.
  induction remaining as [| remaining IH]; intros attempt g b st Hsum Hpos; [lia |].
  simpl. unfold bind at 1.
  pose proof (delete_message_counters env ch i attempt st) as Hr.
  destruct (delete_message env ch i attempt st) as [res st1]. simpl in Hr.
  destruct Hr as [[Hd [He [Hf [Hs Hg]]]] Hl].
  destruct res; unfold bind, update_stats, ret; simpl;
    try (unfold counted_once; simpl; lia).
  destruct (Nat.ltb_spec attempt (max_retries cfg)).
  - unfold bind, sleep, emit. simpl.
    match goal with |- context [delete_attempts _ _ _ _ _ _ _ _ ?s] =>
      pose proof (IH (S attempt) g b s ltac:(lia) ltac:(lia)) as Hc end.
    simpl in Hc. unfold counted_once in *. lia.
  - unfold bind, update_stats, ret. simpl. unfold counted_once. simpl. lia.
Qed.

(** ** Resuming from the progress file *)

Lemma outbound_app : forall l1 l2, outbound (l1 ++ l2) = outbound l1 ++ outbound l2.
Proof. intros. apply filter_app. Qed.

Lemma respects_ret : forall A (x : A), respects (ret x) (ret x).
Proof. intros A x a b H. split; [reflexivity | exact H]. Qed.

Lemma respects_bind : forall A B (m1 m2 : M A) (k1 k2 : A -> M B),
  respects m1 m2 -> (forall x, respects (k1 x) (k2 x)) ->
  respects (bind m1 k1) (bind m2 k2).
Proof.
  intros A B m1 m2 k1 k2 Hm Hk a b H. unfold bind.
  destruct (Hm a b H) as [E S1].
  destruct (m1 a) as [x a1], (m2 b) as [y b1]. simpl in *. subst y.
  apply Hk, S1.
Qed.

Lemma respects_emit : forall e, respects (emit e) (emit e).
Proof.
  intros e a b [H1 [H2 [H3 H4]]]. split; [reflexivity |].
  repeat split; simpl; auto. rewrite !outbound_app. congruence.
Qed.

Lemma respects_http : forall env req, respects (http env req) (http env req).
Proof.
  intros env req a b [H1 [H2 [H3 H4]]]. split; simpl.
  - rewrite H2. reflexivity.
  - repeat split; simpl; auto. rewrite !outbound_app. congruence.
Qed.

Lemma respects_update_stats : forall f, respects (update_stats f) (update_stats f).
Proof.
  intros f a b [H1 [H2 [H3 H4]]]. split; [reflexivity |].
  repeat split; simpl; auto. congruence.
Qed.

Lemma respects_get_should_stop : respects get_should_stop get_should_stop.
Proof. intros a b H. split; [apply H | exact H]. Qed.

Ltac respects_step :=
  first
    [ apply respects_ret
    | apply respects_emit
    | apply respects_http
    | apply respects_update_stats
    | apply respects_get_should_stop
    | apply respects_bind
    | assumption
    | match goal with
      | |- forall _, _ => intro
      | |- respects (if ?c then _ else _) _ => destruct c
      | |- respects (match ?x with _ => _ end) _ => destruct x
      | |- respects (let (_, _) := ?x in _) _ => destruct x
      end ].

Ltac respects_auto := unfold sleep; repeat respects_step.

Lemma respects_search_messages : forall fuel env g c o m,
  respects (search_messages fuel env g c o m) (search_messages fuel env g c o m).
Proof.
  induction fuel as [| fuel IH]; intros env g c o m; simpl; respects_auto; apply IH.
Qed.

Lemma respects_action_result : forall ok_status attempt rep,
  respects (action_result ok_status attempt rep) (action_result ok_status attempt rep).
Proof. intros. unfold action_result. respects_auto. Qed.

Lemma respects_edit_attempts : forall env cfg ch remaining attempt i b,
  respects (edit_attempts env cfg ch remaining attempt i b)
           (edit_attempts env cfg ch remaining attempt i b).
Proof.
  induction remaining as [| remaining IH]; intros attempt i b; simpl.
  - respects_auto.
  - unfold edit_message. apply respects_bind.
    + apply respects_bind; [apply respects_http | intro; apply respects_action_result].
    + intros []; respects_auto. apply IH.
Qed.

Lemma respects_delete_attempts : forall env cfg ch remaining attempt i g b,
  respects (delete_attempts env cfg ch remaining attempt i g b)
           (delete_attempts env cfg ch remaining attempt i g b).
Proof.
  induction remaining as [| remaining IH]; intros attempt i g b; simpl.
  - respects_auto.
  - unfold delete_message. apply respects_bind.
    + apply respects_bind; [apply respects_http | intro; apply respects_action_result].
    + intros []; respects_auto. apply IH.
Qed.

Lemma respects_delete_stage : forall env cfg ch msg g b,
  respects (delete_stage env cfg ch msg g b) (delete_stage env cfg ch msg g b).
Proof.
  intros. unfold delete_stage. destruct (meow_mode cfg).
  - apply respects_bind; [apply respects_delete_attempts |]. respects_auto.
  - apply respects_bind; [apply respects_delete_attempts |]. respects_auto.
  - respects_auto.
Qed.

Lemma respects_process_message : forall env cfg ch msg b,
  respects (process_message env cfg ch msg b) (process_message env cfg ch msg b).
Proof.
  intros. unfold process_message.
  assert (H : forall g b', respects (delete_stage env cfg ch msg g b')
                                    (delete_stage env cfg ch msg g b'))
    by (intros; apply respects_delete_stage).
  destruct (meow_mode cfg); [apply H | |];
    (destruct (negb (content_is_meow msg)); [| apply H];
     apply respects_bind; [apply respects_edit_attempts |];
     intros [[s g] b']; destruct g; [apply respects_ret |];
     apply respects_bind; [destruct s; respects_auto | intro; apply H]).
Qed.

Lemma respects_process_messages : forall env cfg ch msgs oldest b,
  respects (process_messages env cfg ch msgs oldest b)
           (process_messages env cfg ch msgs oldest b).
Proof.
  induction msgs as [| msg rest IH]; intros oldest b; simpl.
  - apply respects_ret.
  - apply respects_bind; [apply respects_get_should_stop |].
    intros []; [apply respects_ret |].
    apply respects_bind; [apply respects_process_message |].
    intro. apply IH.
Qed.

Lemma respects_handle_page : forall env cfg author dry_run channel cs groups,
  respects (handle_page env cfg author dry_run channel cs groups)
           (handle_page env cfg author dry_run channel cs groups).
Proof.
  intros. unfold handle_page.
  destruct groups as [| g groups]; [respects_auto |].
  destruct (eligible cfg author (g :: groups)) as [| first others].
  - destruct (all_hit_messages author (g :: groups)); respects_auto.
  - destruct dry_run; [respects_auto |].
    apply respects_bind; [apply respects_process_messages |]. respects_auto.
Qed.

Lemma respects_process_target_loop : forall env cfg author dry_run guild channel fuel cs,
  respects (process_target_loop env cfg author dry_run guild channel fuel cs)
           (process_target_loop env cfg author dry_run guild channel fuel cs).
Proof.
  induction fuel as [| fuel IH]; intros cs; simpl.
  - apply respects_ret.
  - apply respects_bind; [apply respects_get_should_stop |].
    intros []; [apply respects_ret |].
    apply respects_bind.
    + unfold loop_body. apply respects_bind; [apply respects_search_messages |].
      intros [groups | |]; try apply respects_ret. apply respects_handle_page.
    + intros [| cs' |]; try apply respects_ret. apply IH.
Qed.

Lemma respects_set_current_target_index : forall i j,
  respects (set_current_target_index i) (set_current_target_index j).
Proof. intros i j a b H. split; [reflexivity | exact H]. Qed.

Lemma respects_save_progress : respects save_progress save_progress.
Proof.
  intros a b [H1 [H2 [H3 H4]]]. split; [reflexivity |].
  repeat split; simpl; auto.
  rewrite !outbound_app. simpl. rewrite !app_nil_r. exact H4.
Qed.

(** The loop over the targets does not depend on the index it counts from. *)
Lemma respects_run_targets : forall env cfg author dry_run fuel remaining i j,
  respects (run_targets env cfg author dry_run fuel i remaining)
           (run_targets env cfg author dry_run fuel j remaining).
Proof.
  induction remaining as [| t rest IH]; intros i j; simpl.
  - apply respects_ret.
  - apply respects_bind; [apply respects_get_should_stop |].
    intros []; [apply respects_ret |].
    apply respects_bind; [apply respects_process_target_loop |].
    intros []; [| apply respects_ret].
    apply respects_bind; [apply respects_set_current_target_index |].
    intro. apply respects_bind; [apply respects_save_progress |].
    intro. apply IH.
Qed.

Lemma load_progress_same_run : forall file,
  same_run (snd (load_progress true (init file))) (init None).
Proof.
  intros [saved |]; unfold load_progress, same_run; simpl; auto.
Qed.

(** C1, as the code has it.  A run resumed from a progress file takes the
    target index from the file and nothing else: the counters are those of
    [__init__], all zero, when the loop over the targets starts, and at the
    end they are the counts accumulated since the resume, namely the
    counters of a fresh process that runs the targets from that index on.
    The counters saved in the file have no influence on them. *)
Theorem resumed_run_counts_from_zero :
  forall env fuel c author dry_run meow skip file,
  let s := apply_overrides (cfg_settings c) meow skip in
  let k := resume_index file in
  let loaded := snd (load_progress true (init file)) in
  let resumed := snd (run_batch env fuel c author dry_run true meow skip (init file)) in
  let fresh := snd (run_targets env s author dry_run fuel 0
                      (skipn k (filter enabled (targets c))) (init None)) in
  stats loaded = zero_stats /\
  current_target_index loaded = k /\
  stats resumed = stats fresh /\
  outbound (log resumed) = outbound (log fresh).
Proof.
  intros env fuel c author dry_run meow skip file s k loaded resumed fresh.
  assert (Hk : current_target_index loaded = k).
  { subst loaded k. destruct file as [saved |]; reflexivity. }
  assert (Hsame : same_run loaded (init None)) by apply load_progress_same_run.
  split; [apply Hsame |]. split; [exact Hk |].
  assert (Hres : stats resumed = stats fresh /\
                 ncalls resumed = ncalls fresh /\
                 should_stop resumed = should_stop fresh /\
                 outbound (log resumed) = outbound (log fresh)).
  { subst resumed fresh. unfold run_batch, bind.
    fold loaded.
    replace (load_progress true (init file)) with (tt, loaded)
      by (subst loaded; destruct (load_progress true (init file)) as [[] ?]; reflexivity).
    destruct (filter enabled (targets c)) as [| t ts] eqn:E.
    - replace (skipn k []) with (@nil target) by (destruct k; reflexivity).
      exact Hsame.
    - rewrite Hk.
      destruct (respects_run_targets env s author dry_run fuel (skipn k (t :: ts)) k 0
                  Hsame) as [_ Hr].
      unfold s in Hr.
      destruct (run_targets env (apply_overrides (cfg_settings c) meow skip) author
                  dry_run fuel k (skipn k (t :: ts)) loaded) as [r st'].
      exact Hr. }
  split; apply Hres.
Qed.

(** C1 as stated fails: a progress file with index 2 and 10 deleted
    messages, five targets, and a server that has nothing left.  The resumed
    run processes the targets 2, 3 and 4, sends no delete call, and ends with
    [deleted = 0], not 10. *)
Lemma resumed_run_forgets_saved_counters :
  let saved := mkCheckpoint (Some 2%nat) (mkStats 10 0 0 0 0 0) in
  let r := run_batch nothing_left 10 five_targets "me" false true None None
                     (init (Some saved)) in
  fst r = Summary /\
  filter (fun e => match e with ESave _ => true | _ => false end) (log (snd r)) =
    [ESave 3; ESave 4; ESave 5] /\
  filter is_delete_call (log (snd r)) = [] /\
  deleted (stats (snd r)) = 0 /\
  deleted (stats (snd r)) <>
    deleted (cp_stats saved) + Z.of_nat (List.length (filter is_delete_call (log (snd r)))).
Proof.
  vm_compute. repeat split; discriminate.
Qed.

(** ** The theorems at concrete servers *)

Lemma backoff_policy_witness :
  delete_message rate_limited_once "c" 7 1 (init None) =
    (RETRY, after_backoff (EDelete "c" 7) (2 * 5) true (init None)) /\
  edit_message rate_limited_once "c" 7 MEOW_TEXT 1 (init None) =
    (RETRY, after_backoff (EEdit "c" 7 MEOW_TEXT) (2 * 5) true (init None)) /\
  search_messages 3 rate_limited_once "g" "c" 0 None (init None) =
    search_messages 2 rate_limited_once "g" "c" 0 None
      (after_backoff (ESearch "g" "c" 0 None) (2 * 5) true (init None)) /\
  search_messages 3 indexing_once "g" "c" 0 None (init None) =
    search_messages 2 indexing_once "g" "c" 0 None
      (after_backoff (ESearch "g" "c" 0 None) 5 false (init None)) /\
  delete_message indexing_once "c" 7 1 (init None) =
    (FAILED, called (EDelete "c" 7) (init None)).
Proof.
  pose (limited := @backoff_policy rate_limited_once (init None)
                     (mkResponse 429 (Some 5) None []) 5 eq_refl).
  pose (indexing := @backoff_policy indexing_once (init None)
                      (mkResponse 202 (Some 5) None []) 5 eq_refl).
  split; [| split; [| split; [| split]]].
  - apply (proj1 (proj2 limited)); reflexivity.
  - apply (proj1 (proj2 (proj2 limited))); reflexivity.
  - apply (proj1 limited); reflexivity.
  - apply (proj1 (proj2 (proj2 (proj2 indexing))) "g" "c" 0 None eq_refl eq_refl 2%nat).
  - apply (proj1 (proj2 (proj2 (proj2 (proj2 indexing))))); reflexivity.
Defined.

Lemma empty_pages_policy_witness :
  exists st',
    process_target_loop nothing_left (default_settings off) "me" false "g" "c" 4
                        initial_cursor (init None) = (Finished, st') /\
    log st' = [ESearch "g" "c" 0 None; ESleep 10; ESearch "g" "c" 0 None; ESleep 10;
               ESearch "g" "c" 0 None] /\
    stats st' = zero_stats.
Proof.
  apply (proj2 (proj2 (@empty_pages_policy nothing_left (default_settings off)
                         "me" false "g" "c")) 0%nat (init None)).
  - reflexivity.
  - intros k req Hk. reflexivity.
Defined.

Lemma edit_only_never_deletes_witness :
  exists evs,
    log (snd (process_target (archive three_messages) (default_settings edit_only) "me" 8
                (mkTarget guild "g" "c" true) false (init None))) = [] ++ evs /\
    Forall (fun e => is_delete_call e = false) evs.
Proof.
  apply (@edit_only_never_deletes (archive three_messages) (default_settings edit_only)
           "me" 8 (mkTarget guild "g" "c" true) false (init None)).
  reflexivity.
Defined.

Lemma dry_run_previews_only_witness :
  exists oldest_id,
    loop_body (archive three_messages) (default_settings off) "me" true "g" "c" 1
              initial_cursor (init None) =
      (Continue (mkCursor (Some (oldest_id - 1)) 0 3 0),
       snd (sleep 10 (called (ESearch "g" "c" 0 None) (init None)))) /\
    In oldest_id [300; 200; 100] /\
    (forall m, In m three_messages -> oldest_id <= id m).
Proof.
  apply (proj2 (@dry_run_previews_only (archive three_messages) (default_settings off) "me")
           "g" "c" 1%nat initial_cursor (init None)
           (called (ESearch "g" "c" 0 None) (init None))
           (map (fun m => [m]) three_messages)
           (own_message 300 "a") [own_message 200 "b"; own_message 100 "c"]).
  - reflexivity.
  - reflexivity.
Defined.

Lemma skipped_edit_outcome_witness :
  let cfg := default_settings edit_and_delete in
  let msg := own_message 5 "hi" in
  let st1 := called (EEdit "c" 5 MEOW_TEXT) (init None) in
  edit_attempts forbidden_edits cfg "c" 3 1 5 (mkBatch 0 0 0) (init None) =
    ((false, false, mkBatch 0 0 0), st1) /\
  process_message forbidden_edits cfg "c" msg (mkBatch 0 0 0) (init None) =
    delete_stage forbidden_edits cfg "c" msg false (mkBatch 0 0 0) st1 /\
  exists evs,
    log (snd (process_message forbidden_edits cfg "c" msg (mkBatch 0 0 0) (init None))) =
      log st1 ++ EDelete "c" 5 :: evs /\
    Forall (fun e => is_edit_call e = false) evs.
Proof.
  intros cfg msg st1.
  pose (W := @skipped_edit_outcome forbidden_edits cfg "c" msg (mkBatch 0 0 0) eq_refl).
  assert (He : edit_attempts forbidden_edits cfg "c" 3 1 5 (mkBatch 0 0 0) (init None) =
               ((false, false, mkBatch 0 0 0), st1)).
  { apply (proj1 W 2%nat 1%nat (init None) st1). reflexivity. }
  split; [exact He |].
  destruct (proj2 (proj2 W (init None) st1 (mkBatch 0 0 0) He) eq_refl) as [Hp Hd].
  split; [exact Hp |].
  apply Hd. discriminate.
Defined.

(** ** The cursor walk *)

Lemma cursor_ge_refl : forall a, cursor_ge a a.
Proof. intros [a |]; simpl; auto. lia. Qed.

Lemma cursor_ge_trans : forall a b c, cursor_ge a b -> cursor_ge b c -> cursor_ge a c.
Proof.
  intros [a |] [b |] [c |]; simpl; auto; try contradiction. lia.
Qed.

Lemma search_cursors_app : forall l1 l2,
  search_cursors (l1 ++ l2) = search_cursors l1 ++ search_cursors l2.
Proof.
  induction l1 as [| e l1 IH]; intros l2; simpl; [reflexivity |].
  destruct e; simpl; rewrite IH; reflexivity.
Qed.

Lemma search_cursors_quiet : forall l,
  Forall (fun e => is_search_call e = false) l -> search_cursors l = [].
Proof.
  induction 1 as [| e l He _ IH]; [reflexivity |].
  destruct e; simpl in *; auto. discriminate He.
Qed.

Lemma descending_weaken : forall l b b',
  cursor_ge b b' -> descending b' l -> descending b l.
Proof.
  intros [| m l] b b' Hb H; simpl in *; [auto |].
  destruct H as [H1 H2]. split; [eapply cursor_ge_trans; eassumption | exact H2].
Qed.

Lemma descending_all_ge : forall l b, descending b l -> Forall (cursor_ge b) l.
Proof.
  induction l as [| m l IH]; intros b H; [constructor |].
  destruct H as [H1 H2]. constructor; [exact H1 |].
  apply IH. eapply descending_weaken; eassumption.
Qed.

Lemma descending_app_same : forall l1 l2 b,
  Forall (fun m => m = b) l1 -> descending b l2 -> descending b (l1 ++ l2).
Proof.
  induction l1 as [| m l1 IH]; intros l2 b H1 H2; simpl; [exact H2 |].
  inversion H1 as [| ? ? Hm Hl]; subst.
  split; [apply cursor_ge_refl | apply IH; assumption].
Qed.

Lemma not_reconsidered_app_quiet : forall l1 l2,
  Forall (fun e => is_action_call e = false) l1 ->
  not_reconsidered l2 -> not_reconsidered (l1 ++ l2).
Proof.
  induction 1 as [| e l1 He _ IH]; intros H2; simpl; [exact H2 |].
  split; [| apply IH, H2].
  destruct e; simpl in *; auto; discriminate He.
Qed.

Lemma not_reconsidered_app_acts : forall l1 l2,
  Forall (fun e => is_search_call e = false) l1 ->
  Forall (acts_on (fun i => Forall (below i) (search_cursors l2))) l1 ->
  not_reconsidered l2 -> not_reconsidered (l1 ++ l2).
Proof.
  induction l1 as [| e l1 IH]; intros l2 Hq Ha H2; simpl; [exact H2 |].
  inversion Hq as [| ? ? Hq1 Hq2]; inversion Ha as [| ? ? Ha1 Ha2]; subst.
  split; [| apply IH; assumption].
  rewrite search_cursors_app, (search_cursors_quiet Hq2). simpl.
  exact Ha1.
Qed.

(** A page that [search_messages] returns is the body of a reply that the
    server gave to this very request. *)
Lemma search_result_origin : forall env g c o m fuel st groups st1,
  search_messages fuel env g c o m st = (Page groups, st1) ->
  exists n r, env n (ESearch g c o m) = Response r /\ groups = messages r.
Proof.
  intros env g c o m.
  induction fuel as [| fuel IH]; intros st groups st1 H; simpl in H.
  - discriminate H.
  - unfold bind at 1, http at 1 in H.
    destruct (env (ncalls st) (ESearch g c o m)) as [r |] eqn:E; [| discriminate H].
    destruct (status_code r =? 429).
    { unfold bind, update_stats, sleep, emit in H. simpl in H.
      eapply IH. exact H. }
    destruct (status_code r =? 202).
    { unfold bind, sleep, emit in H. simpl in H. eapply IH. exact H. }
    destruct ((400 <=? status_code r) && (status_code r <? 600)); [discriminate H |].
    injection H as <- _. eauto.
Qed.

Lemma search_phase_cursors : forall g c o m evs,
  Forall (search_phase g c o m) evs ->
  Forall (fun m' => m' = m) (search_cursors evs) /\
  Forall (fun e => is_action_call e = false) evs.
Proof.
  induction 1 as [| e evs He _ [IH1 IH2]]; [split; constructor |].
  destruct He as [-> | [s ->]]; simpl; split; auto.
Qed.

Lemma search_messages_events : forall env g c o m fuel st,
  exists evs,
    log (snd (search_messages fuel env g c o m st)) = log st ++ evs /\
    Forall (search_phase g c o m) evs /\
    should_stop (snd (search_messages fuel env g c o m st)) = should_stop st.
Proof.
  intros env g c o m fuel st.
  destruct (@preserves_search_messages (search_phase g c o m) any_counters
              any_counters_refl any_counters_trans
              (fun s => or_intror (ex_intro _ s eq_refl))
              (any_counters_inc inc_rate_limited)
              env g c o m (or_introl eq_refl) fuel st) as [[evs [L F]] [_ S]].
  exists evs. auto.
Qed.

(** The executor never writes the stop flag. *)
Lemma process_message_should_stop : forall env cfg ch msg b st,
  should_stop (snd (process_message env cfg ch msg b st)) = should_stop st.
Proof.
  intros env cfg ch msg b st.
  destruct (@preserves_process_message (fun _ => True) any_counters
              any_counters_refl any_counters_trans (fun _ => I)
              (any_counters_inc inc_rate_limited) (any_counters_inc inc_deleted)
              (any_counters_inc inc_edited) (any_counters_inc inc_failed)
              (any_counters_inc inc_skipped) (any_counters_inc inc_ghosts)
              env cfg ch msg (or_intror I) (or_intror I) b st) as [_ [_ S]].
  exact S.
Qed.

Lemma track_oldest_fold : forall l a,
  fold_left track_oldest l (Some a) = Some (fold_left Z.min l a).
Proof.
  induction l as [| x l IH]; intros a; simpl; [reflexivity |].
  destruct (Z.ltb_spec x a).
  - rewrite IH. f_equal. f_equal. lia.
  - rewrite IH. f_equal. f_equal. lia.
Qed.

(** With the stop flag down, the [for] loop goes through all the messages
    and ends with the least of their ids. *)
Lemma process_messages_oldest : forall env cfg ch msgs oldest b st,
  should_stop st = false ->
  fst (fst (process_messages env cfg ch msgs oldest b st)) =
  fold_left track_oldest (map id msgs) oldest.
Proof.
  intros env cfg ch.
  induction msgs as [| msg rest IH]; intros oldest b st Hstop; simpl; [reflexivity |].
  unfold bind at 1, get_should_stop at 1. rewrite Hstop.
  unfold bind at 1.
  pose proof (process_message_should_stop env cfg ch msg b st) as S.
  destruct (process_message env cfg ch msg b st) as [b' st']. simpl in S.
  apply IH. congruence.
Qed.

Lemma process_messages_stopped : forall env cfg ch msgs oldest b st,
  should_stop st = true ->
  process_messages env cfg ch msgs oldest b st = ((oldest, b), st).
Proof.
  intros env cfg ch [| msg rest] oldest b st Hstop; simpl; [reflexivity |].
  unfold bind, get_should_stop. rewrite Hstop. reflexivity.
Qed.

(** The scan for the oldest hit of a page. *)
Lemma oldest_hit_scan : forall l acc,
  match fold_left
          (fun oldest_id msg =>
             if hit msg then
               match oldest_id with
               | None => Some (id msg)
               | Some o => if id msg <? o then Some (id msg) else oldest_id
               end
             else oldest_id) l acc with
  | None => acc = None /\ forall m, In m l -> hit m = false
  | Some o =>
    (acc = Some o \/ exists m, In m l /\ hit m = true /\ id m = o) /\
    (forall m, In m l -> hit m = true -> o <= id m) /\
    (forall a, acc = Some a -> o <= a)
  end.
Proof.
  induction l as [| x l IH]; intros acc; simpl.
  - destruct acc as [a |]; [| split; [reflexivity | intros m []]].
    split; [auto | split; [contradiction |]]. intros a' E. injection E as <-. lia.
  - match goal with |- context [fold_left ?f l ?acc'] =>
      specialize (IH acc'); destruct (fold_left f l acc') as [o |] end.
    + destruct IH as [H1 [H2 H3]].
      destruct (hit x) eqn:Hx.
      * destruct acc as [a |].
        -- destruct (Z.ltb_spec (id x) a).
           ++ split; [| split].
              ** right. destruct H1 as [E | [m [Hin [Hh Hi]]]].
                 --- injection E as <-. exists x. auto.
                 --- exists m. auto.
              ** intros m [<- | Hin] Hh; [apply H3; reflexivity | auto].
              ** intros a' E. injection E as <-. specialize (H3 _ eq_refl). lia.
           ++ split; [| split].
              ** destruct H1 as [E | [m [Hin [Hh Hi]]]]; [left; exact E |].
                 right. exists m. auto.
              ** intros m [<- | Hin] Hh; [specialize (H3 _ eq_refl); lia | auto].
              ** exact H3.
        -- split; [| split].
           ++ right. destruct H1 as [E | [m [Hin [Hh Hi]]]].
              ** injection E as <-. exists x. auto.
              ** exists m. auto.
           ++ intros m [<- | Hin] Hh; [apply H3; reflexivity | auto].
           ++ discriminate.
      * split; [| split].
        -- destruct H1 as [E | [m [Hin [Hh Hi]]]]; [left; exact E |].
           right. exists m. auto.
        -- intros m [<- | Hin] Hh; [congruence | auto].
        -- exact H3.
    + destruct IH as [H1 H2].
      destruct (hit x) eqn:Hx.
      * destruct acc as [a |]; [destruct (id x <? a) |]; discriminate H1.
      * split; [exact H1 |]. intros m [<- | Hin]; auto.
Qed.

Lemma oldest_hit_id_spec : forall groups,
  match oldest_hit_id groups with
  | None => forall m, In m (List.concat groups) -> hit m = false
  | Some o =>
    (exists m, In m (List.concat groups) /\ hit m = true /\ id m = o) /\
    (forall m, In m (List.concat groups) -> hit m = true -> o <= id m)
  end.
Proof.
  intros groups. unfold oldest_hit_id.
  pose proof (oldest_hit_scan (List.concat groups) None) as H.
  match goal with |- context [fold_left ?f ?l ?a] =>
    change (fold_left f l a) with (fold_left f l a) in H;
    destruct (fold_left f l a) as [o |] end.
  - destruct H as [[E | H1] [H2 _]]; [discriminate E | auto].
  - apply H.
Qed.

Lemma is_own_hit_hit : forall author m, is_own_hit author m = true -> hit m = true.
Proof.
  intros author m H. unfold is_own_hit in H. apply andb_true_iff in H. apply H.
Qed.

Lemma advancing_batch_hits : forall cfg author groups m,
  In m (advancing_batch cfg author groups) ->
  In m (List.concat groups) /\ hit m = true.
Proof.
  intros cfg author groups m. unfold advancing_batch.
  assert (Hall : In m (all_hit_messages author groups) ->
                 In m (List.concat groups) /\ hit m = true).
  { intros H. apply all_hit_messages_iff in H. destruct H as [H1 H2].
    split; [exact H1 | eapply is_own_hit_hit; exact H2]. }
  destruct (eligible cfg author groups) as [| e es] eqn:E.
  - destruct (all_hit_messages author groups) as [| h hs] eqn:A.
    + intros H. apply filter_In in H. exact H.
    + exact Hall.
  - intros H. apply Hall. rewrite <- E in H. apply eligible_iff in H. apply H.
Qed.

Lemma handle_page_events : forall env cfg author dry_run channel cs groups st,
  exists evs,
    log (snd (handle_page env cfg author dry_run channel cs groups st)) = log st ++ evs /\
    should_stop (snd (handle_page env cfg author dry_run channel cs groups st)) =
      should_stop st /\
    Forall (page_phase cfg author dry_run groups) evs.
Proof.
  intros env cfg author dry_run channel cs groups st.
  destruct (@preserves_handle_page (page_phase cfg author dry_run groups) any_counters
              any_counters_refl any_counters_trans
              (fun _ => conj eq_refl I) env cfg author dry_run channel cs groups)
    with (st := st) as [[evs [L F]] [_ S]].
  - destruct dry_run; [left; reflexivity | right].
    apply preserves_process_messages; auto with engine.
    + intros s. split; [reflexivity | exact I].
    + intros msg Hin. split; right; (split; [reflexivity |]); simpl; eauto.
  - exists evs. auto.
Qed.

Lemma page_phase_quiet : forall cfg author dry_run groups evs,
  Forall (page_phase cfg author dry_run groups) evs ->
  Forall (fun e => is_search_call e = false) evs.
Proof. intros. eapply Forall_impl; [| eassumption]. intros e [H1 _]. exact H1. Qed.

Lemma page_phase_no_action : forall cfg author dry_run groups evs,
  dry_run = true \/ eligible cfg author groups = [] ->
  Forall (page_phase cfg author dry_run groups) evs ->
  Forall (fun e => is_action_call e = false) evs.
Proof.
  intros cfg author dry_run groups evs Hno H.
  eapply Forall_impl; [| exact H].
  intros e [_ Ha].
  destruct e; try reflexivity; simpl in Ha; destruct Ha as [Hd [m [Hin _]]];
    (destruct Hno as [Hdry | He]; [congruence | rewrite He in Hin; contradiction]).
Qed.

Lemma page_phase_above : forall cfg author dry_run groups evs c,
  (forall m, In m (eligible cfg author groups) -> c < id m) ->
  Forall (page_phase cfg author dry_run groups) evs ->
  Forall (acts_on (fun i => c < i)) evs.
Proof.
  intros cfg author dry_run groups evs c Hc H.
  eapply Forall_impl; [| exact H].
  intros e [_ Ha].
  destruct e; simpl in *; auto; destruct Ha as [_ [m [Hin <-]]]; auto.
Qed.

Lemma no_action_above : forall evs c,
  Forall (fun e => is_action_call e = false) evs ->
  Forall (acts_on (fun i => c < i)) evs.
Proof.
  intros evs c H. eapply Forall_impl; [| exact H].
  intros e He. destruct e; simpl in *; auto; discriminate He.
Qed.

Lemma min_id_advanced : forall cfg author groups first others cs' evs,
  advancing_batch cfg author groups = first :: others ->
  max_id_cursor cs' = Some (min_id first others - 1) ->
  offset cs' = 0 ->
  Forall (acts_on (fun i => min_id first others - 1 < i)) evs ->
  advanced cfg author groups cs' evs.
Proof.
  intros cfg author groups first others cs' evs Hb Hc Ho Ha.
  exists (min_id first others - 1). rewrite Hb.
  split; [exact Hc | split; [exact Ho | split; [| split; [| exact Ha]]]].
  - replace (min_id first others - 1 + 1) with (min_id first others) by lia.
    apply min_id_in.
  - intros m Hm. pose proof (@min_id_le first others m Hm). lia.
Qed.

(** One page, handled with the stop flag down. *)
Lemma handle_page_turn : forall env cfg author dry_run channel cs groups st step st',
  should_stop st = false ->
  handle_page env cfg author dry_run channel cs groups st = (step, st') ->
  exists evs,
    log st' = log st ++ evs /\
    should_stop st' = false /\
    Forall (fun e => is_search_call e = false) evs /\
    match step with
    | Continue cs' =>
      (max_id_cursor cs' = max_id_cursor cs /\
       Forall (fun e => is_action_call e = false) evs /\
       stalled groups cs cs') \/
      (advanced cfg author groups cs' evs /\ empty_pages cs' = 0%nat)
    | _ => Forall (fun e => is_action_call e = false) evs
    end.
Proof.
  intros env cfg author dry_run channel cs groups st step st' Hstop H.
  destruct (handle_page_events env cfg author dry_run channel cs groups st)
    as [evs [L [Hs F]]].
  rewrite H in L, Hs. simpl in L, Hs.
  exists evs. split; [exact L |]. split; [congruence |].
  split; [eapply page_phase_quiet; exact F |].
  unfold handle_page in H.
  destruct groups as [| g groups].
  { assert (Hq : Forall (fun e => is_action_call e = false) evs)
      by (eapply page_phase_no_action; [| exact F]; right; reflexivity).
    destruct (Nat.leb_spec MAX_EMPTY_PAGES (S (empty_pages cs)));
      unfold bind, sleep, emit, ret in H; simpl in H; injection H as <- <-; auto.
    left. split; [reflexivity | split; [exact Hq |]].
    left. simpl. auto. }
  assert (Hne : g :: groups <> []) by discriminate.
  destruct (eligible cfg author (g :: groups)) as [| first others] eqn:E.
  - assert (Hq : Forall (fun e => is_action_call e = false) evs)
      by (eapply page_phase_no_action; [| exact F]; right; exact E).
    destruct (all_hit_messages author (g :: groups)) as [| h hs] eqn:A.
    + pose proof (oldest_hit_id_spec (g :: groups)) as Ho.
      destruct (oldest_hit_id (g :: groups)) as [o |] eqn:Eo.
      * destruct (Z.eqb_spec o 0) as [-> | Hnz];
          unfold bind, sleep, emit, ret in H; simpl in H; injection H as <- <-.
        { left. split; [reflexivity | split; [exact Hq |]].
          right. simpl. auto. }
        right. split; [| reflexivity].
        destruct Ho as [[m [Hin [Hh Hi]]] Hle].
        exists (o - 1). simpl. unfold advancing_batch. rewrite E, A.
        split; [reflexivity | split; [reflexivity | split; [| split]]].
        -- replace (o - 1 + 1) with o by lia. rewrite <- Hi.
           apply in_map, filter_In. auto.
        -- intros m' Hm'. apply filter_In in Hm'. destruct Hm' as [H1 H2].
           specialize (Hle m' H1 H2). lia.
        -- apply no_action_above, Hq.
      * unfold bind, sleep, emit, ret in H; simpl in H; injection H as <- <-.
        left. split; [reflexivity | split; [exact Hq |]].
        right. simpl. auto.
    + unfold bind, sleep, emit, ret in H; simpl in H; injection H as <- <-.
      right. split; [| reflexivity].
      apply min_id_advanced with (first := h) (others := hs); try reflexivity.
      * unfold advancing_batch. rewrite E, A. reflexivity.
      * apply no_action_above, Hq.
  - assert (Hb : advancing_batch cfg author (g :: groups) = first :: others).
    { unfold advancing_batch. rewrite E. reflexivity. }
    destruct dry_run.
    + unfold bind, sleep, emit, ret in H; simpl in H; injection H as <- <-.
      right. split; [| reflexivity].
      apply min_id_advanced with (first := first) (others := others);
        try reflexivity; [exact Hb |].
      apply no_action_above. eapply page_phase_no_action; [| exact F]. left; reflexivity.
    + unfold bind at 1 in H.
      pose proof (process_messages_oldest env cfg channel (first :: others) None
                    (mkBatch 0 0 0) st Hstop) as Ho.
      destruct (process_messages env cfg channel (first :: others) None (mkBatch 0 0 0) st)
        as [[oldest b] st2].
      simpl in Ho. rewrite track_oldest_fold in Ho. subst oldest.
      unfold bind, sleep, emit, ret in H; simpl in H; injection H as <- <-.
      right. split; [| reflexivity].
      apply min_id_advanced with (first := first) (others := others);
        try reflexivity; [exact Hb |].
      eapply page_phase_above; [| exact F].
      rewrite E. intros m Hm. pose proof (@min_id_le first others m Hm). lia.
Qed.

Lemma no_action_acts_on : forall (ok : Z -> Prop) evs,
  Forall (fun e => is_action_call e = false) evs -> Forall (acts_on ok) evs.
Proof.
  intros ok evs H. eapply Forall_impl; [| exact H].
  intros e He. destruct e; simpl in *; auto; discriminate He.
Qed.

Lemma below_cursor_ge : forall i c m, c < i -> cursor_ge (Some c) m -> below i m.
Proof.
  intros i c [q |] Hc Hge; simpl in Hge; [| contradiction].
  exists q. split; [reflexivity | lia].
Qed.

Section Walk.

Variable env : env_t.
Variable cfg : settings.
Variable author : string.
Variable dry_run : bool.
Variable guild channel : string.

Hypothesis server_honours_bound : honours_bound env.

(** One turn of the loop: the searches all carry the cursor of the turn,
    the page phase sends no search, the cursor that the turn leaves is not
    above the one it started with, and the edit and delete calls of the turn
    are for ids above the cursor it leaves. *)
Lemma loop_body_turn : forall fuel cs st step st',
  should_stop st = false ->
  loop_body env cfg author dry_run guild channel fuel cs st = (step, st') ->
  exists evs_s evs_p,
    log st' = log st ++ evs_s ++ evs_p /\
    should_stop st' = false /\
    Forall (search_phase guild channel (offset cs) (max_id_cursor cs)) evs_s /\
    Forall (fun e => is_search_call e = false) evs_p /\
    match step with
    | Continue cs' =>
      cursor_ge (max_id_cursor cs) (max_id_cursor cs') /\
      Forall (acts_on (fun i => below i (max_id_cursor cs'))) evs_p
    | _ => Forall (fun e => is_action_call e = false) evs_p
    end.
Proof.
  intros fuel cs st step st' Hstop H.
  unfold loop_body, bind at 1 in H.
  destruct (search_messages_events env guild channel (offset cs) (max_id_cursor cs) fuel st)
    as [evs_s [L1 [F1 S1]]].
  destruct (search_messages fuel env guild channel (offset cs) (max_id_cursor cs) st)
    as [res st1] eqn:Es.
  simpl in L1, S1. rewrite Hstop in S1.
  destruct res as [groups | |].
  - destruct (@handle_page_turn _ _ _ _ _ _ _ _ _ _ S1 H) as [evs_p [L2 [S2 [Q2 T2]]]].
    exists evs_s, evs_p. rewrite L2, L1, app_assoc.
    split; [reflexivity |]. split; [exact S2 |]. split; [exact F1 |].
    split; [exact Q2 |].
    destruct step as [| cs' |]; try exact T2.
    destruct T2 as [[Hsame [Hq _]] | [[c [Hc [_ [Hin [_ Ha]]]]] _]].
    + rewrite Hsame. split; [apply cursor_ge_refl | apply no_action_acts_on, Hq].
    + rewrite Hc. split.
      * destruct (max_id_cursor cs) as [c0 |] eqn:Ec; simpl; [| exact I].
        apply in_map_iff in Hin. destruct Hin as [m [Hid Hm]].
        apply advancing_batch_hits in Hm. destruct Hm as [Hm Hh].
        destruct (@search_result_origin _ _ _ _ _ _ _ _ _ Es) as [n [r [Er ->]]].
        assert (id m < c0) by (eapply server_honours_bound; [exact Er | exact Hm | exact Hh]).
        lia.
      * eapply Forall_impl; [| exact Ha].
        intros e He. destruct e; simpl in *; auto;
          (exists c; split; [reflexivity | exact He]).
  - unfold ret in H. injection H as <- <-.
    exists evs_s, []. rewrite app_nil_r. repeat split; auto.
  - unfold ret in H. injection H as <- <-.
    exists evs_s, []. rewrite app_nil_r. repeat split; auto.
Qed.

Lemma turn_cursors : forall g c o m evs_s evs_p rest,
  Forall (search_phase g c o m) evs_s ->
  Forall (fun e => is_search_call e = false) evs_p ->
  descending m (search_cursors rest) ->
  descending m (search_cursors (evs_s ++ evs_p ++ rest)).
Proof.
  intros g c o m evs_s evs_p rest Hs Hp Hr.
  rewrite !search_cursors_app, (search_cursors_quiet Hp). simpl.
  apply descending_app_same; [apply (proj1 (search_phase_cursors Hs)) | exact Hr].
Qed.

(** The log of the walk over one target, however long it is followed. *)
Lemma walk_invariant : forall fuel cs st,
  exists evs,
    log (snd (process_target_loop env cfg author dry_run guild channel fuel cs st)) =
      log st ++ evs /\
    descending (max_id_cursor cs) (search_cursors evs) /\
    not_reconsidered evs.
Proof.
  induction fuel as [| fuel IH]; intros cs st.
  { exists []. simpl. rewrite app_nil_r. auto. }
  cbn [process_target_loop]. unfold bind at 1, get_should_stop at 1.
  destruct (should_stop st) eqn:Hstop.
  { exists []. simpl. rewrite app_nil_r. auto. }
  unfold bind at 1.
  destruct (loop_body env cfg author dry_run guild channel fuel cs st) as [step st1] eqn:Eb.
  destruct (@loop_body_turn _ _ _ _ _ Hstop Eb) as [evs_s [evs_p [L [_ [Fs [Fp T]]]]]].
  assert (Hend : Forall (fun e => is_action_call e = false) evs_p ->
            descending (max_id_cursor cs) (search_cursors (evs_s ++ evs_p)) /\
            not_reconsidered (evs_s ++ evs_p)).
  { intros Hq. split.
    - rewrite <- (app_nil_r evs_p). eapply turn_cursors; eauto. exact I.
    - apply not_reconsidered_app_quiet; [apply (proj2 (search_phase_cursors Fs)) |].
      rewrite <- (app_nil_r evs_p). apply not_reconsidered_app_quiet; [exact Hq | exact I]. }
  destruct step as [| cs' |].
  - exists (evs_s ++ evs_p). split; [exact L | apply Hend, T].
  - destruct (IH cs' st1) as [rest [Lr [Dr Nr]]]. destruct T as [Hge Ha].
    exists (evs_s ++ evs_p ++ rest). split; [| split].
    + rewrite Lr, L, <- !app_assoc. reflexivity.
    + eapply turn_cursors; eauto. eapply descending_weaken; eassumption.
    + apply not_reconsidered_app_quiet; [apply (proj2 (search_phase_cursors Fs)) |].
      apply not_reconsidered_app_acts; [exact Fp | | exact Nr].
      eapply Forall_impl; [| exact Ha].
      intros e He.
      assert (Hall : forall i, below i (max_id_cursor cs') ->
                Forall (below i) (search_cursors rest)).
      { intros i [c [Ec Hc]]. rewrite Ec in Dr.
        eapply Forall_impl; [| apply descending_all_ge, Dr].
        intros m Hm. eapply below_cursor_ge; eassumption. }
      destruct e; simpl in *; auto.
  - exists (evs_s ++ evs_p). split; [exact L | apply Hend, T].
Qed.

End Walk.

(** ** Termination of the walk *)

Lemma handle_page_returns : forall env cfg author dry_run channel cs groups st,
  fst (handle_page env cfg author dry_run channel cs groups st) <> StepOutOfFuel.
Proof.
  intros env cfg author dry_run channel cs groups st. unfold handle_page.
  destruct groups as [| g gs].
  - destruct (MAX_EMPTY_PAGES <=? S (empty_pages cs))%nat;
      unfold bind, sleep, emit, ret; simpl; discriminate.
  - destruct (eligible cfg author (g :: gs)).
    + destruct (all_hit_messages author (g :: gs));
        unfold bind, sleep, emit, ret; simpl; discriminate.
    + destruct dry_run.
      * unfold bind, sleep, emit, ret; simpl; discriminate.
      * unfold bind at 1.
        destruct (process_messages env cfg channel (m :: l) None (mkBatch 0 0 0) st)
          as [[oldest b0] st2].
        unfold bind, sleep, emit, ret; simpl; discriminate.
Qed.

Section Termination.

Variable env : env_t.
Variable cfg : settings.
Variable author : string.
Variable dry_run : bool.
Variable guild channel : string.
Variable b : nat.

Hypothesis server_honours_bound : honours_bound env.
Hypothesis server_answers : answers_within b env.
Hypothesis server_pages : pages_hold_hits env.

(** A search that meets [j] backoff signals is [j + 1] calls, and gives the
    same result whatever larger fuel it is given. *)
Lemma search_messages_settles : forall j g c o m st,
  (forall i, (i < j)%nat -> backoff_signal (env (ncalls st + i)%nat (ESearch g c o m))) ->
  ~ backoff_signal (env (ncalls st + j)%nat (ESearch g c o m)) ->
  exists res st',
    res <> SearchOutOfFuel /\
    forall fuel, (j < fuel)%nat -> search_messages fuel env g c o m st = (res, st').
Proof.
  induction j as [| j IH]; intros g c o m st Hback Hans.
  - rewrite Nat.add_0_r in Hans.
    destruct (env (ncalls st) (ESearch g c o m)) as [r |] eqn:E.
    + assert (H429 : status_code r <> 429).
      { intros Hs. apply Hans. exists r. auto. }
      assert (H202 : status_code r <> 202).
      { intros Hs. apply Hans. exists r. auto. }
      exists (if (400 <=? status_code r) && (status_code r <? 600)
              then SearchRaised else Page (messages r)),
             (called (ESearch g c o m) st).
      split; [destruct ((400 <=? status_code r) && (status_code r <? 600)); discriminate |].
      intros [| fuel] Hf; [lia |].
      simpl. unfold bind, http. rewrite E.
      destruct (Z.eqb_spec (status_code r) 429); [contradiction |].
      destruct (Z.eqb_spec (status_code r) 202); [contradiction |].
      destruct ((400 <=? status_code r) && (status_code r <? 600)); reflexivity.
    + exists SearchRaised, (called (ESearch g c o m) st).
      split; [discriminate |].
      intros [| fuel] Hf; [lia |].
      simpl. unfold bind, http. rewrite E. reflexivity.
  - destruct (Hback 0%nat ltac:(lia)) as [r [E Hs]].
    rewrite Nat.add_0_r in E.
    assert (Hnext : forall st2, ncalls st2 = S (ncalls st) ->
      exists res st',
        res <> SearchOutOfFuel /\
        forall fuel, (j < fuel)%nat -> search_messages fuel env g c o m st2 = (res, st')).
    { intros st2 Hn. apply IH.
      - intros i Hi. rewrite Hn.
        replace (S (ncalls st) + i)%nat with (ncalls st + S i)%nat by lia.
        apply Hback. lia.
      - rewrite Hn.
        replace (S (ncalls st) + j)%nat with (ncalls st + S j)%nat by lia.
        exact Hans. }
    destruct Hs as [Hs | Hs].
    + destruct (Hnext (after_backoff (ESearch g c o m) (get_retry_after r 40 * 2) true st)
                  eq_refl) as [res [st' [Hne Hall]]].
      exists res, st'. split; [exact Hne |].
      intros [| fuel] Hf; [lia |].
      rewrite (search_messages_429 _ _ _ _ _ _ _ E Hs). apply Hall. lia.
    + destruct (Hnext (after_backoff (ESearch g c o m) (get_retry_after r 5) false st)
                  eq_refl) as [res [st' [Hne Hall]]].
      exists res, st'. split; [exact Hne |].
      intros [| fuel] Hf; [lia |].
      rewrite (search_messages_202 _ _ _ _ _ _ _ E Hs). apply Hall. lia.
Qed.

(** A turn of the loop gives the same result for every fuel above [b], and
    that result is not the end of the fuel. *)
Lemma loop_body_settles : forall cs st,
  exists step st',
    step <> StepOutOfFuel /\
    forall fuel, (b < fuel)%nat ->
      loop_body env cfg author dry_run guild channel fuel cs st = (step, st').
Proof.
  intros cs st.
  destruct (server_answers (ncalls st) guild channel (offset cs) (max_id_cursor cs))
    as [j [Hj [Hback Hans]]].
  destruct (@search_messages_settles j guild channel (offset cs) (max_id_cursor cs) st
              Hback Hans) as [res [st1 [Hne Hall]]].
  destruct res as [groups | |]; [| | congruence].
  - pose proof (handle_page_returns env cfg author dry_run channel cs groups st1) as Hr.
    destruct (handle_page env cfg author dry_run channel cs groups st1) as [step st2] eqn:Eh.
    exists step, st2. split; [exact Hr |].
    intros fuel Hf. unfold loop_body, bind. rewrite (Hall fuel) by lia. exact Eh.
  - exists Break, st1. split; [discriminate |].
    intros fuel Hf. unfold loop_body, bind. rewrite (Hall fuel) by lia. reflexivity.
Qed.

(** What one turn does to the cursor when the pages hold hits. *)
Lemma turn_progress : forall fuel cs st cs' st',
  should_stop st = false ->
  loop_body env cfg author dry_run guild channel fuel cs st = (Continue cs', st') ->
  should_stop st' = false /\
  ((max_id_cursor cs' = max_id_cursor cs /\
    empty_pages cs' = S (empty_pages cs) /\ (empty_pages cs' < 3)%nat) \/
   (exists c, max_id_cursor cs' = Some c /\ 0 <= c /\ empty_pages cs' = 0%nat /\
              forall c0, max_id_cursor cs = Some c0 -> c + 1 < c0)).
Proof.
  intros fuel cs st cs' st' Hstop H.
  unfold loop_body, bind at 1 in H.
  destruct (search_messages_events env guild channel (offset cs) (max_id_cursor cs) fuel st)
    as [evs_s [_ [_ S1]]].
  destruct (search_messages fuel env guild channel (offset cs) (max_id_cursor cs) st)
    as [res st1] eqn:Es.
  simpl in S1. rewrite Hstop in S1.
  destruct res as [groups | |]; [| discriminate H | discriminate H].
  destruct (@search_result_origin _ _ _ _ _ _ _ _ _ Es) as [n [r [E ->]]].
  destruct (@handle_page_turn _ _ _ _ _ _ _ _ _ _ S1 H) as [evs [_ [S2 [_ T]]]].
  split; [exact S2 |].
  destruct T as [[Hsame [_ Hst]] | [[c [Hc [_ [Hin _]]]] He]].
  - destruct Hst as [[_ [He [Hlt _]]] | [Hne [_ Hold]]].
    + left. unfold MAX_EMPTY_PAGES in Hlt. split; [exact Hsame | split; [exact He | lia]].
    + exfalso.
      destruct (server_pages E Hne) as [[x [Hx Hh]] Hpos].
      pose proof (oldest_hit_id_spec (messages r)) as Ho.
      destruct Hold as [Hn | Hz]; rewrite ?Hn, ?Hz in Ho.
      * rewrite (Ho x Hx) in Hh. discriminate Hh.
      * destruct Ho as [[m [Hm [Hmh Hmi]]] _].
        specialize (Hpos m Hm Hmh). lia.
  - right. exists c.
    apply in_map_iff in Hin. destruct Hin as [m [Hid Hm]].
    apply advancing_batch_hits in Hm. destruct Hm as [Hm Hh].
    assert (Hne : messages r <> []).
    { intros Hnil. rewrite Hnil in Hm. contradiction Hm. }
    destruct (server_pages E Hne) as [_ Hpos].
    specialize (Hpos m Hm Hh).
    split; [exact Hc | split; [lia | split; [exact He |]]].
    intros c0 Hc0. rewrite Hc0 in E.
    assert (id m < c0) by (eapply server_honours_bound; [exact E | exact Hm | exact Hh]).
    lia.
Qed.

(** From a cursor that is set, the number of turns is bounded by the
    cursor: each turn ends the loop, uses up one of the three empty pages, or
    lowers the cursor. *)
Lemma walk_terminates_below : forall fuel cs st c,
  max_id_cursor cs = Some c ->
  should_stop st = false ->
  (empty_pages cs <= 2)%nat ->
  (b + 3 * Z.to_nat c + (3 - empty_pages cs) < fuel)%nat ->
  fst (process_target_loop env cfg author dry_run guild channel fuel cs st) = Finished.
Proof.
  induction fuel as [| fuel IH]; intros cs st c Hc Hstop He Hfuel; [lia |].
  rewrite process_target_loop_step by assumption.
  destruct (loop_body_settles cs st) as [step [st1 [Hne Hall]]].
  assert (Eb : loop_body env cfg author dry_run guild channel fuel cs st = (step, st1))
    by (apply Hall; lia).
  rewrite Eb.
  destruct step as [| cs' |]; [reflexivity | | congruence].
  destruct (@turn_progress _ _ _ _ _ Hstop Eb)
    as [S1 [[Hsame [He' Hlt]] | [c' [Hc' [Hpos [He' Hlt]]]]]].
  - apply IH with (c := c); try assumption; [congruence | lia | lia].
  - specialize (Hlt c Hc).
    apply IH with (c := c'); try assumption; lia.
Qed.

(** From the start (no cursor yet), at most three turns go by before the
    loop ends or the cursor is set. *)
Lemma walk_terminates_fresh : forall n cs st,
  max_id_cursor cs = None ->
  should_stop st = false ->
  (empty_pages cs + n = 3)%nat -> (1 <= n)%nat ->
  exists N, forall fuel, (N <= fuel)%nat ->
    fst (process_target_loop env cfg author dry_run guild channel fuel cs st) = Finished.
Proof.
  induction n as [| n IH]; intros cs st Hc Hstop He Hn; [lia |].
  destruct (loop_body_settles cs st) as [step [st1 [Hne Hall]]].
  assert (Hturn : forall f, (b < f)%nat ->
    process_target_loop env cfg author dry_run guild channel (S f) cs st =
    match step with
    | Break => (Finished, st1)
    | Continue cs' => process_target_loop env cfg author dry_run guild channel f cs' st1
    | StepOutOfFuel => (OutOfFuel, st1)
    end).
  { intros f Hf. rewrite process_target_loop_step by assumption.
    rewrite (Hall f Hf). reflexivity. }
  destruct step as [| cs' |]; [| | congruence].
  - exists (S (S b)). intros fuel Hf.
    destruct fuel as [| f]; [lia |]. rewrite Hturn by lia. reflexivity.
  - destruct (@turn_progress _ _ _ _ _ Hstop (Hall (S b) ltac:(lia)))
      as [S1 [[Hsame [He' Hlt]] | [c' [Hc' [Hpos [He' _]]]]]].
    + destruct (IH cs' st1) as [N HN]; try assumption; try congruence; try lia.
      exists (S (S (b + N))). intros fuel Hf.
      destruct fuel as [| f]; [lia |]. rewrite Hturn by lia. apply HN. lia.
    + exists (S (S (b + 3 * Z.to_nat c' + 3))). intros fuel Hf.
      destruct fuel as [| f]; [lia |]. rewrite Hturn by lia.
      apply walk_terminates_below with (c := c'); try assumption; lia.
Qed.

(** The walk over a target ends: there is a number of turns that is enough,
    and any larger fuel gives the same end. *)
Lemma walk_terminates : forall cs st,
  (empty_pages cs <= 2)%nat ->
  exists N, forall fuel, (N <= fuel)%nat ->
    fst (process_target_loop env cfg author dry_run guild channel fuel cs st) = Finished.
Proof.
  intros cs st He.
  destruct (should_stop st) eqn:Hstop.
  { exists 1%nat. intros fuel Hf. destruct fuel as [| f]; [lia |].
    cbn [process_target_loop]. unfold bind, get_should_stop. rewrite Hstop. reflexivity. }
  destruct (max_id_cursor cs) as [c |] eqn:Hc.
  - exists (S (b + 3 * Z.to_nat c + (3 - empty_pages cs))). intros fuel Hf.
    apply walk_terminates_below with (c := c); try assumption; lia.
  - apply walk_terminates_fresh with (n := (3 - empty_pages cs)%nat); try assumption; lia.
Qed.

End Termination.

(** ** The walk, in one statement *)

(** C4, as the code has it.  Whenever a turn changes the cursor, the new
    [max_id] is one below the least id of the batch that the turn handled, so
    strictly below every id of the batch and of every edit or delete call of
    the turn, and the offset is back at 0.  When the server returns only hits
    older than the [max_id] it is sent, the [max_id] values of the successive
    search calls of a target never go up (the same value is sent again when a
    search is retried), each change of the cursor is a strict decrease, and
    every search that follows an edit or a delete call has its cursor under
    the id of that call, so that the message is not returned again.  When in
    addition the server answers every search after at most [b] backoff
    signals, for some [b], and every page with groups holds a hit, ids being
    positive, the walk ends.  (A retry of a search is a call of
    [search_messages] from itself, so in the program [b] is also bounded by
    the depth of calls that the interpreter allows.) *)
Theorem cursor_walk : forall env cfg author dry_run,
  (forall channel cs groups st cs' st',
     should_stop st = false ->
     handle_page env cfg author dry_run channel cs groups st = (Continue cs', st') ->
     max_id_cursor cs' <> max_id_cursor cs ->
     exists c evs,
       max_id_cursor cs' = Some c /\ offset cs' = 0 /\
       log st' = log st ++ evs /\
       In (c + 1) (map id (advancing_batch cfg author groups)) /\
       (forall m, In m (advancing_batch cfg author groups) -> c < id m) /\
       Forall (acts_on (fun i => c < i)) evs) /\
  (honours_bound env ->
   (forall guild channel fuel cs st,
      exists evs,
        log (snd (process_target_loop env cfg author dry_run guild channel fuel cs st)) =
          log st ++ evs /\
        descending (max_id_cursor cs) (search_cursors evs) /\
        not_reconsidered evs) /\
   (forall guild channel fuel cs st groups st1 cs' st2 c0,
      should_stop st = false ->
      search_messages fuel env guild channel (offset cs) (max_id_cursor cs) st =
        (Page groups, st1) ->
      handle_page env cfg author dry_run channel cs groups st1 = (Continue cs', st2) ->
      max_id_cursor cs' <> max_id_cursor cs ->
      max_id_cursor cs = Some c0 ->
      exists c, max_id_cursor cs' = Some c /\ c < c0) /\
   (forall b, answers_within b env -> pages_hold_hits env ->
    forall t st,
      exists N, forall fuel, (N <= fuel)%nat ->
        fst (process_target env cfg author fuel t dry_run st) = Finished)).
Proof.
  intros env cfg author dry_run. split; [| intros Hb; split; [| split]].
  - intros channel cs groups st cs' st' Hstop H Hneq.
    destruct (@handle_page_turn _ _ _ _ _ _ _ _ _ _ Hstop H) as [evs [L [_ [_ T]]]].
    destruct T as [[Hsame _] | [[c [Hc [Ho [Hin [Hlt Ha]]]]] _]]; [contradiction |].
    exists c, evs. auto 10.
  - intros guild channel fuel cs st. apply walk_invariant. exact Hb.
  - intros guild channel fuel cs st groups st1 cs' st2 c0 Hstop Es H Hneq Hc0.
    destruct (search_messages_events env guild channel (offset cs) (max_id_cursor cs) fuel st)
      as [evs_s [_ [_ S1]]].
    rewrite Es in S1. simpl in S1. rewrite Hstop in S1.
    destruct (@handle_page_turn _ _ _ _ _ _ _ _ _ _ S1 H) as [evs [_ [_ [_ T]]]].
    destruct T as [[Hsame _] | [[c [Hc [_ [Hin _]]]] _]]; [contradiction |].
    exists c. split; [exact Hc |].
    apply in_map_iff in Hin. destruct Hin as [m [Hid Hm]].
    apply advancing_batch_hits in Hm. destruct Hm as [Hm Hh].
    destruct (@search_result_origin _ _ _ _ _ _ _ _ _ Es) as [n [r [Er ->]]].
    rewrite Hc0 in Er.
    assert (id m < c0) by (eapply Hb; [exact Er | exact Hm | exact Hh]).
    lia.
  - intros b Ha Hp t st. unfold process_target.
    apply walk_terminates with (b := b); auto.
Qed.

Lemma concat_singletons : forall (l : list message),
  List.concat (map (fun m => [m]) l) = l.
Proof. induction l as [| x l IH]; simpl; [reflexivity | rewrite IH; reflexivity]. Qed.

Lemma archive_page : forall store n g c o m r,
  archive store n (ESearch g c o m) = Response r ->
  List.concat (messages r) =
  filter (fun x => match m with Some b => id x <? b | None => true end) store.
Proof.
  intros store n g c o m r E. unfold archive in E. injection E as <-.
  simpl. apply concat_singletons.
Qed.

Lemma archive_honours_bound : forall store, honours_bound (archive store).
Proof.
  intros store n g ch o c r m E Hin _.
  rewrite (archive_page E) in Hin.
  apply filter_In in Hin. destruct Hin as [_ Hlt]. apply Z.ltb_lt, Hlt.
Qed.

Lemma limited_first_honours_bound : forall env,
  honours_bound env -> honours_bound (limited_first env).
Proof.
  intros env H n g ch o c r m E Hin Hh. destruct n as [| n]; simpl in E.
  - injection E as <-. contradiction Hin.
  - eapply H; eassumption.
Qed.

Lemma limited_first_pages_hold_hits : forall env,
  pages_hold_hits env -> pages_hold_hits (limited_first env).
Proof.
  intros env H n g c o m r E Hne. destruct n as [| n]; simpl in E.
  - injection E as <-. contradiction Hne. reflexivity.
  - eapply H; eassumption.
Qed.

Lemma archive_no_backoff : forall store n req, ~ backoff_signal (archive store n req).
Proof.
  intros store n req [r [E Hs]]. unfold archive in E.
  destruct req; injection E as <-; simpl in Hs; destruct Hs; discriminate.
Qed.

Lemma limited_first_archive_answers : forall store,
  answers_within 1 (limited_first (archive store)).
Proof.
  intros store n g c o m. destruct n as [| n].
  - exists 1%nat. split; [lia | split].
    + intros i Hi. replace i with 0%nat by lia. simpl.
      eexists. split; [reflexivity | left; reflexivity].
    + unfold limited_first. cbn [Nat.add]. apply archive_no_backoff.
  - exists 0%nat. split; [lia | split].
    + intros i Hi. lia.
    + rewrite Nat.add_0_r. unfold limited_first. apply archive_no_backoff.
Qed.

Lemma archive_pages_hold_hits : forall store,
  Forall (fun x => hit x = true /\ 0 < id x) store ->
  pages_hold_hits (archive store).
Proof.
  intros store Hstore n g c o m r E Hne.
  pose proof (archive_page E) as Hp.
  rewrite Forall_forall in Hstore.
  split.
  - destruct (List.concat (messages r)) as [| x xs] eqn:Ec.
    + exfalso. apply Hne.
      unfold archive in E. injection E as <-. simpl in *.
      rewrite concat_singletons in Ec. symmetry in Hp. rewrite Ec. reflexivity.
    + exists x. split; [left; reflexivity |].
      assert (Hin : In x (x :: xs)) by (left; reflexivity).
      rewrite Hp in Hin. apply filter_In in Hin. apply Hstore, Hin.
  - intros x Hin _. rewrite Hp in Hin. apply filter_In in Hin. apply Hstore, Hin.
Qed.

(** C4 as stated fails.  Against a server that honours [max_id] and holds
    the messages 300, 200 and 100, the searches of the target carry the
    cursors none, 99, 99, 99: the cursor 99 is sent again for each empty
    page, so the values are not strictly decreasing. *)
Lemma retried_cursor_repeats :
  search_cursors
    (log (snd (process_target (archive three_messages) (default_settings off) "me" 8
                 first_target false (init None)))) =
    [None; Some 99; Some 99; Some 99] /\
  ~ (forall env cfg author fuel t dry_run l1 a b l2,
       honours_bound env ->
       search_cursors (log (snd (process_target env cfg author fuel t dry_run (init None)))) =
         l1 ++ Some a :: Some b :: l2 ->
       b < a).
Proof.
  split; [reflexivity |].
  intros H.
  specialize (H (archive three_messages) (default_settings off) "me" 8%nat
                first_target false [None] 99 99 [Some 99]
                (@archive_honours_bound three_messages) eq_refl).
  lia.
Qed.

Lemma cursor_walk_witness :
  (exists evs,
     log (snd (process_target_loop (archive three_messages) (default_settings off) "me"
                 false "g" "c" 8 initial_cursor (init None))) = [] ++ evs /\
     descending None (search_cursors evs) /\
     not_reconsidered evs) /\
  (exists c, Some 99 = Some c /\ c < 301) /\
  (exists N, forall fuel, (N <= fuel)%nat ->
     fst (process_target (limited_first (archive three_messages)) (default_settings off)
            "me" fuel first_target false (init None)) = Finished).
Proof.
  pose (W := proj2 (@cursor_walk (archive three_messages) (default_settings off) "me" false)
                   (@archive_honours_bound three_messages)).
  pose (V := proj2 (@cursor_walk (limited_first (archive three_messages))
                      (default_settings off) "me" false)
                   (limited_first_honours_bound (@archive_honours_bound three_messages))).
  split; [| split].
  - apply (proj1 W).
  - apply (proj1 (proj2 W) "g" "c" 1%nat (mkCursor (Some 301) 0 0 0) (init None)
             (map (fun m => [m]) three_messages)
             (called (ESearch "g" "c" 0 (Some 301)) (init None))
             (mkCursor (Some 99) 0 3 0)
             (mkState (mkStats 3 0 0 0 0 0) 0 false None None 4
                [ESearch "g" "c" 0 (Some 301); EDelete "c" 300; ESleep 1;
                 EDelete "c" 200; ESleep 1; EDelete "c" 100; ESleep 1; ESleep 10])
             301).
    + reflexivity.
    + vm_compute. reflexivity.
    + vm_compute. reflexivity.
    + simpl. discriminate.
    + reflexivity.
  - apply (proj2 (proj2 V) 1%nat).
    + apply limited_first_archive_answers.
    + apply limited_first_pages_hold_hits, archive_pages_hold_hits.
      repeat constructor.
Defined.

(** ** The message filter and the cursor *)

(** On a page with eligible messages the cursor is moved by them alone: it
    becomes the least of their ids minus 1, in a dry run as in a real one. *)
Lemma handle_page_eligible_cursor :
  forall env cfg author dry_run channel cs groups st cs' st' first others,
  eligible cfg author groups = first :: others ->
  should_stop st = false ->
  handle_page env cfg author dry_run channel cs groups st = (Continue cs', st') ->
  max_id_cursor cs' = Some (min_id first others - 1) /\ offset cs' = 0.
Proof.
  intros env cfg author dry_run channel cs groups st cs' st' first others E Hstop H.
  unfold handle_page in H.
  destruct groups as [| g groups]; [discriminate E |].
  rewrite E in H.
  destruct dry_run.
  - unfold bind, sleep, emit, ret in H. simpl in H. injection H as <- _. auto.
  - unfold bind at 1 in H.
    pose proof (process_messages_oldest env cfg channel (first :: others) None
                  (mkBatch 0 0 0) st Hstop) as Ho.
    destruct (process_messages env cfg channel (first :: others) None (mkBatch 0 0 0) st)
      as [[oldest b] st2].
    simpl in Ho. rewrite track_oldest_fold in Ho. subst oldest.
    unfold bind, sleep, emit, ret in H. simpl in H. injection H as <- _. auto.
Qed.

(** C8, as the code has it.  With [skip_meowed] set, a hit of the current
    user whose content is the marker text is not among the messages handed
    to the executor: every edit or delete call of the turn is sent for a
    message that passed the filter, and no such message has the marker text
    as content.  The message is still in [all_hit_messages], and it moves
    the cursor only when nothing of the page is eligible: the cursor then
    becomes the least id of [all_hit_messages] minus 1, which is below the id
    of the marked message, and the offset becomes 0.  When the page has
    eligible messages, the cursor becomes the least of their ids minus 1,
    whatever the id of the marked message is. *)
Theorem skip_meowed_filter : forall env cfg author dry_run channel groups m,
  skip_meowed cfg = true ->
  In m (List.concat groups) ->
  is_own_hit author m = true ->
  content m = Some MEOW_TEXT ->
  ~ In m (eligible cfg author groups) /\
  (forall m', In m' (eligible cfg author groups) -> content m' <> Some MEOW_TEXT) /\
  (forall cs st, exists evs,
     log (snd (handle_page env cfg author dry_run channel cs groups st)) = log st ++ evs /\
     Forall (acts_on (fun i => exists m', In m' (eligible cfg author groups) /\ id m' = i))
            evs) /\
  In m (all_hit_messages author groups) /\
  (eligible cfg author groups = [] ->
   forall cs st, exists oldest_id,
     handle_page env cfg author dry_run channel cs groups st =
       (Continue (mkCursor (Some (oldest_id - 1)) 0 (messages_found cs) 0),
        snd (sleep (search_delay cfg) st)) /\
     In oldest_id (map id (all_hit_messages author groups)) /\
     (forall m', In m' (all_hit_messages author groups) -> oldest_id <= id m') /\
     oldest_id - 1 < id m) /\
  (forall first others cs st cs' st',
     eligible cfg author groups = first :: others ->
     should_stop st = false ->
     handle_page env cfg author dry_run channel cs groups st = (Continue cs', st') ->
     max_id_cursor cs' = Some (min_id first others - 1) /\ offset cs' = 0).
Proof.
  intros env cfg author dry_run channel groups m Hskip Hin Hown Hmeow.
  assert (Hall : In m (all_hit_messages author groups))
    by (apply all_hit_messages_iff; auto).
  assert (Hfilt : forall m', skip_meowed cfg = true ->
            content m' = Some MEOW_TEXT -> is_filtered cfg m' = true).
  { intros m' Hs Hc. unfold is_filtered. rewrite Hs.
    apply content_is_meow_iff in Hc. rewrite Hc. apply orb_true_r. }
  split; [| split; [| split; [| split; [| split]]]].
  - intros He. apply eligible_iff in He. destruct He as [_ He].
    rewrite Hfilt in He by assumption. discriminate He.
  - intros m' He Hc. apply eligible_iff in He. destruct He as [_ He].
    rewrite Hfilt in He by assumption. discriminate He.
  - intros cs st. apply handle_page_acts_on_eligible.
  - exact Hall.
  - intros Hnone cs st. unfold handle_page.
    destruct groups as [| g groups]; [contradiction Hin |].
    rewrite Hnone.
    destruct (all_hit_messages author (g :: groups)) as [| first others] eqn:E;
      [contradiction Hall |].
    exists (min_id first others). split; [reflexivity | split; [| split]].
    + apply min_id_in.
    + apply min_id_le.
    + pose proof (@min_id_le first others m Hall). lia.
  - intros first others cs st cs' st' E Hstop H.
    exact (@handle_page_eligible_cursor env cfg author dry_run channel cs groups st cs' st'
             first others E Hstop H).
Qed.

Lemma skip_meowed_filter_witness :
  let cfg := mkSettings 10 1 true true 3 off in
  let m := own_message 7 MEOW_TEXT in
  let mixed := [[own_message 300 "a"; own_message 50 MEOW_TEXT]] in
  ~ In m (eligible cfg "me" [[m]]) /\
  In m (all_hit_messages "me" [[m]]) /\
  (exists oldest_id,
     handle_page nothing_left cfg "me" false "c" initial_cursor [[m]] (init None) =
       (Continue (mkCursor (Some (oldest_id - 1)) 0 0 0), snd (sleep 10 (init None))) /\
     oldest_id - 1 < 7) /\
  handle_page (archive three_messages) cfg "me" false "c" initial_cursor mixed (init None) =
    (Continue (mkCursor (Some 299) 0 1 0),
     mkState (mkStats 1 0 0 0 0 0) 0 false None None 1
             [EDelete "c" 300; ESleep 1; ESleep 10]) /\
  max_id_cursor (mkCursor (Some 299) 0 1 0) = Some (min_id (own_message 300 "a") [] - 1).
Proof.
  intros cfg m mixed.
  pose (W := @skip_meowed_filter nothing_left cfg "me" false "c" [[m]] m
               eq_refl (or_introl eq_refl) eq_refl eq_refl).
  pose (V := @skip_meowed_filter (archive three_messages) cfg "me" false "c" mixed
               (own_message 50 MEOW_TEXT)
               eq_refl (or_intror (or_introl eq_refl)) eq_refl eq_refl).
  assert (H : handle_page (archive three_messages) cfg "me" false "c" initial_cursor mixed
                (init None) =
              (Continue (mkCursor (Some 299) 0 1 0),
               mkState (mkStats 1 0 0 0 0 0) 0 false None None 1
                       [EDelete "c" 300; ESleep 1; ESleep 10])).
  { vm_compute. reflexivity. }
  split; [exact (proj1 W) |].
  split; [exact (proj1 (proj2 (proj2 (proj2 W)))) |].
  split.
  { destruct (proj1 (proj2 (proj2 (proj2 (proj2 W)))) eq_refl initial_cursor (init None))
      as [oldest_id [H1 [_ [_ H2]]]].
    exists oldest_id. split; [exact H1 | exact H2]. }
  split; [exact H |].
  exact (proj1 (proj2 (proj2 (proj2 (proj2 (proj2 V)))) (own_message 300 "a") []
                 initial_cursor (init None) _ _ eq_refl eq_refl H)).
Defined.

(** C8 as stated fails on a page that has eligible messages.  With
    [skip_meowed] set and a page that holds the message 300 and a marked
    message with any id [j], the turn deletes 300 and leaves the cursor at
    299: the marked message does not move it, and with an id under 299 it is
    within the range of the next search again. *)
Lemma marked_message_is_left_behind :
  (forall j,
     handle_page (archive three_messages) (mkSettings 10 1 true true 3 off) "me" false "c"
                 initial_cursor [[own_message 300 "a"; own_message j MEOW_TEXT]]
                 (init None) =
     (Continue (mkCursor (Some 299) 0 1 0),
      mkState (mkStats 1 0 0 0 0 0) 0 false None None 1
              [EDelete "c" 300; ESleep 1; ESleep 10])) /\
  ~ (forall env cfg author dry_run channel groups m cs st cs' st',
       skip_meowed cfg = true ->
       In m (List.concat groups) ->
       is_own_hit author m = true ->
       content m = Some MEOW_TEXT ->
       should_stop st = false ->
       handle_page env cfg author dry_run channel cs groups st = (Continue cs', st') ->
       exists c, max_id_cursor cs' = Some c /\ c < id m).
Proof.
  assert (H : forall j,
    handle_page (archive three_messages) (mkSettings 10 1 true true 3 off) "me" false "c"
                initial_cursor [[own_message 300 "a"; own_message j MEOW_TEXT]]
                (init None) =
    (Continue (mkCursor (Some 299) 0 1 0),
     mkState (mkStats 1 0 0 0 0 0) 0 false None None 1
             [EDelete "c" 300; ESleep 1; ESleep 10])).
  { intros j. reflexivity. }
  split; [exact H |].
  intros Hall.
  destruct (Hall (archive three_messages) (mkSettings 10 1 true true 3 off) "me" false "c"
              [[own_message 300 "a"; own_message 50 MEOW_TEXT]]
              (own_message 50 MEOW_TEXT) initial_cursor (init None) _ _
              eq_refl (or_intror (or_introl eq_refl)) eq_refl eq_refl eq_refl (H 50))
    as [c [Hc Hlt]].
  simpl in Hc, Hlt. injection Hc as <-. lia.
Qed.

(** ** Interrupts *)

(** C3.  The handler does not wait for anything.  Run while a call is in
    flight (the request is sent, its answer is not handled yet), it raises the
    flag, writes the checkpoint with the counters as they are at that moment,
    the outcome of the call not being among them, and leaves the process with
    status 0: nothing of the engine runs after it, so the flag is never read
    at a loop head.  Against a server that accepts the delete of message 300,
    the checkpoint of a run interrupted during that call holds [deleted] = 0,
    where the handling of the message, left to finish, counts it and sleeps
    [delete_delay]. *)
Theorem interrupt_cuts_the_call_in_flight :
  (forall st req,
     signal_handler (called req st) =
     (0, mkState (stats st) (current_target_index st) true (progress_data st)
                 (Some (mkCheckpoint (Some (current_target_index st)) (stats st)))
                 (S (ncalls st))
                 (log st ++ [req; ESave (current_target_index st)]))) /\
  archive three_messages 0%nat (EDelete "c" 300) = plain 204 /\
  signal_handler (called (EDelete "c" 300) (init None)) =
    (0, mkState zero_stats 0 true None (Some (mkCheckpoint (Some 0%nat) zero_stats)) 1
                [EDelete "c" 300; ESave 0]) /\
  process_message (archive three_messages) (default_settings off) "c"
                  (own_message 300 "a") (mkBatch 0 0 0) (init None) =
    (mkBatch 1 0 0,
     mkState (mkStats 1 0 0 0 0 0) 0 false None None 1 [EDelete "c" 300; ESleep 1]).
Proof.
  split; [| split; [| split]]; try reflexivity.
  intros st req. unfold signal_handler, save_progress, called. simpl.
  rewrite app_two. reflexivity.
Qed.

(** * Further properties of the engine *)

(** ** A frame rule for any relation on states *)

(** Whatever relation the primitive effects of the engine stay within, the
    network operations, the executor and the pagination loop stay within. *)
Section Frame.

Variable I : state -> state -> Prop.
Hypothesis I_refl : forall st, I st st.
Hypothesis I_trans : forall a b c, I a b -> I b c -> I a c.
Hypothesis I_sleep : forall s st, I st (snd (sleep s st)).
Hypothesis I_http : forall env req st, is_call req = true -> I st (snd (http env req st)).
Hypothesis I_stats : forall f st, I st (snd (update_stats f st)).

Lemma frame_ret : forall A (a : A), preserves I (ret a).
Proof. intros A a st. apply I_refl. Qed.

Lemma frame_bind : forall A B (m : M A) (k : A -> M B),
  preserves I m -> (forall a, preserves I (k a)) -> preserves I (bind m k).
Proof.
  intros A B m k Hm Hk st. unfold bind.
  specialize (Hm st). destruct (m st) as [a st1]. simpl in Hm.
  eapply I_trans; [exact Hm | apply Hk].
Qed.

Lemma frame_sleep : forall s, preserves I (sleep s).
Proof. intros s st. apply I_sleep. Qed.

Lemma frame_http : forall env req, is_call req = true -> preserves I (http env req).
Proof. intros env req H st. apply I_http, H. Qed.

Lemma frame_update_stats : forall f, preserves I (update_stats f).
Proof. intros f st. apply I_stats. Qed.

Lemma frame_get_should_stop : preserves I get_should_stop.
Proof. intros st. apply I_refl. Qed.

Ltac frame_step :=
  first
    [ apply frame_ret
    | apply frame_sleep
    | (apply frame_http; reflexivity)
    | apply frame_update_stats
    | apply frame_get_should_stop
    | apply frame_bind
    | assumption
    | match goal with
      | |- forall _, _ => intro
      | |- preserves _ (if ?c then _ else _) => destruct c
      | |- preserves _ (match ?x with _ => _ end) => destruct x
      | |- preserves _ (let (_, _) := ?x in _) => destruct x
      end ].

Ltac frame_auto := repeat frame_step.

Lemma frame_search_messages : forall fuel env g c o m,
  preserves I (search_messages fuel env g c o m).
Proof.
  induction fuel as [| fuel IH]; intros env g c o m; simpl; frame_auto; apply IH.
Qed.

Lemma frame_action_result : forall ok_status attempt rep,
  preserves I (action_result ok_status attempt rep).
Proof. intros. unfold action_result. frame_auto. Qed.

Lemma frame_delete_message : forall env ch i attempt,
  preserves I (delete_message env ch i attempt).
Proof.
  intros. unfold delete_message.
  apply frame_bind; [apply frame_http; reflexivity | intro; apply frame_action_result].
Qed.

Lemma frame_edit_message : forall env ch i t attempt,
  preserves I (edit_message env ch i t attempt).
Proof.
  intros. unfold edit_message.
  apply frame_bind; [apply frame_http; reflexivity | intro; apply frame_action_result].
Qed.

Lemma frame_edit_attempts : forall env cfg ch remaining attempt i b,
  preserves I (edit_attempts env cfg ch remaining attempt i b).
Proof.
  induction remaining as [| remaining IH]; intros attempt i b; simpl.
  - frame_auto.
  - apply frame_bind; [apply frame_edit_message |].
    intros []; frame_auto. apply IH.
Qed.

Lemma frame_delete_attempts : forall env cfg ch remaining attempt i g b,
  preserves I (delete_attempts env cfg ch remaining attempt i g b).
Proof.
  induction remaining as [| remaining IH]; intros attempt i g b; simpl.
  - frame_auto.
  - apply frame_bind; [apply frame_delete_message |].
    intros []; frame_auto. apply IH.
Qed.

Lemma frame_delete_stage : forall env cfg ch msg g b,
  preserves I (delete_stage env cfg ch msg g b).
Proof.
  intros. unfold delete_stage. destruct (meow_mode cfg).
  - apply frame_bind; [apply frame_delete_attempts |]. frame_auto.
  - apply frame_bind; [apply frame_delete_attempts |]. frame_auto.
  - frame_auto.
Qed.

Lemma frame_process_message : forall env cfg ch msg b,
  preserves I (process_message env cfg ch msg b).
Proof.
  intros. unfold process_message.
  assert (H : forall g b', preserves I (delete_stage env cfg ch msg g b'))
    by (intros; apply frame_delete_stage).
  destruct (meow_mode cfg); [apply H | |];
    (destruct (negb (content_is_meow msg)); [| apply H];
     apply frame_bind; [apply frame_edit_attempts |];
     intros [[s g] b']; destruct g; [apply frame_ret |];
     apply frame_bind; [destruct s; frame_auto | intro; apply H]).
Qed.

Lemma frame_process_messages : forall env cfg ch msgs oldest b,
  preserves I (process_messages env cfg ch msgs oldest b).
Proof.
  induction msgs as [| msg rest IH]; intros oldest b; simpl.
  - apply frame_ret.
  - apply frame_bind; [apply frame_get_should_stop |].
    intros []; [apply frame_ret |].
    apply frame_bind; [apply frame_process_message |].
    intro. apply IH.
Qed.

Lemma frame_handle_page : forall env cfg author dry_run channel cs groups,
  preserves I (handle_page env cfg author dry_run channel cs groups).
Proof.
  intros. unfold handle_page.
  destruct groups as [| g groups]; [frame_auto |].
  destruct (eligible cfg author (g :: groups)) as [| first others].
  - destruct (all_hit_messages author (g :: groups)); frame_auto.
  - destruct dry_run; [frame_auto |].
    apply frame_bind; [apply frame_process_messages |]. frame_auto.
Qed.

Lemma frame_loop_body : forall env cfg author dry_run guild channel fuel cs,
  preserves I (loop_body env cfg author dry_run guild channel fuel cs).
Proof.
  intros. unfold loop_body.
  apply frame_bind; [apply frame_search_messages |].
  intros [groups | |]; try apply frame_ret. apply frame_handle_page.
Qed.

Lemma frame_process_target_loop : forall env cfg author dry_run guild channel fuel cs,
  preserves I (process_target_loop env cfg author dry_run guild channel fuel cs).
Proof.
  induction fuel as [| fuel IH]; intros cs; simpl.
  - apply frame_ret.
  - apply frame_bind; [apply frame_get_should_stop |].
    intros []; [apply frame_ret |].
    apply frame_bind; [apply frame_loop_body |].
    intros [| cs' |]; try apply frame_ret. apply IH.
Qed.

Lemma frame_process_target : forall env cfg author fuel t dry_run,
  preserves I (process_target env cfg author fuel t dry_run).
Proof. intros. unfold process_target. apply frame_process_target_loop. Qed.

End Frame.

(** ** The batch runner *)

Lemma counters_grow_refl : forall s, counters_grow s s.
Proof. intros s. unfold counters_grow. lia. Qed.

Lemma counters_grow_trans : forall a b c,
  counters_grow a b -> counters_grow b c -> counters_grow a c.
Proof. unfold counters_grow. intros a b c H1 H2. lia. Qed.

Lemma counters_grow_inc_deleted : forall s, counters_grow s (inc_deleted s).
Proof. intros s. unfold counters_grow. simpl. lia. Qed.
Lemma counters_grow_inc_edited : forall s, counters_grow s (inc_edited s).
Proof. intros s. unfold counters_grow. simpl. lia. Qed.
Lemma counters_grow_inc_failed : forall s, counters_grow s (inc_failed s).
Proof. intros s. unfold counters_grow. simpl. lia. Qed.
Lemma counters_grow_inc_skipped : forall s, counters_grow s (inc_skipped s).
Proof. intros s. unfold counters_grow. simpl. lia. Qed.
Lemma counters_grow_inc_rate_limited : forall s, counters_grow s (inc_rate_limited s).
Proof. intros s. unfold counters_grow. simpl. lia. Qed.
Lemma counters_grow_inc_ghosts : forall s, counters_grow s (inc_ghosts s).
Proof. intros s. unfold counters_grow. simpl. lia. Qed.

(** The loop over a target, for a class of events that holds its calls. *)
Section TargetEvolution.

Variable P : event -> Prop.
Variable R : stats_t -> stats_t -> Prop.
Hypothesis R_refl : forall s, R s s.
Hypothesis R_trans : forall a b c, R a b -> R b c -> R a c.
Hypothesis R_rate_limited : forall s, R s (inc_rate_limited s).
Hypothesis R_deleted : forall s, R s (inc_deleted s).
Hypothesis R_edited : forall s, R s (inc_edited s).
Hypothesis R_failed : forall s, R s (inc_failed s).
Hypothesis R_skipped : forall s, R s (inc_skipped s).
Hypothesis R_ghosts : forall s, R s (inc_ghosts s).
Hypothesis P_sleep : forall s, P (ESleep s).
Hypothesis P_save : forall i, P (ESave i).

Variable env : env_t.
Variable cfg : settings.
Variable author : string.
Variable dry_run : bool.

Lemma preserves_target_loop_calls : forall guild channel,
  (forall o m, P (ESearch guild channel o m)) ->
  (forall i, P (EEdit channel i MEOW_TEXT)) ->
  (forall i, P (EDelete channel i)) ->
  forall fuel cs,
  preserves (evolves P R)
    (process_target_loop env cfg author dry_run guild channel fuel cs).
Proof.
  intros guild channel Hs He Hd.
  induction fuel as [| fuel IH]; intros cs; simpl.
  - apply preserves_ret; auto.
  - apply preserves_bind; auto; [apply preserves_get_should_stop; auto |].
    intros stop. apply preserves_if; auto; [apply preserves_ret; auto |].
    apply preserves_bind; auto.
    + unfold loop_body. apply preserves_bind; auto.
      * apply preserves_search_messages; auto.
      * intros [groups | |]; try (apply preserves_ret; auto).
        apply preserves_handle_page; auto.
        right. apply preserves_process_messages; auto.
    + intros [| cs' |]; auto; apply preserves_ret; auto.
Qed.

Lemma preserves_run_targets : forall fuel remaining i,
  (forall t, In t remaining ->
     (forall o m, P (ESearch (guild_of t) (channel_id t) o m)) /\
     (forall j, P (EEdit (channel_id t) j MEOW_TEXT)) /\
     (forall j, P (EDelete (channel_id t) j))) ->
  preserves (evolves P R) (run_targets env cfg author dry_run fuel i remaining).
Proof.
  intros fuel.
  induction remaining as [| t rest IH]; intros i Hts; simpl.
  - apply preserves_ret; auto.
  - apply preserves_bind; auto; [apply preserves_get_should_stop; auto |].
    intros stop. apply preserves_if; auto; [apply preserves_ret; auto |].
    apply preserves_bind; auto.
    + unfold process_target. fold (guild_of t).
      destruct (Hts t (or_introl eq_refl)) as [H1 [H2 H3]].
      apply preserves_target_loop_calls; assumption.
    + intros []; [| apply preserves_ret; auto].
      apply preserves_bind; auto.
      { intros st. split; [| split]; simpl; auto.
        exists []. rewrite app_nil_r. auto. }
      intros _. apply preserves_bind; auto.
      { intros st. split; [| split]; simpl; auto.
        exists [ESave (current_target_index st)]. auto. }
      intros _. apply IH. intros t' Ht'. apply Hts. right. exact Ht'.
Qed.

End TargetEvolution.

Lemma load_progress_evolves : forall P R resume st,
  (forall s, R s s) ->
  evolves P R st (snd (load_progress resume st)).
Proof.
  intros P R resume st HR. unfold load_progress.
  destruct resume; [destruct (progress_file st) |];
    (split; [exists []; simpl; rewrite app_nil_r; auto | simpl; auto]).
Qed.

Lemma run_batch_split : forall env fuel c author dry_run resume meow skip st,
  let loaded := snd (load_progress resume st) in
  let ts := filter enabled (targets c) in
  run_batch env fuel c author dry_run resume meow skip st =
  match ts with
  | [] => (NoEnabledTargets, loaded)
  | _ =>
    let k := current_target_index loaded in
    let r := run_targets env (apply_overrides (cfg_settings c) meow skip) author dry_run
               fuel k (skipn k ts) loaded in
    (match fst r with Finished => Summary | OutOfFuel => BatchOutOfFuel end, snd r)
  end.
Proof.
  intros. unfold run_batch, bind. subst loaded ts.
  destruct (load_progress resume st) as [[] st0]. simpl.
  destruct (filter enabled (targets c)) as [| t ts']; [reflexivity |].
  destruct (run_targets env (apply_overrides (cfg_settings c) meow skip) author dry_run
              fuel (current_target_index st0)
              (skipn (current_target_index st0) (t :: ts')) st0) as [r st'].
  reflexivity.
Qed.

Lemma skipn_In : forall A (l : list A) k x, In x (skipn k l) -> In x l.
Proof.
  intros A l k x H. rewrite <- (firstn_skipn k l). apply in_or_app. right. exact H.
Qed.

(** X1.  The counters are monotone: whatever the server answers and however
    long the run is followed, no counter is lower after [process_target] or
    after [run_batch] than it was before. *)
Theorem counters_never_decrease :
  forall env fuel c cfg author dry_run resume meow skip t st,
  counters_grow (stats st)
    (stats (snd (process_target env cfg author fuel t dry_run st))) /\
  counters_grow (stats st)
    (stats (snd (run_batch env fuel c author dry_run resume meow skip st))).
Proof.
  intros env fuel c cfg author dry_run resume meow skip t st.
  assert (Hrun : forall s remaining i,
    preserves (evolves (fun _ => True) counters_grow)
      (run_targets env s author dry_run fuel i remaining)).
  { intros s remaining i.
    apply preserves_run_targets;
      auto using counters_grow_refl, counters_grow_inc_deleted, counters_grow_inc_edited,
        counters_grow_inc_failed, counters_grow_inc_skipped,
        counters_grow_inc_rate_limited, counters_grow_inc_ghosts.
    exact counters_grow_trans. }
  split.
  - destruct (Hrun cfg [t] O st) as [_ [H _]].
    simpl in H. unfold bind, get_should_stop in H.
    destruct (should_stop st) eqn:Hstop.
    + unfold process_target. destruct fuel as [| fuel']; simpl.
      * apply counters_grow_refl.
      * unfold bind, get_should_stop. rewrite Hstop. apply counters_grow_refl.
    + destruct (process_target env cfg author fuel t dry_run st) as [[] st1];
        simpl in *; exact H.
  - rewrite run_batch_split. cbv zeta.
    pose proof (@load_progress_evolves (fun _ => True) counters_grow resume st
                  counters_grow_refl) as [_ [Hl _]].
    destruct (filter enabled (targets c)) as [| t0 ts]; [exact Hl |].
    simpl snd.
    eapply counters_grow_trans; [exact Hl |].
    apply Hrun.
Qed.

(** X2.  Every call of a batch run is addressed to an enabled target at or
    after the index the run starts from (0, or the index of the progress
    file on resume): disabled targets and targets before that index are sent
    nothing. *)
Theorem calls_go_to_remaining_targets :
  forall env fuel c author dry_run (resume : bool) meow skip file,
  let k := if resume then resume_index file else O in
  let ts := skipn k (filter enabled (targets c)) in
  Forall (sent_to ts)
    (log (snd (run_batch env fuel c author dry_run resume meow skip (init file)))) /\
  (forall t, In t ts -> In t (targets c) /\ enabled t = true).
Proof.
  intros env fuel c author dry_run resume meow skip file k ts. split.
  - rewrite run_batch_split. cbv zeta.
    assert (Hk : current_target_index (snd (load_progress resume (init file))) = k).
    { subst k. unfold load_progress, resume_index.
      destruct resume; [destruct file as [saved |] |]; reflexivity. }
    assert (Hlog : log (snd (load_progress resume (init file))) = []).
    { unfold load_progress.
      destruct resume; [destruct file as [saved |] |]; reflexivity. }
    destruct (filter enabled (targets c)) as [| t0 ts0] eqn:E.
    + simpl snd. rewrite Hlog. constructor.
    + simpl snd. rewrite Hk. fold ts.
      destruct (@preserves_run_targets (sent_to ts) any_counters
                  any_counters_refl any_counters_trans
                  (any_counters_inc inc_rate_limited) (any_counters_inc inc_deleted)
                  (any_counters_inc inc_edited) (any_counters_inc inc_failed)
                  (any_counters_inc inc_skipped) (any_counters_inc inc_ghosts)
                  (fun _ => I) (fun _ => I)
                  env (apply_overrides (cfg_settings c) meow skip) author dry_run
                  fuel ts k) with (st := snd (load_progress resume (init file)))
        as [[evs [L F]] _].
      * intros t Ht. repeat split; simpl; eauto.
      * rewrite L, Hlog. exact F.
  - intros t Ht. subst ts. apply skipn_In in Ht. apply filter_In in Ht. exact Ht.
Qed.

(** ** A search that fails *)

Lemma search_messages_raises : forall env fuel g c o m st,
  env (ncalls st) (ESearch g c o m) = RequestException \/
  (exists r, env (ncalls st) (ESearch g c o m) = Response r /\
             400 <= status_code r < 600 /\ status_code r <> 429) ->
  search_messages (S fuel) env g c o m st = (SearchRaised, called (ESearch g c o m) st).
Proof.
  intros env fuel g c o m st [E | [r [E [Hr Hn]]]]; simpl; unfold bind, http; rewrite E.
  - reflexivity.
  - destruct (Z.eqb_spec (status_code r) 429); [contradiction |].
    destruct (Z.eqb_spec (status_code r) 202); [lia |].
    destruct (Z.leb_spec 400 (status_code r)); [| lia].
    destruct (Z.ltb_spec (status_code r) 600); [| lia].
    reflexivity.
Qed.

(** X3.  A search that fails with a network error or with an HTTP error
    status (400 to 599, 429 apart) ends the processing of the target at once
    and without an error; the batch runner takes the target as done: it moves
    to the next index and writes it to the progress file, although no message
    of the target was handled. *)
Theorem failed_search_checkpoints_target :
  forall env cfg author dry_run fuel t rest i st,
  should_stop st = false ->
  env (ncalls st) (ESearch (guild_of t) (channel_id t) 0 None) = RequestException \/
  (exists r, env (ncalls st) (ESearch (guild_of t) (channel_id t) 0 None) = Response r /\
             400 <= status_code r < 600 /\ status_code r <> 429) ->
  let st1 := called (ESearch (guild_of t) (channel_id t) 0 None) st in
  process_target env cfg author (S (S fuel)) t dry_run st = (Finished, st1) /\
  run_targets env cfg author dry_run (S (S fuel)) i (t :: rest) st =
    run_targets env cfg author dry_run (S (S fuel)) (S i) rest
      (mkState (stats st) (S i) false (progress_data st)
               (Some (mkCheckpoint (Some (S i)) (stats st)))
               (S (ncalls st))
               (log st ++ [ESearch (guild_of t) (channel_id t) 0 None; ESave (S i)])).
Proof.
  intros env cfg author dry_run fuel t rest i st Hstop Henv st1.
  assert (Hp : process_target env cfg author (S (S fuel)) t dry_run st = (Finished, st1)).
  { unfold process_target. fold (guild_of t).
    rewrite process_target_loop_step by assumption.
    unfold loop_body, bind. simpl offset. simpl max_id_cursor.
    rewrite (search_messages_raises _ _ _ _ _ _ _ Henv). reflexivity. }
  split; [exact Hp |].
  simpl run_targets. unfold bind at 1, get_should_stop at 1. rewrite Hstop.
  unfold bind at 1. rewrite Hp.
  unfold bind, set_current_target_index, save_progress. simpl.
  rewrite Hstop, app_two. reflexivity.
Qed.

Lemma failed_search_checkpoints_target_witness :
  process_target unreachable (default_settings off) "me" 2 first_target false (init None) =
    (Finished, called (ESearch "g" "c" 0 None) (init None)) /\
  run_targets unreachable (default_settings off) "me" false 2 0 [first_target] (init None) =
    (Finished,
     mkState zero_stats 1 false None (Some (mkCheckpoint (Some 1%nat) zero_stats)) 1
             [ESearch "g" "c" 0 None; ESave 1]).
Proof.
  apply (@failed_search_checkpoints_target unreachable (default_settings off) "me" false
           0%nat first_target [] 0%nat (init None)).
  - reflexivity.
  - left. reflexivity.
Defined.

(** ** The progress file *)

Lemma same_progress_refl : forall st, same_progress st st.
Proof. intros st. unfold same_progress. auto. Qed.

Lemma same_progress_trans : forall a b c,
  same_progress a b -> same_progress b c -> same_progress a c.
Proof. unfold same_progress. intros a b c H1 H2. intuition congruence. Qed.

Lemma process_target_same_progress : forall env cfg author fuel t dry_run st,
  same_progress st (snd (process_target env cfg author fuel t dry_run st)).
Proof.
  intros env cfg author fuel t dry_run.
  apply frame_process_target.
  - exact same_progress_refl.
  - exact same_progress_trans.
  - intros s st. unfold same_progress. simpl. auto.
  - intros env' req st _. unfold same_progress. simpl. auto.
  - intros f st. unfold same_progress. simpl. auto.
Qed.

(** X4.  None of the operations that the batch runner runs for a target
    writes the index of the target in progress, the progress file, the
    progress data loaded from it or the stop flag: after a search, a delete, an
    edit, the handling of a batch of messages or the whole of
    [process_target], the four are what they were before, whatever the server
    answers and however long the operation is followed. *)
Theorem progress_is_untouched_within_a_target : forall env cfg author dry_run fuel,
  (forall g c o m st, same_progress st (snd (search_messages fuel env g c o m st))) /\
  (forall ch i attempt st, same_progress st (snd (delete_message env ch i attempt st))) /\
  (forall ch i text attempt st,
     same_progress st (snd (edit_message env ch i text attempt st))) /\
  (forall ch msgs oldest b st,
     same_progress st (snd (process_messages env cfg ch msgs oldest b st))) /\
  (forall t st, same_progress st (snd (process_target env cfg author fuel t dry_run st))).
Proof.
  intros env cfg author dry_run fuel.
  assert (Hs : forall s st, same_progress st (snd (sleep s st)))
    by (intros s st; unfold same_progress; simpl; auto).
  assert (Hh : forall env' req st, is_call req = true ->
                 same_progress st (snd (http env' req st)))
    by (intros env' req st _; unfold same_progress; simpl; auto).
  assert (Hu : forall f st, same_progress st (snd (update_stats f st)))
    by (intros f st; unfold same_progress; simpl; auto).
  split; [| split; [| split; [| split]]].
  - intros g c o m.
    apply frame_search_messages; auto using same_progress_refl. exact same_progress_trans.
  - intros ch i attempt.
    apply frame_delete_message; auto using same_progress_refl. exact same_progress_trans.
  - intros ch i text attempt.
    apply frame_edit_message; auto using same_progress_refl. exact same_progress_trans.
  - intros ch msgs oldest b.
    apply frame_process_messages; auto using same_progress_refl.
    exact same_progress_trans.
  - intros t. apply process_target_same_progress.
Qed.

Lemma process_target_should_stop : forall env cfg author fuel t dry_run st,
  should_stop (snd (process_target env cfg author fuel t dry_run st)) = should_stop st.
Proof.
  intros. apply (process_target_same_progress env cfg author fuel t dry_run st).
Qed.

(** Where the loop over the targets ends when it is not stopped. *)
Lemma run_targets_finished : forall env cfg author dry_run fuel remaining i st st',
  should_stop st = false ->
  remaining <> [] ->
  run_targets env cfg author dry_run fuel i remaining st = (Finished, st') ->
  current_target_index st' = (i + List.length remaining)%nat /\
  progress_file st' =
    Some (mkCheckpoint (Some (i + List.length remaining)%nat) (stats st')).
Proof.
  intros env cfg author dry_run fuel.
  induction remaining as [| t rest IH]; intros i st st' Hstop Hne H; [congruence |].
  simpl in H. unfold bind at 1, get_should_stop at 1 in H. rewrite Hstop in H.
  unfold bind at 1 in H.
  pose proof (process_target_should_stop env cfg author fuel t dry_run st) as Hs.
  destruct (process_target env cfg author fuel t dry_run st) as [r st1].
  simpl in Hs. rewrite Hstop in Hs.
  destruct r; [| discriminate H].
  unfold bind, set_current_target_index, save_progress in H. simpl in H.
  destruct rest as [| t2 rest2].
  - simpl in H. unfold ret in H. injection H as <-. simpl.
    replace (i + 1)%nat with (S i) by lia. auto.
  - apply IH in H; [| exact Hs | discriminate].
    simpl List.length in *.
    replace (i + S (S (List.length rest2)))%nat
      with (S i + S (List.length rest2))%nat by lia.
    exact H.
Qed.

(** X5.  A batch run that reaches its summary, fresh or resumed, dry run
    or not, leaves a progress file whose index is the number of enabled
    targets, or the index the run was itself resumed from when that is
    larger; a run resumed from that file starts at that index and reaches
    its summary at once, with no call sent, whatever its own flags are and
    whatever the server would answer.  In particular a real run resumed
    after a completed dry run handles no target. *)
Theorem resume_after_completed_run_sends_nothing :
  forall env fuel c author dry_run (resume : bool) meow skip file st',
  run_batch env fuel c author dry_run resume meow skip (init file) = (Summary, st') ->
  exists k,
    k = Nat.max (List.length (filter enabled (targets c)))
                (if resume then resume_index file else 0%nat) /\
    current_target_index st' = k /\
    resume_index (progress_file st') = k /\
    forall env2 fuel2 author2 dry_run2 meow2 skip2,
      run_batch env2 fuel2 c author2 dry_run2 true meow2 skip2 (init (progress_file st')) =
      (Summary,
       mkState zero_stats k false (progress_file st') (progress_file st') 0 []).
Proof.
  intros env fuel c author dry_run resume meow skip file st' H.
  rewrite run_batch_split in H. cbv zeta in H.
  set (loaded := snd (load_progress resume (init file))) in *.
  assert (Hstop : should_stop loaded = false).
  { subst loaded. unfold load_progress.
    destruct resume; [destruct file |]; reflexivity. }
  assert (Hfile : progress_file loaded = file).
  { subst loaded. unfold load_progress.
    destruct resume; [destruct file |]; reflexivity. }
  assert (Hidx : current_target_index loaded =
                 if resume then resume_index file else 0%nat).
  { subst loaded. unfold load_progress, resume_index.
    destruct resume; [destruct file |]; reflexivity. }
  destruct (filter enabled (targets c)) as [| t ts] eqn:E; [discriminate H |].
  set (k0 := current_target_index loaded) in *.
  destruct (run_targets env (apply_overrides (cfg_settings c) meow skip) author dry_run
              fuel k0 (skipn k0 (t :: ts)) loaded) as [r st1] eqn:Er.
  simpl in H. destruct r; [| discriminate H]. injection H as <-.
  assert (Hresumed : forall k,
    (List.length (t :: ts) <= k)%nat ->
    resume_index (progress_file st1) = k ->
    progress_file st1 <> None ->
    forall env2 fuel2 author2 dry_run2 meow2 skip2,
      run_batch env2 fuel2 c author2 dry_run2 true meow2 skip2 (init (progress_file st1)) =
      (Summary, mkState zero_stats k false (progress_file st1) (progress_file st1) 0 [])).
  { intros k Hk Hr Hsome env2 fuel2 author2 dry_run2 meow2 skip2.
    rewrite run_batch_split. cbv zeta. rewrite E.
    destruct (progress_file st1) as [saved |] eqn:Ef; [| congruence].
    unfold resume_index in Hr.
    simpl load_progress. simpl snd. simpl current_target_index.
    rewrite Hr. rewrite skipn_all2 by exact Hk. reflexivity. }
  destruct (skipn k0 (t :: ts)) as [| t1 rest] eqn:Es.
  - simpl in Er. unfold ret in Er. injection Er as <-.
    assert (Hlen : (List.length (t :: ts) <= k0)%nat).
    { pose proof (length_skipn k0 (t :: ts)) as L. rewrite Es in L.
      change (List.length (@nil target)) with 0%nat in L. lia. }
    assert (Hpos : (0 < k0)%nat).
    { change (List.length (t :: ts)) with (S (List.length ts)) in Hlen. lia. }
    assert (Hk0 : k0 = resume_index file).
    { destruct resume; [exact Hidx | lia]. }
    assert (Hsome : file <> None).
    { intros Hn. rewrite Hn in Hk0. change (resume_index None) with 0%nat in Hk0. lia. }
    exists k0.
    split; [rewrite <- Hidx; lia |].
    split; [reflexivity | split; [rewrite Hfile; symmetry; exact Hk0 |]].
    apply Hresumed;
      [exact Hlen | rewrite Hfile; symmetry; exact Hk0 | rewrite Hfile; exact Hsome].
  - destruct (@run_targets_finished env (apply_overrides (cfg_settings c) meow skip)
                author dry_run fuel (t1 :: rest) k0 loaded st1
                Hstop ltac:(discriminate) Er) as [Hi Hf].
    assert (Hlen : (k0 + List.length (t1 :: rest) = List.length (t :: ts))%nat).
    { pose proof (length_skipn k0 (t :: ts)) as L. rewrite Es in L.
      change (List.length (t1 :: rest)) with (S (List.length rest)) in *. lia. }
    rewrite Hlen in Hi, Hf.
    exists (List.length (t :: ts)).
    split.
    { rewrite <- Hidx.
      change (List.length (t1 :: rest)) with (S (List.length rest)) in Hlen. lia. }
    split; [exact Hi | split; [rewrite Hf; reflexivity |]].
    apply Hresumed; [lia | rewrite Hf; reflexivity | rewrite Hf; discriminate].
Qed.

Lemma resume_after_completed_run_sends_nothing_witness :
  (current_target_index
     (snd (run_batch (archive three_messages) 10 five_targets "me" true false None None
             (init None))) = 5%nat /\
   forall env2 fuel2 author2 dry_run2 meow2 skip2,
     run_batch env2 fuel2 five_targets author2 dry_run2 true meow2 skip2
               (init (Some (mkCheckpoint (Some 5%nat) zero_stats))) =
     (Summary,
      mkState zero_stats 5 false (Some (mkCheckpoint (Some 5%nat) zero_stats))
              (Some (mkCheckpoint (Some 5%nat) zero_stats)) 0 [])) /\
  (current_target_index
     (snd (run_batch nothing_left 10 five_targets "me" false true None None
             (init (Some (mkCheckpoint (Some 7%nat) zero_stats))))) = 7%nat /\
   forall env2 fuel2 author2 dry_run2 meow2 skip2,
     run_batch env2 fuel2 five_targets author2 dry_run2 true meow2 skip2
               (init (Some (mkCheckpoint (Some 7%nat) zero_stats))) =
     (Summary,
      mkState zero_stats 7 false (Some (mkCheckpoint (Some 7%nat) zero_stats))
              (Some (mkCheckpoint (Some 7%nat) zero_stats)) 0 [])).
Proof.
  assert (H1 : run_batch (archive three_messages) 10 five_targets "me" true false None None
                 (init None) =
               (Summary,
                snd (run_batch (archive three_messages) 10 five_targets "me" true false
                       None None (init None)))).
  { vm_compute. reflexivity. }
  assert (H2 : run_batch nothing_left 10 five_targets "me" false true None None
                 (init (Some (mkCheckpoint (Some 7%nat) zero_stats))) =
               (Summary,
                snd (run_batch nothing_left 10 five_targets "me" false true None None
                       (init (Some (mkCheckpoint (Some 7%nat) zero_stats)))))).
  { vm_compute. reflexivity. }
  split.
  - destruct (@resume_after_completed_run_sends_nothing (archive three_messages) 10%nat
                five_targets "me" true false None None None _ H1) as [k [Hk [Hi [_ Hr]]]].
    change (k = 5%nat) in Hk. subst k. split; [exact Hi | exact Hr].
  - destruct (@resume_after_completed_run_sends_nothing nothing_left 10%nat
                five_targets "me" false true None None
                (Some (mkCheckpoint (Some 7%nat) zero_stats)) _ H2) as [k [Hk [Hi [_ Hr]]]].
    change (k = 7%nat) in Hk. subst k. split; [exact Hi | exact Hr].
Defined.

(** ** The attempts of the executor *)

Lemma count_events_app : forall f l1 l2,
  count_events f (l1 ++ l2) = (count_events f l1 + count_events f l2)%nat.
Proof. intros. unfold count_events. rewrite filter_app, length_app. reflexivity. Qed.

Lemma count_events_sleeps : forall f l,
  (forall s, f (ESleep s) = false) -> Forall is_sleep l -> count_events f l = 0%nat.
Proof.
  intros f l Hf H. unfold count_events.
  induction H as [| e l [s ->] _ IH]; simpl; [reflexivity |].
  rewrite Hf. exact IH.
Qed.

(** A delete or an edit is one call, followed by sleeps only. *)
Lemma action_result_sleeps : forall ok_status attempt rep st,
  exists sl,
    log (snd (action_result ok_status attempt rep st)) = log st ++ sl /\
    Forall is_sleep sl /\
    ncalls (snd (action_result ok_status attempt rep st)) = ncalls st.
Proof.
  intros ok_status attempt rep st. unfold action_result.
  destruct rep as [r |]; [| exists []; simpl; rewrite app_nil_r; auto].
  destruct (status_code r =? ok_status); [exists []; simpl; rewrite app_nil_r; auto |].
  destruct (status_code r =? 429).
  { exists [ESleep (get_retry_after r 3 * 2)]. simpl.
    repeat split; auto. repeat constructor. eexists; reflexivity. }
  destruct (status_code r =? 404); [exists []; simpl; rewrite app_nil_r; auto |].
  destruct (status_code r =? 400); [exists []; simpl; rewrite app_nil_r; auto |].
  destruct (status_code r =? 403); exists []; simpl; rewrite app_nil_r; auto.
Qed.

Lemma delete_message_one_call : forall env ch i attempt st,
  exists sl,
    log (snd (delete_message env ch i attempt st)) = log st ++ EDelete ch i :: sl /\
    Forall is_sleep sl /\
    ncalls (snd (delete_message env ch i attempt st)) = S (ncalls st).
Proof.
  intros env ch i attempt st. unfold delete_message, bind, http.
  destruct (action_result_sleeps 204 attempt (env (ncalls st) (EDelete ch i))
              (called (EDelete ch i) st)) as [sl [L [F N]]].
  exists sl. unfold called in *.
  destruct (action_result 204 attempt (env (ncalls st) (EDelete ch i)) _) as [res st1].
  simpl in *. rewrite L, <- app_assoc. auto.
Qed.

Lemma edit_message_one_call : forall env ch i t attempt st,
  exists sl,
    log (snd (edit_message env ch i t attempt st)) = log st ++ EEdit ch i t :: sl /\
    Forall is_sleep sl /\
    ncalls (snd (edit_message env ch i t attempt st)) = S (ncalls st).
Proof.
  intros env ch i t attempt st. unfold edit_message, bind, http.
  destruct (action_result_sleeps 200 attempt (env (ncalls st) (EEdit ch i t))
              (called (EEdit ch i t) st)) as [sl [L [F N]]].
  exists sl. unfold called in *.
  destruct (action_result 200 attempt (env (ncalls st) (EEdit ch i t)) _) as [res st1].
  simpl in *. rewrite L, <- app_assoc. auto.
Qed.

Lemma count_events_none : forall f l,
  Forall (fun e => f e = false) l -> count_events f l = 0%nat.
Proof.
  intros f l H. unfold count_events.
  induction H as [| e l He _ IH]; simpl; [reflexivity |].
  rewrite He. exact IH.
Qed.

(** The delete loop sends at most [remaining] delete calls, all for the
    message at hand, and nothing else but sleeps. *)
Lemma delete_attempts_calls : forall env cfg ch i remaining attempt g b st,
  exists evs,
    log (snd (delete_attempts env cfg ch remaining attempt i g b st)) = log st ++ evs /\
    (count_events is_delete_call evs <= remaining)%nat /\
    Forall (fun e => e = EDelete ch i \/ is_sleep e) evs.
Proof.
  intros env cfg ch i.
  induction remaining as [| remaining IH]; intros attempt g b st.
  { exists []. simpl. rewrite app_nil_r. auto. }
  simpl. unfold bind at 1.
  destruct (delete_message_one_call env ch i attempt st) as [sl [L [F _]]].
  destruct (delete_message env ch i attempt st) as [res st1]. simpl in L.
  assert (Hsl : count_events is_delete_call (EDelete ch i :: sl) = 1%nat).
  { change (EDelete ch i :: sl) with ([EDelete ch i] ++ sl).
    rewrite count_events_app, (count_events_sleeps _ (fun _ => eq_refl) F). reflexivity. }
  assert (Hcl : Forall (fun e => e = EDelete ch i \/ is_sleep e) (EDelete ch i :: sl)).
  { constructor; [left; reflexivity |].
    eapply Forall_impl; [| exact F]. intros e He. right. exact He. }
  assert (Hend : forall st2, log st2 = log st1 ->
    exists evs,
      log st2 = log st ++ evs /\
      (count_events is_delete_call evs <= S remaining)%nat /\
      Forall (fun e => e = EDelete ch i \/ is_sleep e) evs).
  { intros st2 E. exists (EDelete ch i :: sl).
    rewrite E. split; [exact L | split; [lia | exact Hcl]]. }
  destruct res; try (apply Hend; reflexivity).
  destruct (attempt <? max_retries cfg)%nat; [| apply Hend; reflexivity].
  unfold bind, sleep, emit. simpl.
  match goal with |- context [delete_attempts _ _ _ _ _ _ _ _ ?s] =>
    destruct (IH (S attempt) g b s) as [evs [L' [C' F']]] end.
  simpl in L'.
  exists ((EDelete ch i :: sl) ++ [ESleep 1] ++ evs). split; [| split].
  - rewrite L', L, <- !app_assoc. reflexivity.
  - rewrite !count_events_app, Hsl.
    change (count_events is_delete_call [ESleep 1]) with 0%nat. lia.
  - apply Forall_app. split; [exact Hcl |].
    constructor; [right; eexists; reflexivity | exact F'].
Qed.

Lemma edit_attempts_calls : forall env cfg ch i remaining attempt b st,
  exists evs,
    log (snd (edit_attempts env cfg ch remaining attempt i b st)) = log st ++ evs /\
    (count_events is_edit_call evs <= remaining)%nat /\
    Forall (fun e => e = EEdit ch i MEOW_TEXT \/ is_sleep e) evs.
Proof.
  intros env cfg ch i.
  induction remaining as [| remaining IH]; intros attempt b st.
  { exists []. simpl. rewrite app_nil_r. auto. }
  simpl. unfold bind at 1.
  destruct (edit_message_one_call env ch i MEOW_TEXT attempt st) as [sl [L [F _]]].
  destruct (edit_message env ch i MEOW_TEXT attempt st) as [res st1]. simpl in L.
  assert (Hsl : count_events is_edit_call (EEdit ch i MEOW_TEXT :: sl) = 1%nat).
  { change (EEdit ch i MEOW_TEXT :: sl) with ([EEdit ch i MEOW_TEXT] ++ sl).
    rewrite count_events_app, (count_events_sleeps _ (fun _ => eq_refl) F). reflexivity. }
  assert (Hcl : Forall (fun e => e = EEdit ch i MEOW_TEXT \/ is_sleep e)
                       (EEdit ch i MEOW_TEXT :: sl)).
  { constructor; [left; reflexivity |].
    eapply Forall_impl; [| exact F]. intros e He. right. exact He. }
  assert (Hhere : forall st2, log st2 = log st1 ->
    exists evs,
      log st2 = log st ++ evs /\
      (count_events is_edit_call evs <= S remaining)%nat /\
      Forall (fun e => e = EEdit ch i MEOW_TEXT \/ is_sleep e) evs).
  { intros st2 E. exists (EEdit ch i MEOW_TEXT :: sl).
    rewrite E. split; [exact L | split; [lia | exact Hcl]]. }
  destruct res; try (apply Hhere; reflexivity).
  destruct (attempt <? max_retries cfg)%nat; [| apply Hhere; reflexivity].
  unfold bind, sleep, emit. simpl.
  match goal with |- context [edit_attempts _ _ _ _ _ _ _ ?s] =>
    destruct (IH (S attempt) b s) as [evs [L' [C' F']]] end.
  simpl in L'.
  exists ((EEdit ch i MEOW_TEXT :: sl) ++ [ESleep 1] ++ evs). split; [| split].
  - rewrite L', L, <- !app_assoc. reflexivity.
  - rewrite !count_events_app, Hsl.
    change (count_events is_edit_call [ESleep 1]) with 0%nat. lia.
  - apply Forall_app. split; [exact Hcl |].
    constructor; [right; eexists; reflexivity | exact F'].
Qed.

Lemma delete_stage_calls : forall env cfg ch msg g b st,
  exists evs,
    log (snd (delete_stage env cfg ch msg g b st)) = log st ++ evs /\
    (count_events is_delete_call evs <= max_retries cfg)%nat /\
    Forall (fun e => e = EDelete ch (id msg) \/ is_sleep e) evs.
Proof.
  intros env cfg ch msg g b st.
  assert (Hdel : exists evs,
    log (snd ((r <- delete_attempts env cfg ch (max_retries cfg) 1 (id msg) g b ;;
               let (was_ghost', b') := r in
               (if negb was_ghost' then sleep (delete_delay cfg) else ret tt) ;;
               ret b') st)) = log st ++ evs /\
    (count_events is_delete_call evs <= max_retries cfg)%nat /\
    Forall (fun e => e = EDelete ch (id msg) \/ is_sleep e) evs).
  { unfold bind at 1.
    destruct (delete_attempts_calls env cfg ch (id msg) (max_retries cfg) 1 g b st)
      as [evs [L [C F]]].
    destruct (delete_attempts env cfg ch (max_retries cfg) 1 (id msg) g b st)
      as [[g' b'] st1].
    simpl in L. destruct g'; simpl.
    - exists evs. auto.
    - exists (evs ++ [ESleep (delete_delay cfg)]).
      rewrite L, <- app_assoc. split; [reflexivity | split].
      + rewrite count_events_app.
        change (count_events is_delete_call [ESleep (delete_delay cfg)]) with 0%nat. lia.
      + apply Forall_app. split; [exact F |].
        constructor; [right; eexists; reflexivity | constructor]. }
  unfold delete_stage. destruct (meow_mode cfg); try exact Hdel.
  destruct g; simpl.
  - exists []. rewrite app_nil_r.
    split; [reflexivity | split; [apply Nat.le_0_l | constructor]].
  - exists [ESleep (delete_delay cfg)].
    split; [reflexivity | split; [apply Nat.le_0_l |]].
    constructor; [right; eexists; reflexivity | constructor].
Qed.

(** X6.  The handling of one message sends at most [max_retries] delete
    calls and at most [max_retries] edit calls, whatever the server answers;
    every call is for that message in the channel at hand, every edit writes
    the marker text, and nothing else happens but sleeps: no search, no
    write of the progress file. *)
Theorem attempts_are_bounded : forall env cfg ch msg b st,
  exists evs,
    log (snd (process_message env cfg ch msg b st)) = log st ++ evs /\
    (count_events is_delete_call evs <= max_retries cfg)%nat /\
    (count_events is_edit_call evs <= max_retries cfg)%nat /\
    Forall (fun e => e = EDelete ch (id msg) \/ e = EEdit ch (id msg) MEOW_TEXT \/
                     is_sleep e) evs.
Proof.
  intros env cfg ch msg b st.
  assert (Hd : forall g b0 st0, exists evs,
    log (snd (delete_stage env cfg ch msg g b0 st0)) = log st0 ++ evs /\
    (count_events is_delete_call evs <= max_retries cfg)%nat /\
    count_events is_edit_call evs = 0%nat /\
    Forall (fun e => e = EDelete ch (id msg) \/ e = EEdit ch (id msg) MEOW_TEXT \/
                     is_sleep e) evs).
  { intros g b0 st0.
    destruct (delete_stage_calls env cfg ch msg g b0 st0) as [evs [L [C F]]].
    exists evs. split; [exact L | split; [exact C | split]].
    - apply count_events_none. eapply Forall_impl; [| exact F].
      intros e [-> | [s ->]]; reflexivity.
    - eapply Forall_impl; [| exact F]. intros e [H | H]; auto. }
  assert (Hd' : forall g b0 st0, exists evs,
    log (snd (delete_stage env cfg ch msg g b0 st0)) = log st0 ++ evs /\
    (count_events is_delete_call evs <= max_retries cfg)%nat /\
    (count_events is_edit_call evs <= max_retries cfg)%nat /\
    Forall (fun e => e = EDelete ch (id msg) \/ e = EEdit ch (id msg) MEOW_TEXT \/
                     is_sleep e) evs).
  { intros g b0 st0. destruct (Hd g b0 st0) as [evs [L [C [C0 F]]]].
    exists evs. rewrite C0. auto using Nat.le_0_l. }
  assert (He : exists evs,
    log (snd ((r <- edit_attempts env cfg ch (max_retries cfg) 1 (id msg) b ;;
               let '(edit_success, was_ghost, b') := r in
               if was_ghost then ret b'
               else
                 (if edit_success then sleep (delete_delay cfg) else ret tt) ;;
                 delete_stage env cfg ch msg was_ghost b') st)) = log st ++ evs /\
    (count_events is_delete_call evs <= max_retries cfg)%nat /\
    (count_events is_edit_call evs <= max_retries cfg)%nat /\
    Forall (fun e => e = EDelete ch (id msg) \/ e = EEdit ch (id msg) MEOW_TEXT \/
                     is_sleep e) evs).
  { unfold bind at 1.
    destruct (edit_attempts_calls env cfg ch (id msg) (max_retries cfg) 1 b st)
      as [ev1 [L1 [C1 F1]]].
    destruct (edit_attempts env cfg ch (max_retries cfg) 1 (id msg) b st)
      as [[[s g] b1] st1].
    simpl in L1.
    assert (D1 : count_events is_delete_call ev1 = 0%nat).
    { apply count_events_none. eapply Forall_impl; [| exact F1].
      intros e [-> | [w ->]]; reflexivity. }
    assert (F1' : Forall (fun e => e = EDelete ch (id msg) \/
                                   e = EEdit ch (id msg) MEOW_TEXT \/ is_sleep e) ev1).
    { eapply Forall_impl; [| exact F1]. intros e [H | H]; auto. }
    destruct g.
    { exists ev1. simpl. rewrite D1. auto using Nat.le_0_l. }
    destruct s; unfold bind, sleep, emit; simpl.
    - match goal with |- context [delete_stage _ _ _ _ _ _ ?s0] =>
        destruct (Hd false b1 s0) as [ev2 [L2 [C2 [E2 F2]]]] end.
      simpl in L2.
      exists (ev1 ++ [ESleep (delete_delay cfg)] ++ ev2). split; [| split; [| split]].
      + rewrite L2, L1, <- !app_assoc. reflexivity.
      + rewrite !count_events_app, D1.
        change (count_events is_delete_call [ESleep (delete_delay cfg)]) with 0%nat. lia.
      + rewrite !count_events_app, E2.
        change (count_events is_edit_call [ESleep (delete_delay cfg)]) with 0%nat. lia.
      + apply Forall_app. split; [exact F1' |].
        constructor; [right; right; eexists; reflexivity | exact F2].
    - destruct (Hd false b1 st1) as [ev2 [L2 [C2 [E2 F2]]]].
      exists (ev1 ++ ev2). split; [| split; [| split]].
      + rewrite L2, L1, <- !app_assoc. reflexivity.
      + rewrite !count_events_app, D1. lia.
      + rewrite !count_events_app, E2. lia.
      + apply Forall_app. split; [exact F1' | exact F2]. }
  unfold process_message.
  destruct (meow_mode cfg); [apply Hd' | |];
    (destruct (content_is_meow msg); cbn [negb]; [apply Hd' | exact He]).
Qed.

(** ** Where the messages that are acted on come from *)

Lemma eligible_own_unfiltered : forall cfg author groups m,
  In m (eligible cfg author groups) ->
  In m (List.concat groups) /\ own_unfiltered cfg author m.
Proof.
  intros cfg author groups m H.
  apply eligible_iff in H. destruct H as [H Hf].
  apply all_hit_messages_iff in H. destruct H as [Hin Hown].
  split; [exact Hin |].
  unfold is_own_hit in Hown. apply andb_true_iff in Hown. destruct Hown as [Hh Ha].
  unfold is_filtered in Hf. apply orb_false_iff in Hf. destruct Hf as [Hp Hm].
  split; [exact Hh | split; [| split]].
  - destruct (author_id m) as [a |]; [| discriminate Ha].
    apply String.eqb_eq in Ha. congruence.
  - intros Hs. rewrite Hs in Hp. exact Hp.
  - intros Hs Hc. rewrite Hs in Hm. simpl in Hm.
    apply content_is_meow_iff in Hc. congruence.
Qed.

(** A log in two parts is replayed part after part. *)
Lemma replayed_app : forall env ok evs1 n page evs2,
  replayed env ok n page (evs1 ++ evs2) <->
  replayed env ok n page evs1 /\
  replayed env ok (fst (replay_end env n page evs1)) (snd (replay_end env n page evs1)) evs2.
Proof.
  intros env ok. induction evs1 as [| e evs1 IH]; intros n page evs2; simpl.
  - tauto.
  - rewrite IH. tauto.
Qed.

Lemma replay_end_app : forall env evs1 n page evs2,
  replay_end env n page (evs1 ++ evs2) =
  replay_end env (fst (replay_end env n page evs1)) (snd (replay_end env n page evs1)) evs2.
Proof.
  intros env. induction evs1 as [| e evs1 IH]; intros n page evs2; simpl;
    [reflexivity | apply IH].
Qed.

Lemma sees_refl : forall env ok page st, sees env ok page st page st.
Proof.
  intros env ok page st. exists []. rewrite app_nil_r. simpl. auto.
Qed.

Lemma sees_trans : forall env ok p a p1 b p2 c,
  sees env ok p a p1 b -> sees env ok p1 b p2 c -> sees env ok p a p2 c.
Proof.
  intros env ok p a p1 b p2 c [e1 [L1 [R1 E1]]] [e2 [L2 [R2 E2]]].
  exists (e1 ++ e2). split; [rewrite L2, L1, app_assoc; reflexivity |].
  split.
  - apply replayed_app. rewrite E1. simpl. auto.
  - rewrite replay_end_app, E1. simpl. exact E2.
Qed.

Lemma sees_sleep : forall env (ok : list message -> event -> Prop) page s st,
  ok page (ESleep s) -> sees env ok page st page (snd (sleep s st)).
Proof.
  intros env ok page s st H. exists [ESleep s]. simpl. auto.
Qed.

Lemma sees_update_stats : forall env (ok : list message -> event -> Prop) page f st,
  sees env ok page st page (snd (update_stats f st)).
Proof.
  intros env ok page f st. exists []. simpl. rewrite app_nil_r. auto.
Qed.

(** A search puts the page of its reply in hand. *)
Lemma sees_search : forall env (ok : list message -> event -> Prop) page g c o m st,
  ok page (ESearch g c o m) ->
  sees env ok page st (page_of (env (ncalls st) (ESearch g c o m)))
       (snd (http env (ESearch g c o m) st)).
Proof.
  intros env ok page g c o m st H. exists [ESearch g c o m]. simpl. auto.
Qed.

(** The page that [search_messages] returns is the page in hand when it
    returns: the page of the reply to its last call. *)
Lemma search_messages_sees : forall env (ok : list message -> event -> Prop) g c o m,
  (forall page, ok page (ESearch g c o m)) ->
  (forall page s, ok page (ESleep s)) ->
  forall fuel page st res st1,
  search_messages fuel env g c o m st = (res, st1) ->
  exists page1,
    sees env ok page st page1 st1 /\
    forall groups, res = Page groups -> page1 = List.concat groups.
Proof.
  intros env ok g c o m Hsearch Hsleep.
  induction fuel as [| fuel IH]; intros page st res st1 H; simpl in H.
  { unfold ret in H. injection H as <- <-.
    exists page. split; [apply sees_refl | discriminate]. }
  pose proof (@sees_search env ok page g c o m st (Hsearch page)) as S0.
  unfold bind at 1 in H.
  change (http env (ESearch g c o m) st)
    with (env (ncalls st) (ESearch g c o m), snd (http env (ESearch g c o m) st)) in H.
  cbv iota in H.
  set (st0 := snd (http env (ESearch g c o m) st)) in *.
  destruct (env (ncalls st) (ESearch g c o m)) as [r |].
  2:{ unfold ret in H. injection H as <- <-.
      exists (page_of RequestException). split; [exact S0 | discriminate]. }
  destruct (status_code r =? 429) eqn:E429.
  { assert (Hpage : page_of (Response r) = []).
    { unfold page_of. rewrite E429. reflexivity. }
    rewrite Hpage in S0.
    change (search_messages fuel env g c o m
              (snd (sleep (get_retry_after r 40 * 2)
                      (snd (update_stats inc_rate_limited st0)))) = (res, st1)) in H.
    destruct (IH [] _ _ _ H) as [page1 [S3 Hp]].
    exists page1. split; [| exact Hp].
    eapply sees_trans; [exact S0 |].
    eapply sees_trans; [exact (@sees_update_stats env ok [] inc_rate_limited st0) |].
    eapply sees_trans; [| exact S3].
    apply sees_sleep. apply Hsleep. }
  destruct (status_code r =? 202) eqn:E202.
  { assert (Hpage : page_of (Response r) = []).
    { unfold page_of. rewrite E429, E202. reflexivity. }
    rewrite Hpage in S0.
    change (search_messages fuel env g c o m
              (snd (sleep (get_retry_after r 5) st0)) = (res, st1)) in H.
    destruct (IH [] _ _ _ H) as [page1 [S3 Hp]].
    exists page1. split; [| exact Hp].
    eapply sees_trans; [exact S0 |].
    eapply sees_trans; [| exact S3].
    apply sees_sleep. apply Hsleep. }
  destruct ((400 <=? status_code r) && (status_code r <? 600)) eqn:Eerr.
  { unfold ret in H. injection H as <- <-.
    exists (page_of (Response r)). split; [exact S0 | discriminate]. }
  unfold ret in H. injection H as <- <-.
  exists (page_of (Response r)). split; [exact S0 |].
  intros groups Hg. injection Hg as <-.
  unfold page_of. rewrite E429, E202, Eerr. reflexivity.
Qed.

(** Events that are no search leave the page in hand. *)
Lemma quiet_replay : forall env (ok : list message -> event -> Prop) page evs n,
  Forall (fun e => is_search_call e = false /\ ok page e) evs ->
  replayed env ok n page evs /\
  replay_end env n page evs = ((n + count_events is_call evs)%nat, page).
Proof.
  intros env ok page. induction evs as [| e evs IH]; intros n H.
  - simpl. split; [exact I |]. unfold count_events. simpl. rewrite Nat.add_0_r. reflexivity.
  - inversion H as [| e' evs' [Hs Hok] Hrest]; subst.
    assert (Hp : step_page env n page e = page)
      by (destruct e; try reflexivity; discriminate Hs).
    destruct (IH (step_call n e) Hrest) as [R E].
    simpl. rewrite Hp. split; [split; assumption |].
    rewrite E. f_equal. unfold step_call, count_events. cbn [filter].
    destruct (is_call e); cbn [List.length]; lia.
Qed.

Lemma calls_counted_refl : forall st, calls_counted st st.
Proof.
  intros st. exists []. rewrite app_nil_r. unfold count_events. simpl.
  split; [reflexivity | lia].
Qed.

Lemma calls_counted_trans : forall a b c,
  calls_counted a b -> calls_counted b c -> calls_counted a c.
Proof.
  intros a b c [e1 [L1 N1]] [e2 [L2 N2]]. exists (e1 ++ e2).
  split; [rewrite L2, L1, app_assoc; reflexivity |].
  rewrite count_events_app. lia.
Qed.

(** The handling of a page moves the call counter by the calls it logs. *)
Lemma handle_page_calls_counted : forall env cfg author dry_run channel cs groups st,
  calls_counted st (snd (handle_page env cfg author dry_run channel cs groups st)).
Proof.
  intros env cfg author dry_run channel cs groups st.
  apply frame_handle_page.
  - exact calls_counted_refl.
  - exact calls_counted_trans.
  - intros s st0. exists [ESleep s]. unfold count_events. simpl.
    split; [reflexivity | lia].
  - intros env' req st0 Hc. exists [req]. unfold count_events. simpl. rewrite Hc. simpl.
    split; [reflexivity | lia].
  - intros f st0. exists []. unfold count_events. simpl. rewrite app_nil_r.
    split; [reflexivity | lia].
Qed.

(** While a page is handled the page in hand stays, and the events are
    those of the executor on the eligible messages of that page. *)
Lemma handle_page_sees :
  forall env (ok : list message -> event -> Prop) cfg author dry_run channel cs groups,
  (forall page s, ok page (ESleep s)) ->
  (dry_run = true \/
   preserves (evolves (fun e => is_search_call e = false /\ ok (List.concat groups) e)
                      any_counters)
     (process_messages env cfg channel (eligible cfg author groups) None (mkBatch 0 0 0))) ->
  forall st,
  sees env ok (List.concat groups) st (List.concat groups)
       (snd (handle_page env cfg author dry_run channel cs groups st)).
Proof.
  intros env ok cfg author dry_run channel cs groups Hsleep Hexec st.
  destruct (@preserves_handle_page
              (fun e => is_search_call e = false /\ ok (List.concat groups) e)
              any_counters any_counters_refl any_counters_trans
              (fun s => conj eq_refl (Hsleep (List.concat groups) s))
              env cfg author dry_run channel cs groups Hexec st) as [[evs [L F]] _].
  destruct (handle_page_calls_counted env cfg author dry_run channel cs groups st)
    as [evs' [L' N]].
  assert (He : evs' = evs).
  { rewrite L in L'. apply app_inv_head in L'. congruence. }
  subst evs'.
  destruct (@quiet_replay env ok (List.concat groups) evs (ncalls st) F) as [R E].
  exists evs. split; [exact L | split; [exact R |]].
  rewrite E, N. reflexivity.
Qed.

(** The loop over a target, replayed against the server: each page is
    handled while it is in hand. *)
Section PageReplay.

Variable ok : list message -> event -> Prop.
Variable env : env_t.
Variable cfg : settings.
Variable author : string.
Variable dry_run : bool.
Variable guild channel : string.

Hypothesis ok_sleep : forall page s, ok page (ESleep s).
Hypothesis ok_search : forall page o m, ok page (ESearch guild channel o m).
Hypothesis executor : forall groups,
  preserves (evolves (fun e => is_search_call e = false /\ ok (List.concat groups) e)
                     any_counters)
    (process_messages env cfg channel (eligible cfg author groups) None (mkBatch 0 0 0)).

Lemma loop_body_sees : forall fuel cs page st,
  exists page1,
    sees env ok page st page1
         (snd (loop_body env cfg author dry_run guild channel fuel cs st)).
Proof.
  intros fuel cs page st. unfold loop_body. unfold bind at 1.
  destruct (search_messages fuel env guild channel (offset cs) (max_id_cursor cs) st)
    as [res st1] eqn:E.
  destruct (@search_messages_sees env ok guild channel (offset cs) (max_id_cursor cs)
              (fun p => ok_search p (offset cs) (max_id_cursor cs)) ok_sleep
              fuel page st res st1 E) as [page1 [S1 Hp]].
  destruct res as [groups | |].
  - rewrite (Hp groups eq_refl) in S1.
    exists (List.concat groups). eapply sees_trans; [exact S1 |].
    apply handle_page_sees; [exact ok_sleep | right; apply executor].
  - exists page1. exact S1.
  - exists page1. exact S1.
Qed.

Lemma process_target_loop_sees : forall fuel cs page st,
  exists page1,
    sees env ok page st page1
         (snd (process_target_loop env cfg author dry_run guild channel fuel cs st)).
Proof.
  induction fuel as [| fuel IH]; intros cs page st; simpl.
  { exists page. apply sees_refl. }
  unfold bind at 1, get_should_stop. simpl.
  destruct (should_stop st); [exists page; apply sees_refl |].
  unfold bind at 1.
  destruct (loop_body_sees fuel cs page st) as [page1 S1].
  destruct (loop_body env cfg author dry_run guild channel fuel cs st) as [step st1].
  simpl in S1.
  destruct step as [| cs' |]; try (exists page1; exact S1).
  destruct (IH cs' page1 st1) as [page2 S2].
  exists page2. eapply sees_trans; eassumption.
Qed.

End PageReplay.

(** X7.  The log of the processing of a target is replayed against the
    server, call by call from the number of the first one, each search
    being answered by the reply the engine received for it.  Every search
    is a search of the target, and every edit or delete call is sent in the
    channel of the target for a message of the page in hand: the page of the
    reply to the most recent search before the call.  In that page the
    message is marked as a hit, its author is the current user, it is not
    pinned when [skip_pinned] is set and does not carry the marker text when
    [skip_meowed] is set.  Before the first search, and after a search that
    is answered by a backoff signal, an error or an exception, no message is
    in hand.  The replay ends at the call number the engine ends at. *)
Theorem only_returned_own_messages_are_touched :
  forall env cfg author fuel t dry_run st,
  exists evs,
    log (snd (process_target env cfg author fuel t dry_run st)) = log st ++ evs /\
    replayed env (touches_own cfg author (guild_of t) (channel_id t)) (ncalls st) [] evs /\
    fst (replay_end env (ncalls st) [] evs) =
    ncalls (snd (process_target env cfg author fuel t dry_run st)).
Proof.
  intros env cfg author fuel t dry_run st.
  unfold process_target. fold (guild_of t).
  destruct (@process_target_loop_sees
              (touches_own cfg author (guild_of t) (channel_id t))
              env cfg author dry_run (guild_of t) (channel_id t))
    with (fuel := fuel) (cs := initial_cursor) (page := @nil message) (st := st)
    as [page1 [evs [L [R E]]]].
  - intros page s. exact I.
  - intros page o m. split; reflexivity.
  - intros groups.
    apply preserves_process_messages; auto with engine.
    + intros s. split; [reflexivity | exact I].
    + intros msg Hin. apply eligible_own_unfiltered in Hin. destruct Hin as [Hin Hown].
      assert (Hok : exists m, In m (List.concat groups) /\ id m = id msg /\
                              own_unfiltered cfg author m).
      { exists msg. split; [exact Hin | split; [reflexivity | exact Hown]]. }
      split; right; (split; [reflexivity | split; [reflexivity | exact Hok]]).
  - exists evs. split; [exact L | split; [exact R |]]. rewrite E. reflexivity.
Qed.

(** The executor, for a class of events that holds every delete call: an
    edit call has to be in the class only when one can be sent. *)
Lemma preserves_process_message_edits : forall (P : event -> Prop) env cfg ch msg,
  (forall s, P (ESleep s)) ->
  (forall c i, P (EDelete c i)) ->
  (meow_mode cfg = off \/ content_is_meow msg = true \/ P (EEdit ch (id msg) MEOW_TEXT)) ->
  forall b,
  preserves (evolves P any_counters) (process_message env cfg ch msg b).
Proof.
  intros P env cfg ch msg Hsleep Hdel Hedit b.
  destruct Hedit as [H | [H | H]].
  - apply preserves_process_message; auto with engine.
  - unfold process_message. rewrite H. cbn [negb].
    destruct (meow_mode cfg); apply preserves_delete_stage; auto with engine.
  - apply preserves_process_message; auto with engine.
Qed.

Lemma preserves_process_messages_edits : forall (P : event -> Prop) env cfg ch msgs,
  (forall s, P (ESleep s)) ->
  (forall c i, P (EDelete c i)) ->
  (forall msg, In msg msgs ->
     meow_mode cfg = off \/ content_is_meow msg = true \/
     P (EEdit ch (id msg) MEOW_TEXT)) ->
  forall oldest b,
  preserves (evolves P any_counters) (process_messages env cfg ch msgs oldest b).
Proof.
  intros P env cfg ch msgs Hsleep Hdel.
  induction msgs as [| msg rest IH]; intros Hmsgs oldest b; simpl.
  - apply preserves_ret; auto with engine.
  - apply preserves_bind; auto with engine.
    { apply preserves_get_should_stop; auto with engine. }
    intros stop. apply preserves_if; [apply preserves_ret; auto with engine |].
    apply preserves_bind; auto with engine.
    + apply preserves_process_message_edits; auto. apply Hmsgs. left. reflexivity.
    + intros b'. apply IH. intros m Hm. apply Hmsgs. right. exact Hm.
Qed.

(** X8.  The log of the processing of a target is replayed against the
    server as in X7.  Every edit call writes the marker text, is sent in a
    meow mode only (never in mode [off]), and is sent for a message of the
    page in hand, the page of the reply to the most recent search before
    the call, whose content in that page is not the marker text: a message
    that the engine received with the marker is not edited. *)
Theorem edits_only_mark_unmarked_messages :
  forall env cfg author fuel t dry_run st,
  exists evs,
    log (snd (process_target env cfg author fuel t dry_run st)) = log st ++ evs /\
    replayed env (marks_unmarked cfg) (ncalls st) [] evs /\
    fst (replay_end env (ncalls st) [] evs) =
    ncalls (snd (process_target env cfg author fuel t dry_run st)).
Proof.
  intros env cfg author fuel t dry_run st.
  unfold process_target. fold (guild_of t).
  destruct (@process_target_loop_sees (marks_unmarked cfg)
              env cfg author dry_run (guild_of t) (channel_id t))
    with (fuel := fuel) (cs := initial_cursor) (page := @nil message) (st := st)
    as [page1 [evs [L [R E]]]].
  - intros page s. exact I.
  - intros page o m. exact I.
  - intros groups.
    apply preserves_process_messages_edits.
    + intros s. split; [reflexivity | exact I].
    + intros c i. split; [reflexivity | exact I].
    + intros msg Hin. apply eligible_own_unfiltered in Hin. destruct Hin as [Hin _].
      destruct (meow_mode cfg) eqn:Em; [left; reflexivity | |];
        (destruct (content_is_meow msg) eqn:Ec; [right; left; reflexivity |];
         right; right;
         split; [reflexivity |];
         split; [reflexivity | split; [rewrite Em; discriminate |]];
         exists msg; split; [exact Hin |];
         split; [reflexivity |];
         intros Hc; apply content_is_meow_iff in Hc; congruence).
  - exists evs. split; [exact L | split; [exact R |]]. rewrite E. reflexivity.
Qed.

(** ** How the messages of a batch are counted *)

Lemma edit_message_counters : forall env ch i t attempt st,
  only_rate_limited (stats st) (stats (snd (edit_message env ch i t attempt st))).
Proof.
  intros env ch i t attempt st. unfold edit_message.
  assert (H : preserves (evolves (fun _ => True) only_rate_limited)
                (rep <- http env (EEdit ch i t) ;; action_result 200 attempt rep)).
  { apply preserves_bind.
    - exact only_rate_limited_trans.
    - apply preserves_http; [exact only_rate_limited_refl | exact I].
    - intros rep. apply preserves_action_result.
      + exact only_rate_limited_refl.
      + exact only_rate_limited_trans.
      + intros; exact I.
      + exact only_rate_limited_inc. }
  apply (H st).
Qed.

(** The edit loop counts an edit, or a ghost, or nothing. *)
Lemma edit_attempts_counters : forall env cfg ch i remaining attempt b st sx gx bx st',
  edit_attempts env cfg ch remaining attempt i b st = ((sx, gx, bx), st') ->
  deleted (stats st') = deleted (stats st) /\
  skipped (stats st') = skipped (stats st) /\
  failed (stats st') = failed (stats st) /\
  rate_limited (stats st) <= rate_limited (stats st') /\
  match sx, gx with
  | true, false => edited (stats st') = edited (stats st) + 1 /\
                   ghosts (stats st') = ghosts (stats st)
  | false, true => edited (stats st') = edited (stats st) /\
                   ghosts (stats st') = ghosts (stats st) + 1
  | false, false => edited (stats st') = edited (stats st) /\
                    ghosts (stats st') = ghosts (stats st)
  | true, true => False
  end.
Proof.
  intros env cfg ch i.
  induction remaining as [| remaining IH]; intros attempt b st sx gx bx st' H.
  { simpl in H. unfold ret in H. injection H as <- <- <- <-. repeat split; lia. }
  simpl in H. unfold bind at 1 in H.
  pose proof (edit_message_counters env ch i MEOW_TEXT attempt st) as Hr.
  destruct (edit_message env ch i MEOW_TEXT attempt st) as [res st1]. simpl in Hr.
  destruct Hr as [[Hd [He [Hf [Hs Hg]]]] Hl].
  assert (Hnone : forall b0, ret (false, false, b0) st1 = (sx, gx, bx, st') ->
    deleted (stats st') = deleted (stats st) /\
    skipped (stats st') = skipped (stats st) /\
    failed (stats st') = failed (stats st) /\
    rate_limited (stats st) <= rate_limited (stats st') /\
    match sx, gx with
    | true, false => edited (stats st') = edited (stats st) + 1 /\
                     ghosts (stats st') = ghosts (stats st)
    | false, true => edited (stats st') = edited (stats st) /\
                     ghosts (stats st') = ghosts (stats st) + 1
    | false, false => edited (stats st') = edited (stats st) /\
                      ghosts (stats st') = ghosts (stats st)
    | true, true => False
    end).
  { intros b0 H0. unfold ret in H0. injection H0 as <- <- <- <-. repeat split; lia. }
  destruct res; try (eapply Hnone; exact H).
  - unfold bind, update_stats, ret in H. simpl in H.
    injection H as <- <- <- <-. simpl. repeat split; lia.
  - unfold bind, update_stats, ret in H. simpl in H.
    injection H as <- <- <- <-. simpl. repeat split; lia.
  - destruct (attempt <? max_retries cfg)%nat; [| eapply Hnone; exact H].
    unfold bind at 1, sleep, emit in H. simpl in H.
    apply IH in H. simpl in H.
    destruct H as [Cd [Cs [Cf [Cr Cm]]]].
    repeat split; try lia.
    destruct sx, gx; try contradiction; lia.
Qed.

Lemma delete_stage_counted_once : forall env cfg ch msg g b st,
  meow_mode cfg <> edit_only ->
  max_retries cfg <> 0%nat ->
  counted_once (stats st) (stats (snd (delete_stage env cfg ch msg g b st))).
Proof.
  intros env cfg ch msg g b st Hmode Hr.
  assert (Hdel : counted_once (stats st)
    (stats (snd ((r <- delete_attempts env cfg ch (max_retries cfg) 1 (id msg) g b ;;
                  let (was_ghost', b') := r in
                  (if negb was_ghost' then sleep (delete_delay cfg) else ret tt) ;;
                  ret b') st)))).
  { unfold bind at 1.
    pose proof (@delete_attempts_counted_once env cfg ch (id msg) (max_retries cfg) 1%nat
                  g b st ltac:(lia) ltac:(lia)) as Hc.
    destruct (delete_attempts env cfg ch (max_retries cfg) 1 (id msg) g b st)
      as [[g' b'] st1].
    simpl in Hc. destruct g'; exact Hc. }
  unfold delete_stage. destruct (meow_mode cfg); [exact Hdel | exact Hdel | congruence].
Qed.

Lemma process_message_counted_once : forall env cfg ch msg b st b' st',
  meow_mode cfg <> edit_only ->
  max_retries cfg <> 0%nat ->
  process_message env cfg ch msg b st = (b', st') ->
  terminal_sum (stats st') = terminal_sum (stats st) + 1 /\
  counters_grow (stats st) (stats st') /\
  edited (stats st') <= edited (stats st) + 1 /\
  (meow_mode cfg = off -> edited (stats st') = edited (stats st)).
Proof.
  intros env cfg ch msg b st b' st' Hmode Hr H.
  assert (Hstage : forall g b0 st0 b1 st1,
    delete_stage env cfg ch msg g b0 st0 = (b1, st1) ->
    terminal_sum (stats st1) = terminal_sum (stats st0) + 1 /\
    counters_grow (stats st0) (stats st1) /\
    edited (stats st1) = edited (stats st0)).
  { intros g b0 st0 b1 st1 H0.
    pose proof (@delete_stage_counted_once env cfg ch msg g b0 st0 Hmode Hr) as Hd.
    rewrite H0 in Hd. simpl in Hd.
    unfold counted_once in Hd. unfold terminal_sum, counters_grow. lia. }
  unfold process_message in H.
  destruct (meow_mode cfg) eqn:Em; [| | congruence].
  { apply Hstage in H. destruct H as [H1 [H2 H3]].
    split; [exact H1 | split; [exact H2 | split; [lia | intros _; exact H3]]]. }
  assert (Hno : edit_and_delete = off -> edited (stats st') = edited (stats st))
    by (intros Hx; discriminate Hx).
  destruct (content_is_meow msg); cbn [negb] in H.
  { apply Hstage in H. destruct H as [H1 [H2 H3]].
    split; [exact H1 | split; [exact H2 | split; [lia | exact Hno]]]. }
  unfold bind at 1 in H.
  destruct (edit_attempts env cfg ch (max_retries cfg) 1 (id msg) b st)
    as [[[sx gx] bx] st1] eqn:Ee.
  destruct (edit_attempts_counters _ _ _ _ _ _ _ _ Ee) as [Cd [Cs [Cf [Cr Cm]]]].
  destruct gx.
  { unfold ret in H. injection H as <- <-. destruct sx; [contradiction |].
    unfold terminal_sum, counters_grow.
    split; [lia | split; [lia | split; [lia | exact Hno]]]. }
  destruct sx; unfold bind at 1, sleep, emit, ret in H; simpl in H;
    apply Hstage in H; destruct H as [H1 [H2 H3]];
    revert H1 H2 H3; unfold terminal_sum, counters_grow; simpl; intros H1 H2 H3;
    (split; [lia | split; [lia | split; [lia | exact Hno]]]).
Qed.

Lemma process_messages_counted_once : forall env cfg ch msgs oldest b st r st',
  meow_mode cfg <> edit_only ->
  max_retries cfg <> 0%nat ->
  should_stop st = false ->
  process_messages env cfg ch msgs oldest b st = (r, st') ->
  terminal_sum (stats st') = terminal_sum (stats st) + Z.of_nat (List.length msgs) /\
  counters_grow (stats st) (stats st') /\
  edited (stats st') <= edited (stats st) + Z.of_nat (List.length msgs) /\
  (meow_mode cfg = off -> edited (stats st') = edited (stats st)).
Proof.
  intros env cfg ch msgs oldest b st r st' Hmode Hr.
  revert oldest b st r st'.
  induction msgs as [| msg rest IH]; intros oldest b st r st' Hstop H.
  { simpl in H. unfold ret in H. injection H as <- <-.
    simpl. split; [lia | split; [apply counters_grow_refl | split; [lia | reflexivity]]]. }
  cbn [process_messages] in H.
  unfold bind at 1, get_should_stop in H. rewrite Hstop in H.
  unfold bind at 1 in H.
  pose proof (process_message_should_stop env cfg ch msg b st) as Hs.
  destruct (process_message env cfg ch msg b st) as [b' st1] eqn:Ep.
  simpl in Hs. rewrite Hstop in Hs.
  destruct (@process_message_counted_once _ _ _ _ _ _ _ _ Hmode Hr Ep) as [M1 [M2 [M3 M4]]].
  destruct (IH _ _ _ _ _ Hs H) as [I1 [I2 [I3 I4]]].
  cbn [List.length]. rewrite Nat2Z.inj_succ.
  split; [lia | split; [| split]].
  - eapply counters_grow_trans; eassumption.
  - lia.
  - intros Hoff. rewrite I4, M4 by exact Hoff. reflexivity.
Qed.

(** X9.  Unless the mode is [edit_only], and with at least one attempt
    allowed, every message of a batch is counted exactly once: after the
    batch, [deleted + ghosts + skipped + failed] is higher by the number of
    messages, whatever the server answered to the edits and deletes and
    however many retries there were.  [edited] is higher by that number at
    most, and is unchanged in mode [off]; no counter is lower than before. *)
Theorem every_message_is_counted_once : forall env cfg ch msgs oldest b st,
  meow_mode cfg <> edit_only ->
  max_retries cfg <> 0%nat ->
  should_stop st = false ->
  terminal_sum (stats (snd (process_messages env cfg ch msgs oldest b st))) =
    terminal_sum (stats st) + Z.of_nat (List.length msgs) /\
  counters_grow (stats st) (stats (snd (process_messages env cfg ch msgs oldest b st))) /\
  edited (stats (snd (process_messages env cfg ch msgs oldest b st))) <=
    edited (stats st) + Z.of_nat (List.length msgs) /\
  (meow_mode cfg = off ->
   edited (stats (snd (process_messages env cfg ch msgs oldest b st))) = edited (stats st)).
Proof.
  intros env cfg ch msgs oldest b st Hmode Hr Hstop.
  destruct (process_messages env cfg ch msgs oldest b st) as [r st'] eqn:E.
  exact (@process_messages_counted_once _ _ _ _ _ _ _ _ _ Hmode Hr Hstop E).
Qed.

Lemma every_message_is_counted_once_witness :
  terminal_sum (stats (snd (process_messages forbidden_edits (default_settings edit_and_delete)
                              "c" three_messages None (mkBatch 0 0 0) (init None)))) =
    terminal_sum (stats (init None)) + 3.
Proof.
  apply (@every_message_is_counted_once forbidden_edits (default_settings edit_and_delete)
           "c" three_messages None (mkBatch 0 0 0) (init None)).
  - discriminate.
  - discriminate.
  - reflexivity.
Defined.

(** ** Edge cases of the retries *)

Lemma process_message_zero_retries : forall env cfg ch msg b st,
  max_retries cfg = 0%nat ->
  process_message env cfg ch msg b st = (b, snd (sleep (delete_delay cfg) st)).
Proof.
  intros env cfg ch msg b st H.
  unfold process_message, delete_stage. rewrite H.
  destruct (meow_mode cfg); destruct (content_is_meow msg); reflexivity.
Qed.

(** X10.  With [max_retries] set to 0 the two retry loops have no
    iteration: a batch sends no call at all and counts nothing, in every
    mode; it only sleeps [delete_delay] once per message.  The messages are
    still taken as processed: the oldest id that is returned, from which the
    cursor is moved, is the least id of the batch. *)
Theorem zero_retries_skips_silently : forall env cfg ch msgs oldest b st,
  max_retries cfg = 0%nat ->
  should_stop st = false ->
  process_messages env cfg ch msgs oldest b st =
    ((fold_left track_oldest (map id msgs) oldest, b),
     mkState (stats st) (current_target_index st) false (progress_data st)
             (progress_file st) (ncalls st)
             (log st ++ map (fun _ => ESleep (delete_delay cfg)) msgs)).
Proof.
  intros env cfg ch msgs oldest b st Hr.
  revert oldest st.
  induction msgs as [| msg rest IH]; intros oldest st Hstop.
  { simpl. rewrite app_nil_r. unfold ret. destruct st; simpl in *. subst. reflexivity. }
  cbn [process_messages].
  unfold bind at 1, get_should_stop. rewrite Hstop.
  unfold bind at 1. rewrite process_message_zero_retries by exact Hr.
  cbn [snd]. rewrite IH by exact Hstop.
  simpl. rewrite <- app_assoc. reflexivity.
Qed.

Lemma zero_retries_skips_silently_witness :
  process_messages nothing_left (mkSettings 10 1 true false 0 edit_and_delete) "c"
                   three_messages None (mkBatch 0 0 0) (init None) =
    ((Some 100, mkBatch 0 0 0),
     mkState zero_stats 0 false None None 0 [ESleep 1; ESleep 1; ESleep 1]).
Proof.
  apply (@zero_retries_skips_silently nothing_left
           (mkSettings 10 1 true false 0 edit_and_delete) "c" three_messages None
           (mkBatch 0 0 0) (init None)).
  - reflexivity.
  - reflexivity.
Defined.

Lemma delete_message_raises : forall env ch i attempt st,
  env (ncalls st) (EDelete ch i) = RequestException ->
  delete_message env ch i attempt st =
    (if (attempt <? 3)%nat then RETRY else FAILED, called (EDelete ch i) st).
Proof.
  intros env ch i attempt st H.
  unfold delete_message, bind, http. rewrite H. reflexivity.
Qed.

Lemma delete_attempts_unreachable : forall env cfg ch i g b,
  (forall n c j, env n (EDelete c j) = RequestException) ->
  forall remaining attempt st,
  (1 <= attempt <= 3)%nat ->
  (attempt + remaining = max_retries cfg + 1)%nat ->
  (1 <= remaining)%nat ->
  exists st' evs,
    delete_attempts env cfg ch remaining attempt i g b st = ((g, batch_skipped b), st') /\
    stats st' = inc_failed (stats st) /\
    log st' = log st ++ evs /\
    count_events is_delete_call evs = Nat.min remaining (4 - attempt).
Proof.
  intros env cfg ch i g b Henv.
  induction remaining as [| remaining IH]; intros attempt st Ha Hsum Hpos; [lia |].
  cbn [delete_attempts]. unfold bind at 1. rewrite delete_message_raises by apply Henv.
  assert (Hfail : exists st' evs,
    (update_stats inc_failed ;; ret (g, batch_skipped b)) (called (EDelete ch i) st) =
      ((g, batch_skipped b), st') /\
    stats st' = inc_failed (stats st) /\
    log st' = log st ++ evs /\
    count_events is_delete_call evs = 1%nat).
  { eexists. exists [EDelete ch i]. split; [reflexivity |]. simpl. auto. }
  destruct (Nat.ltb_spec attempt 3).
  - destruct (Nat.ltb_spec attempt (max_retries cfg)).
    + unfold bind at 1, sleep, emit. cbn [fst snd].
      match goal with |- context [delete_attempts _ _ _ _ _ _ _ _ ?s] =>
        destruct (IH (S attempt) s ltac:(lia) ltac:(lia) ltac:(lia))
          as [st' [evs [E [S' [L C]]]]] end.
      exists st', ([EDelete ch i; ESleep 1] ++ evs).
      split; [exact E | split; [exact S' | split]].
      * rewrite L. simpl. rewrite <- !app_assoc. reflexivity.
      * rewrite count_events_app, C.
        change (count_events is_delete_call [EDelete ch i; ESleep 1]) with 1%nat.
        lia.
    + destruct Hfail as [st' [evs [E [S' [L C]]]]].
      exists st', evs. rewrite C. repeat split; auto. lia.
  - destruct Hfail as [st' [evs [E [S' [L C]]]]].
    exists st', evs. rewrite C. repeat split; auto. lia.
Qed.

(** X11.  In mode [off] and with [max_retries] at least 1, a delete call
    that fails with a network error is tried again, but not after the third
    attempt, however large [max_retries] is: when every delete call raises,
    a message gets [min max_retries 3] delete calls, and is then counted as
    failed, once. *)
Theorem network_errors_get_three_attempts : forall env cfg ch msg b st,
  (forall n c j, env n (EDelete c j) = RequestException) ->
  meow_mode cfg = off ->
  max_retries cfg <> 0%nat ->
  exists evs,
    log (snd (process_message env cfg ch msg b st)) = log st ++ evs /\
    count_events is_delete_call evs = Nat.min (max_retries cfg) 3 /\
    stats (snd (process_message env cfg ch msg b st)) = inc_failed (stats st) /\
    fst (process_message env cfg ch msg b st) = batch_skipped b.
Proof.
  intros env cfg ch msg b st Henv Hmode Hr.
  destruct (@delete_attempts_unreachable env cfg ch (id msg) false b Henv
              (max_retries cfg) 1%nat st ltac:(lia) ltac:(lia) ltac:(lia))
    as [st' [evs [E [S' [L C]]]]].
  assert (Heq : process_message env cfg ch msg b st =
                (batch_skipped b, snd (sleep (delete_delay cfg) st'))).
  { unfold process_message, delete_stage. rewrite Hmode.
    unfold bind at 1. rewrite E. reflexivity. }
  rewrite Heq. cbn [fst snd sleep emit stats log].
  exists (evs ++ [ESleep (delete_delay cfg)]).
  split; [rewrite L, <- app_assoc; reflexivity |].
  split; [| split; [exact S' | reflexivity]].
  rewrite count_events_app, C.
  change (count_events is_delete_call [ESleep (delete_delay cfg)]) with 0%nat. lia.
Qed.

Lemma network_errors_get_three_attempts_witness :
  exists evs,
    log (snd (process_message unreachable (mkSettings 10 1 true false 5 off) "c"
                (own_message 7 "hi") (mkBatch 0 0 0) (init None))) = [] ++ evs /\
    count_events is_delete_call evs = 3%nat /\
    stats (snd (process_message unreachable (mkSettings 10 1 true false 5 off) "c"
                  (own_message 7 "hi") (mkBatch 0 0 0) (init None))) =
      inc_failed zero_stats /\
    fst (process_message unreachable (mkSettings 10 1 true false 5 off) "c"
           (own_message 7 "hi") (mkBatch 0 0 0) (init None)) = mkBatch 0 0 1.
Proof.
  apply (@network_errors_get_three_attempts unreachable (mkSettings 10 1 true false 5 off)
           "c" (own_message 7 "hi") (mkBatch 0 0 0) (init None)).
  - intros n c j. reflexivity.
  - reflexivity.
  - discriminate.
Defined.

(** ** A batch in which every delete succeeds *)

Lemma delete_message_ok : forall env ch i attempt st r,
  env (ncalls st) (EDelete ch i) = Response r ->
  status_code r = 204 ->
  delete_message env ch i attempt st = (OK, called (EDelete ch i) st).
Proof.
  intros env ch i attempt st r H Hs.
  unfold delete_message, bind, http. rewrite H. unfold action_result. rewrite Hs.
  reflexivity.
Qed.

Lemma process_message_deleted : forall env cfg ch msg b st,
  (forall n c j, exists r, env n (EDelete c j) = Response r /\ status_code r = 204) ->
  meow_mode cfg = off ->
  max_retries cfg <> 0%nat ->
  process_message env cfg ch msg b st =
    (batch_deleted b,
     snd (sleep (delete_delay cfg)
            (snd (update_stats inc_deleted (called (EDelete ch (id msg)) st))))).
Proof.
  intros env cfg ch msg b st Henv Hmode Hr.
  unfold process_message, delete_stage. rewrite Hmode.
  destruct (max_retries cfg) as [| n]; [congruence |].
  cbn [delete_attempts]. unfold bind at 1 2.
  destruct (Henv (ncalls st) ch (id msg)) as [r [H1 H2]].
  rewrite (delete_message_ok _ _ _ _ _ H1 H2). reflexivity.
Qed.

Lemma process_messages_all_deleted : forall env cfg ch,
  (forall n c j, exists r, env n (EDelete c j) = Response r /\ status_code r = 204) ->
  meow_mode cfg = off ->
  max_retries cfg <> 0%nat ->
  forall msgs oldest b st r st',
  should_stop st = false ->
  process_messages env cfg ch msgs oldest b st = (r, st') ->
  log st' = log st ++ deletes_in_order cfg ch msgs /\
  ncalls st' = (ncalls st + List.length msgs)%nat /\
  deleted (stats st') = deleted (stats st) + Z.of_nat (List.length msgs) /\
  edited (stats st') = edited (stats st) /\
  failed (stats st') = failed (stats st) /\
  skipped (stats st') = skipped (stats st) /\
  rate_limited (stats st') = rate_limited (stats st) /\
  ghosts (stats st') = ghosts (stats st).
Proof.
  intros env cfg ch Henv Hmode Hr.
  induction msgs as [| msg rest IH]; intros oldest b st r st' Hstop H.
  { simpl in H. unfold ret in H. injection H as <- <-.
    simpl. rewrite app_nil_r. repeat split; lia. }
  cbn [process_messages] in H.
  unfold bind at 1, get_should_stop in H. rewrite Hstop in H.
  unfold bind at 1 in H.
  rewrite (@process_message_deleted env cfg ch msg b st Henv Hmode Hr) in H.
  apply IH in H; [| exact Hstop].
  simpl in H. destruct H as [L [N [D [E [F [S' [R G]]]]]]].
  cbn [List.length deletes_in_order flat_map]. rewrite Nat2Z.inj_succ.
  split; [| repeat split; lia].
  rewrite L. unfold deletes_in_order. rewrite <- !app_assoc. reflexivity.
Qed.

(** X12.  In mode [off], when the server accepts every delete (204), a
    batch costs exactly one delete call and one sleep of [delete_delay] per
    message, in the order of the page; [deleted] goes up by the number of
    messages and no other counter moves. *)
Theorem accepted_deletes_cost_one_call_each : forall env cfg ch msgs oldest b st,
  (forall n c j, exists r, env n (EDelete c j) = Response r /\ status_code r = 204) ->
  meow_mode cfg = off ->
  max_retries cfg <> 0%nat ->
  should_stop st = false ->
  log (snd (process_messages env cfg ch msgs oldest b st)) =
    log st ++ deletes_in_order cfg ch msgs /\
  ncalls (snd (process_messages env cfg ch msgs oldest b st)) =
    (ncalls st + List.length msgs)%nat /\
  deleted (stats (snd (process_messages env cfg ch msgs oldest b st))) =
    deleted (stats st) + Z.of_nat (List.length msgs) /\
  edited (stats (snd (process_messages env cfg ch msgs oldest b st))) = edited (stats st) /\
  failed (stats (snd (process_messages env cfg ch msgs oldest b st))) = failed (stats st) /\
  skipped (stats (snd (process_messages env cfg ch msgs oldest b st))) =
    skipped (stats st) /\
  rate_limited (stats (snd (process_messages env cfg ch msgs oldest b st))) =
    rate_limited (stats st) /\
  ghosts (stats (snd (process_messages env cfg ch msgs oldest b st))) = ghosts (stats st).
Proof.
  intros env cfg ch msgs oldest b st Henv Hmode Hr Hstop.
  destruct (process_messages env cfg ch msgs oldest b st) as [r st'] eqn:E.
  exact (@process_messages_all_deleted env cfg ch Henv Hmode Hr msgs oldest b st r st'
           Hstop E).
Qed.

Lemma accepted_deletes_cost_one_call_each_witness :
  log (snd (process_messages (archive three_messages) (default_settings off) "c"
              three_messages None (mkBatch 0 0 0) (init None))) =
    [] ++ [EDelete "c" 300; ESleep 1; EDelete "c" 200; ESleep 1; EDelete "c" 100; ESleep 1].
Proof.
  apply (@accepted_deletes_cost_one_call_each (archive three_messages) (default_settings off)
           "c" three_messages None (mkBatch 0 0 0) (init None)).
  - intros n c j. eexists. split; reflexivity.
  - reflexivity.
  - discriminate.
  - reflexivity.
Defined.

(** ** Ghosts *)










(** ** The token *)

Lemma append_nil_r : forall s : string, (s ++ "")%string = s.
Proof. induction s as [| c s IH]; simpl; [reflexivity | rewrite IH; reflexivity]. Qed.

Lemma append_assoc : forall a b c : string,
  ((a ++ b) ++ c)%string = (a ++ (b ++ c))%string.
Proof. induction a as [| x a IH]; intros b c; simpl; [| rewrite IH]; reflexivity. Qed.

Lemma all_chars_append : forall p a b,
  all_chars p (a ++ b)%string = all_chars p a && all_chars p b.
Proof.
  intros p. induction a as [| c a IH]; intros b; simpl; [reflexivity |].
  rewrite IH, andb_assoc. reflexivity.
Qed.

Lemma length_lstrip : forall p s, (String.length (lstrip p s) <= String.length s)%nat.
Proof.
  intros p. induction s as [| c s IH]; simpl; [lia |].
  destruct (p c); simpl; lia.
Qed.

Lemma length_rstrip : forall p s, (String.length (rstrip p s) <= String.length s)%nat.
Proof.
  intros p. induction s as [| c s IH]; simpl; [lia |].
  destruct (rstrip p s); [destruct (p c) |]; simpl in *; lia.
Qed.

Lemma lstrip_head : forall p c s, lstrip p (String c s) = String c s -> p c = false.
Proof.
  intros p c s H. simpl in H. destruct (p c); [| reflexivity].
  pose proof (length_lstrip p s) as L. rewrite H in L. simpl in L. lia.
Qed.

Lemma lstrip_all : forall p a s, all_chars p a = true -> lstrip p (a ++ s)%string = lstrip p s.
Proof.
  intros p. induction a as [| c a IH]; intros s H; simpl in *; [reflexivity |].
  apply andb_true_iff in H. destruct H as [Hc Ha]. rewrite Hc. apply IH. exact Ha.
Qed.

Lemma rstrip_all : forall p b, all_chars p b = true -> rstrip p b = ""%string.
Proof.
  intros p. induction b as [| c b IH]; intros H; simpl in *; [reflexivity |].
  apply andb_true_iff in H. destruct H as [Hc Hb]. rewrite (IH Hb), Hc. reflexivity.
Qed.

Lemma rstrip_append : forall p a b,
  rstrip p (a ++ b)%string =
  match rstrip p b with
  | EmptyString => rstrip p a
  | r => (a ++ r)%string
  end.
Proof.
  intros p. induction a as [| c a IH]; intros b; simpl.
  - destruct (rstrip p b); reflexivity.
  - rewrite IH. destruct (rstrip p b) as [| x r].
    + reflexivity.
    + destruct a; reflexivity.
Qed.

(** What [strip] keeps: a text that it leaves as it is, whatever strippable
    characters are put around it. *)
Lemma strip_with_spec : forall p a s b,
  all_chars p a = true -> all_chars p b = true ->
  lstrip p s = s -> rstrip p s = s ->
  strip_with p (a ++ s ++ b)%string = s.
Proof.
  intros p a s b Ha Hb Hl Hr. unfold strip_with. rewrite lstrip_all by exact Ha.
  destruct s as [| c s].
  - simpl. rewrite <- (append_nil_r b), lstrip_all by exact Hb. reflexivity.
  - pose proof (@lstrip_head _ _ _ Hl) as Hc.
    simpl lstrip. rewrite Hc.
    change (String c (s ++ b)%string) with (String c s ++ b)%string.
    rewrite rstrip_append, (@rstrip_all _ _ Hb). exact Hr.
Qed.

Lemma strip_with_fixed : forall p s,
  strip_with p s = s -> lstrip p s = s /\ rstrip p s = s.
Proof.
  intros p s H. unfold strip_with in H.
  assert (Hl : lstrip p s = s).
  { destruct s as [| c s]; [reflexivity |].
    simpl in *. destruct (p c); [| reflexivity].
    pose proof (length_rstrip p (lstrip p s)) as L1.
    pose proof (length_lstrip p s) as L2.
    rewrite H in L1. simpl in L1. lia. }
  split; [exact Hl |]. rewrite Hl in H. exact H.
Qed.

Lemma clean_append : forall p a b,
  lstrip p a = a -> rstrip p a = a -> lstrip p b = b -> rstrip p b = b ->
  lstrip p (a ++ b)%string = (a ++ b)%string /\ rstrip p (a ++ b)%string = (a ++ b)%string.
Proof.
  intros p a b La Ra Lb Rb. split.
  - destruct a as [| c a]; [exact Lb |].
    pose proof (@lstrip_head _ _ _ La) as Hc. simpl. rewrite Hc. reflexivity.
  - rewrite rstrip_append, Rb. destruct b; [rewrite append_nil_r; exact Ra | reflexivity].
Qed.

Lemma quote_is_no_space : forall c, is_quote c = true -> isspace c = false.
Proof.
  intros c. destruct c as [[] [] [] [] [] [] [] []]; vm_compute; congruence.
Qed.

Lemma quotes_are_kept : forall q,
  all_chars is_quote q = true -> lstrip isspace q = q /\ rstrip isspace q = q.
Proof.
  induction q as [| c q IH]; intros H; simpl in *; [auto |].
  apply andb_true_iff in H. destruct H as [Hc Hq].
  rewrite (@quote_is_no_space _ Hc). split; [reflexivity |].
  destruct (IH Hq) as [_ Hr]. rewrite Hr. destruct q; reflexivity.
Qed.

Lemma token_of_lines_skip : forall before rest,
  Forall (fun l => String.prefix "DISCORD_TOKEN=" (strip l) = false) before ->
  token_of_lines (before ++ rest) = token_of_lines rest.
Proof.
  intros before rest H. induction H as [| l before Hl _ IH]; simpl; [reflexivity |].
  rewrite Hl. exact IH.
Qed.

(** X14.  A token written to [.env] is read back: the first line that
    starts with [DISCORD_TOKEN=] once stripped gives the token, whatever
    white space is around the line and around the value and whatever quote
    characters enclose the value, provided the token itself neither begins
    nor ends with white space or a quote character.  Lines before it that do
    not start so are passed over; lines after it are not read. *)
Theorem dotenv_token_is_read_back : forall before rest ws1 ws2 ws3 q1 q2 t,
  Forall (fun l => String.prefix "DISCORD_TOKEN=" (strip l) = false) before ->
  all_chars isspace ws1 = true ->
  all_chars isspace ws2 = true ->
  all_chars isspace ws3 = true ->
  all_chars is_quote q1 = true ->
  all_chars is_quote q2 = true ->
  strip t = t ->
  strip_with is_quote t = t ->
  load_token None None
    (Some (before ++
           (ws1 ++ "DISCORD_TOKEN=" ++ ws2 ++ q1 ++ t ++ q2 ++ ws3)%string :: rest)) =
  Some t.
Proof.
  intros before rest ws1 ws2 ws3 q1 q2 t Hb H1 H2 H3 Hq1 Hq2 Ht Htq.
  unfold load_token. rewrite token_of_lines_skip by exact Hb.
  destruct (@strip_with_fixed _ _ Ht) as [Tl Tr].
  destruct (@strip_with_fixed _ _ Htq) as [Ql Qr].
  destruct (@quotes_are_kept _ Hq1) as [L1 R1].
  destruct (@quotes_are_kept _ Hq2) as [L2 R2].
  destruct (@clean_append _ _ _ Tl Tr L2 R2) as [L3 R3].
  destruct (@clean_append _ _ _ L1 R1 L3 R3) as [Lc Rc].
  set (core := (q1 ++ t ++ q2)%string) in *.
  assert (Hv : strip (rstrip isspace (ws2 ++ core ++ ws3)%string) = core).
  { rewrite rstrip_append.
    rewrite (rstrip_append isspace core ws3), (@rstrip_all _ _ H3), Rc.
    destruct core as [| c core'] eqn:Ec.
    - rewrite (@rstrip_all _ _ H2). reflexivity.
    - rewrite <- Ec in *. unfold strip.
      rewrite <- (append_nil_r core) at 1.
      apply strip_with_spec; auto. }
  assert (Hline : strip (ws1 ++ "DISCORD_TOKEN=" ++ ws2 ++ core ++ ws3)%string =
                  ("DISCORD_TOKEN=" ++ rstrip isspace (ws2 ++ core ++ ws3))%string).
  { unfold strip, strip_with. rewrite lstrip_all by exact H1.
    change (lstrip isspace ("DISCORD_TOKEN=" ++ ws2 ++ core ++ ws3)%string)
      with ("DISCORD_TOKEN=" ++ ws2 ++ core ++ ws3)%string.
    rewrite rstrip_append.
    destruct (rstrip isspace (ws2 ++ core ++ ws3)%string); reflexivity. }
  cbn [token_of_lines].
  replace (ws1 ++ "DISCORD_TOKEN=" ++ ws2 ++ q1 ++ t ++ q2 ++ ws3)%string
    with (ws1 ++ "DISCORD_TOKEN=" ++ ws2 ++ core ++ ws3)%string
    by (unfold core; rewrite !append_assoc; reflexivity).
  rewrite Hline.
  replace (String.prefix "DISCORD_TOKEN="
             ("DISCORD_TOKEN=" ++ rstrip isspace (ws2 ++ core ++ ws3))%string) with true
    by (destruct (rstrip isspace (ws2 ++ core ++ ws3)%string); reflexivity).
  cbv iota.
  change (after_first (Ascii.ascii_of_nat 61)
            ("DISCORD_TOKEN=" ++ rstrip isspace (ws2 ++ core ++ ws3))%string)
    with (Some (rstrip isspace (ws2 ++ core ++ ws3)%string)).
  cbv iota. rewrite Hv. f_equal.
  unfold core. apply strip_with_spec; auto.
Qed.

Lemma dotenv_token_is_read_back_witness :
  load_token None None
    (Some ["# settings"; "  DISCORD_TOKEN= 'abc.def'  "; "DISCORD_TOKEN=other"]) =
  Some "abc.def".
Proof.
  apply (@dotenv_token_is_read_back ["# settings"] ["DISCORD_TOKEN=other"]
           "  " " " "  " "'" "'" "abc.def"); try reflexivity.
  repeat constructor.
Defined.

(** ** The start of a batch run *)

(** X15.  What a batch run presupposes.  When [main] reaches the loop
    over the targets, the session is authorised by the token that
    [load_token] finds without its argument (the environment variable, else
    the [.env] file), whatever [--token] holds; the author whose messages
    are handled is the user that the second validation returned for that
    token; and the run is a dry run, or [--yes] was given, or the answer to
    the prompt is [yes] once lowered and stripped. *)
Theorem batch_run_presupposes : forall w fuel a token author r st,
  main w fuel a = Batch token author r st ->
  load_token None (environ w) (dotenv w) = Some token /\
  validate_token (users_me w 1 token) = Some author /\
  (exists first_token,
     load_token (arg_token a) (environ w) (dotenv w) = Some first_token /\
     validate_token (users_me w 0 first_token) <> None) /\
  (arg_dry_run a = true \/ arg_yes a = true \/ strip (lower (answer w)) = "yes"%string) /\
  exists path c,
    arg_config a = Some path /\ config_file w path = Some c /\
    filter enabled (targets c) <> [] /\
    run_batch (server w) fuel c author (arg_dry_run a) (arg_resume a) (arg_meow a)
              (arg_skip_meowed a) (init (saved_progress w)) = (r, st).
Proof.
  intros w fuel a token author r st H. unfold main in H.
  destruct (load_token (arg_token a) (environ w) (dotenv w)) as [tok0 |] eqn:E0;
    [| discriminate H].
  destruct (validate_token (users_me w 0 tok0)) as [author0 |] eqn:V0; [| discriminate H].
  destruct (arg_verify_auth a); [discriminate H |].
  destruct (arg_discover a); [discriminate H |].
  destruct (arg_config a) as [path |] eqn:Ec; [| discriminate H].
  destruct (String.eqb path ""); [discriminate H |].
  unfold start_batch in H.
  destruct (config_file w path) as [c |] eqn:Ef; [| discriminate H].
  destruct (load_token None (environ w) (dotenv w)) as [tok1 |] eqn:E1; [| discriminate H].
  destruct (validate_token (users_me w 1 tok1)) as [author1 |] eqn:V1; [| discriminate H].
  destruct (filter enabled (targets c)) as [| t ts] eqn:Et; [discriminate H |].
  destruct (negb (arg_dry_run a) && negb (arg_yes a) &&
            negb (String.eqb (strip (lower (answer w))) "yes")) eqn:Eg;
    [discriminate H |].
  destruct (run_batch (server w) fuel c author1 (arg_dry_run a) (arg_resume a) (arg_meow a)
              (arg_skip_meowed a) (init (saved_progress w))) as [r1 st1] eqn:Er.
  injection H as <- <- <- <-.
  split; [reflexivity | split; [exact V1 | split; [| split]]].
  - exists tok0. split; [reflexivity |]. rewrite V0. discriminate.
  - destruct (arg_dry_run a); [left; reflexivity |].
    destruct (arg_yes a); [right; left; reflexivity |].
    right. right. simpl in Eg. apply negb_false_iff in Eg.
    apply String.eqb_eq in Eg. exact Eg.
  - exists path, c. repeat split; auto. rewrite Et. discriminate.
Qed.

Lemma batch_run_presupposes_witness :
  load_token None (environ token_in_environment) (dotenv token_in_environment) =
    Some "tok"%string /\
  validate_token (users_me token_in_environment 1 "tok") = Some "me"%string.
Proof.
  pose (w := @batch_run_presupposes token_in_environment 10%nat
               (mkArgs (Some "other"%string) (Some "config.json"%string) false false false
                       false false None None)
               "tok" "me" Summary
               (snd (run_batch nothing_left 10 five_targets "me" false false None None
                       (init None)))).
  assert (H : main token_in_environment 10
                (mkArgs (Some "other"%string) (Some "config.json"%string) false false false
                        false false None None) =
              Batch "tok" "me" Summary
                (snd (run_batch nothing_left 10 five_targets "me" false false None None
                        (init None)))).
  { vm_compute. reflexivity. }
  split; [exact (proj1 (w H)) | exact (proj1 (proj2 (w H)))].
Defined.

(** X16.  In batch mode a token given with [--token] only is not enough:
    [main] validates it, but [run_batch] loads the token again without the
    argument, so with no [DISCORD_TOKEN] in the environment and none in
    [.env] the run ends with status 1 before the loop over the targets,
    although the token is valid and the configuration can be read. *)
Theorem token_argument_is_not_passed_on : forall w fuel a t author path c,
  arg_token a = Some t ->
  t <> ""%string ->
  validate_token (users_me w 0 t) = Some author ->
  arg_verify_auth a = false ->
  arg_discover a = false ->
  arg_config a = Some path ->
  path <> ""%string ->
  config_file w path = Some c ->
  load_token None (environ w) (dotenv w) = None ->
  load_token (arg_token a) (environ w) (dotenv w) = Some t /\
  main w fuel a = Exit 1.
Proof.
  intros w fuel a t author path c Ht Hne Hv Hva Hd Hc Hp Hf Hnone.
  assert (Hl : load_token (arg_token a) (environ w) (dotenv w) = Some t).
  { unfold load_token. rewrite Ht.
    destruct (String.eqb_spec t ""); [contradiction | reflexivity]. }
  split; [exact Hl |].
  unfold main. rewrite Hl, Hv, Hva, Hd, Hc.
  destruct (String.eqb_spec path ""); [contradiction |].
  unfold start_batch. rewrite Hf, Hnone. reflexivity.
Qed.

Lemma token_argument_is_not_passed_on_witness :
  load_token (Some "tok"%string) (environ no_token_outside) (dotenv no_token_outside) =
    Some "tok"%string /\
  main no_token_outside 10
       (mkArgs (Some "tok"%string) (Some "config.json"%string) false false false false true
               None None) = Exit 1.
Proof.
  apply (@token_argument_is_not_passed_on no_token_outside 10%nat
           (mkArgs (Some "tok"%string) (Some "config.json"%string) false false false false
                   true None None)
           "tok" "me" "config.json" five_targets); try reflexivity; discriminate.
Defined.
